(** * Verification of the ImageNet preprocessing pipeline and the epoch
      bookkeeping of [bnn_optimization]

    Sources embedded here:
    - [bnn_optimization/data/imagenet.py]: aspect-preserving resize,
      random / central crop, per-channel normalisation, and the
      orchestrator [preprocess_image];
    - [bnn_optimization/utils.py]: [get_current_epoch] and
      [ModelCheckpoint.on_epoch_end].

    The Python code is a thin layer over TensorFlow, the [json] module and
    the file system.  Those collaborators are modelled first (binary
    floating point, dense tensors, the TensorFlow operations the code
    calls with their documented argument checks, a random bit source,
    JSON text, POSIX paths and a file store); the functions of the
    repository are then transcribed line by line on top of them. *)

From Stdlib Require Import ZArith QArith Qround Qabs Qpower Lia Lqa List.
From Stdlib Require Import String Ascii DecimalString DecimalZ.
From stdpp Require Import gmap strings.

Open Scope Z_scope.

(* ===================================================================== *)
(** * Python exceptions and fallible computations *)
(* ===================================================================== *)

(** The exception classes the two modules can raise.  [ValueError] carries
    its message; [InvalidArgumentError] (raised inside a TensorFlow kernel)
    carries the name of the operation that rejected its arguments. *)
Inductive exn : Type :=
| ValueError (msg : string)
| IndexError
| KeyError (key : string)
| TypeError
| FileNotFoundError
| IsADirectoryError
| UnicodeDecodeError
| JSONDecodeError
| InvalidArgumentError (op : string).

Inductive result (A : Type) : Type :=
| Ok (a : A)
| Raise (e : exn).
Arguments Ok {A} a.
Arguments Raise {A} e.

#[export] Instance result_bind : MBind result :=
  fun A B k r =>
    match r with
    | Ok a => k a
    | Raise e => Raise e
    end.

#[export] Instance result_ret : MRet result := fun A a => Ok a.

Definition raises {A : Type} (r : result A) : bool :=
  match r with
  | Ok _ => false
  | Raise _ => true
  end.

(* ===================================================================== *)
(** * Binary floating point *)
(* ===================================================================== *)

(** IEEE-754 binary formats, by precision [prec] (significand bits), the
    exponent [emin] of the smallest subnormal and the overflow threshold
    [2 ^ emax].  Values are kept as exact rationals; the sign of zero and
    the payload of NaN are not represented. *)
Module Float.

Record format : Type := { prec : Z; emin : Z; emax : Z }.

Definition binary32 : format := {| prec := 24; emin := -149; emax := 128 |}.
Definition binary64 : format := {| prec := 53; emin := -1074; emax := 1024 |}.

Inductive float : Type :=
| Finite (q : Q)
| Inf (negative : bool)
| NaN.

(** [floor (log2 x)] for [x > 0]. *)
Definition ilog2 (x : Q) : Z :=
  let k := Z.log2 (Qnum x) - Z.log2 (Zpos (Qden x)) in
  if Qle_bool (2 ^ k) x then k else k - 1.

(** Nearest integer, ties to even. *)
Definition round_half_even (x : Q) : Z :=
  let f := Qfloor x in
  match (x - inject_Z f ?= 1 # 2)%Q with
  | Lt => f
  | Gt => f + 1
  | Eq => if Z.even f then f else f + 1
  end.

(** Exponent of the unit in the last place of [x] in format [f]. *)
Definition ulp_exp (f : format) (x : Q) : Z :=
  Z.max (ilog2 (Qabs x) - (prec f - 1)) (emin f).

(** Round-to-nearest-even of the exact value [x], as a rational and
    before the overflow test. *)
Definition round_Q (f : format) (x : Q) : Q :=
  if Qeq_bool x 0 then 0%Q
  else
    let e := ulp_exp f x in
    (inject_Z (round_half_even (x / 2 ^ e)) * 2 ^ e)%Q.

Definition Qltb (x y : Q) : bool := negb (Qle_bool y x).

Definition round (f : format) (x : Q) : float :=
  let y := round_Q f x in
  if Qle_bool (2 ^ emax f) (Qabs y) then Inf (Qltb x 0)
  else Finite (Qred y).

Definition is_zero (x : Q) : bool := Qeq_bool x 0.

(** Arithmetic of one format: the exact result, rounded. *)
Section Ops.
Variable f : format.

Definition neg (x : float) : float :=
  match x with
  | Finite a => Finite (Qred (- a))
  | Inf s => Inf (negb s)
  | NaN => NaN
  end.

Definition add (x y : float) : float :=
  match x, y with
  | NaN, _ | _, NaN => NaN
  | Inf s, Inf t => if Bool.eqb s t then Inf s else NaN
  | Inf s, Finite _ => Inf s
  | Finite _, Inf t => Inf t
  | Finite a, Finite b => round f (a + b)
  end.

Definition sub (x y : float) : float := add x (neg y).

Definition mul (x y : float) : float :=
  match x, y with
  | NaN, _ | _, NaN => NaN
  | Inf s, Inf t => Inf (xorb s t)
  | Inf s, Finite b => if is_zero b then NaN else Inf (xorb s (Qltb b 0))
  | Finite a, Inf t => if is_zero a then NaN else Inf (xorb (Qltb a 0) t)
  | Finite a, Finite b => round f (a * b)
  end.

Definition div (x y : float) : float :=
  match x, y with
  | NaN, _ | _, NaN => NaN
  | Inf _, Inf _ => NaN
  | Inf s, Finite b => Inf (xorb s (Qltb b 0))
  | Finite _, Inf _ => Finite 0
  | Finite a, Finite b =>
      if is_zero b then (if is_zero a then NaN else Inf (Qltb a 0))
      else round f (a / b)
  end.
End Ops.

(** [x < y]; false as soon as one side is NaN. *)
Definition ltb (x y : float) : bool :=
  match x, y with
  | NaN, _ | _, NaN => false
  | Inf s, Inf t => s && negb t
  | Inf s, Finite _ => s
  | Finite _, Inf t => negb t
  | Finite a, Finite b => Qltb a b
  end.

(** Conversion of an integer, and of a value of a wider format. *)
Definition of_Z (f : format) (z : Z) : float := round f (inject_Z z).

Definition convert (f : format) (x : float) : float :=
  match x with
  | Finite a => round f a
  | _ => x
  end.

(** Truncation toward zero. *)
Definition Qtrunc (x : Q) : Z := Z.quot (Qnum x) (Zpos (Qden x)).

End Float.

Import Float.

Abbreviation f32 := Float.float.

(** A Python float literal [n / d] is the binary64 value nearest to it. *)
Definition py_float (n : Z) (d : positive) : float := round binary64 (n # d).

(* ===================================================================== *)
(** * Dense tensors *)
(* ===================================================================== *)

(** A dense tensor of binary32 values: its dimensions and its elements in
    row-major order. *)
Record tensor : Type := Tensor { shape : list nat; data : list f32 }.

Definition numel (s : list nat) : nat := fold_right Nat.mul 1%nat s.

(** Position of a multi-index in the row-major buffer, and back. *)
Fixpoint ravel (s idx : list nat) : nat :=
  match s, idx with
  | _ :: ds, i :: idx' => (i * numel ds + ravel ds idx')%nat
  | _, _ => 0%nat
  end.

Fixpoint unravel (s : list nat) (n : nat) : list nat :=
  match s with
  | [] => []
  | _ :: ds => (n / numel ds)%nat :: unravel ds (n mod numel ds)%nat
  end.

Definition get (t : tensor) (idx : list nat) : f32 :=
  nth (ravel (shape t) idx) (data t) (Finite 0).

Definition tensor_init (s : list nat) (f : list nat -> f32) : tensor :=
  Tensor s (map (fun n => f (unravel s n)) (seq 0 (numel s))).

(** Dimensions are reported as int32 values, so each is below [2^31]. *)
Definition tensor_wfb (t : tensor) : bool :=
  (length (data t) =? numel (shape t))%nat
  && forallb (fun d => Z.of_nat d <? 2 ^ 31) (shape t).

Definition tensor_wf (t : tensor) : Prop := tensor_wfb t = true.

(** ** int32 scalars *)

Definition int32_min : Z := - 2 ^ 31.
Definition int32_max : Z := 2 ^ 31 - 1.

Definition in_int32 (z : Z) : bool := (int32_min <=? z) && (z <=? int32_max).

(** Two's complement wrap-around of the int32 kernels. *)
Definition wrap32 (z : Z) : Z := (z + 2 ^ 31) mod 2 ^ 32 - 2 ^ 31.

Definition int64_min : Z := - 2 ^ 63.
Definition int64_max : Z := 2 ^ 63 - 1.

Definition in_int64 (z : Z) : bool := (int64_min <=? z) && (z <=? int64_max).

(** A Python int used where an int32 tensor is expected is converted
    first: a value that fits a machine integer of 64 bits is reduced
    modulo [2 ^ 32] without notice; any other value is rejected. *)
Definition convert_int32 (z : Z) : result Z :=
  if in_int64 z then Ok (wrap32 z)
  else Raise (ValueError
         "Can't convert Python sequence with out-of-range integer to Tensor.").

(** [x - y], [x + y] and [x // y] with [x] an int32 tensor and [y] a
    Python int. *)
Definition tf_sub (x y : Z) : result Z :=
  y' ← convert_int32 y; Ok (wrap32 (x - y')).

Definition tf_add (x y : Z) : result Z :=
  y' ← convert_int32 y; Ok (wrap32 (x + y')).

Definition tf_floordiv (x y : Z) : result Z :=
  y' ← convert_int32 y;
  if y' =? 0 then Raise (InvalidArgumentError "FloorDiv")
  else Ok (wrap32 (x / y')).

(** ** Shape queries *)

(** [tf.shape(t)]: the dimensions as an int32 vector. *)
Definition tf_shape (t : tensor) : list Z := map Z.of_nat (shape t).

(** [v[i]] on an int32 vector. *)
Definition tf_getitem (v : list Z) (i : nat) : result Z :=
  match nth_error v i with
  | Some z => Ok z
  | None => Raise (InvalidArgumentError "StridedSlice")
  end.

(** [t.get_shape()], its [.ndims] and [.as_list()[-1]]. *)
Definition get_shape (t : tensor) : list nat := shape t.

Definition ndims (s : list nat) : nat := length s.

Definition as_list_last (s : list nat) : result Z :=
  match rev s with
  | d :: _ => Ok (Z.of_nat d)
  | [] => Raise IndexError
  end.

(** [t.set_shape(s)]: the tensor is returned unchanged when its shape is
    the supplied one and [ValueError] is raised otherwise. *)
Definition set_shape (t : tensor) (s : list Z) : result tensor :=
  if decide (tf_shape t = s) then Ok t
  else Raise (ValueError
         "Tensor's shape is not compatible with supplied shape").

(** ** Casts *)

(** [tf.cast(z, tf.float32)] of an integer scalar (an int32 tensor, or a
    Python int, which is taken to fit a machine integer). *)
Definition tf_cast_float32 (z : Z) : f32 := of_Z binary32 z.

(** [tf.cast(x, tf.int32)] of a binary32 scalar: truncation toward zero;
    NaN, the infinities and values out of range give [int32_min] (the
    result of the x86 conversion instruction). *)
Definition tf_cast_int32 (x : f32) : Z :=
  match x with
  | Finite q => let z := Qtrunc q in if in_int32 z then z else int32_min
  | _ => int32_min
  end.

(** [tf.cast(image, tf.float32)] of a binary32 tensor. *)
Definition tf_cast_image (t : tensor) : tensor := t.

(** [tf.minimum(x, y)]. *)
Definition tf_minimum (x y : f32) : f32 := if ltb y x then y else x.

(** ** Slicing *)

Definition slice_size (d : nat) (b s : Z) : Z :=
  if s =? -1 then Z.of_nat d - b else s.

Definition slice_dim_ok (d : nat) (b s : Z) : bool :=
  if (d =? 0)%nat then (b =? 0) && (s =? 0)
  else (0 <=? b) && (b <=? Z.of_nat d) && (0 <=? s) && (b + s <=? Z.of_nat d).

Fixpoint slice_sizes (ds : list nat) (bs ss : list Z) : list Z :=
  match ds, bs, ss with
  | d :: ds', b :: bs', s :: ss' => slice_size d b s :: slice_sizes ds' bs' ss'
  | _, _, _ => []
  end.

Fixpoint slice_ok (ds : list nat) (bs ss : list Z) : bool :=
  match ds, bs, ss with
  | d :: ds', b :: bs', s :: ss' => slice_dim_ok d b s && slice_ok ds' bs' ss'
  | _, _, _ => true
  end.

Fixpoint offset_index (bs : list Z) (idx : list nat) : list nat :=
  match bs, idx with
  | b :: bs', i :: idx' => (Z.to_nat b + i)%nat :: offset_index bs' idx'
  | _, _ => []
  end.

(** The slice operation on int32 vectors: [begin] and [size] must have one
    entry per dimension; a size of [-1] takes everything from [begin] on;
    the window must lie inside the tensor. *)
Definition slice_kernel (t : tensor) (begin size : list Z) : result tensor :=
  let ds := shape t in
  if negb ((length begin =? length ds)%nat && (length size =? length ds)%nat)
  then Raise (InvalidArgumentError "Slice")
  else
    let size' := slice_sizes ds begin size in
    if slice_ok ds begin size'
    then Ok (tensor_init (map Z.to_nat size')
               (fun idx => get t (offset_index begin idx)))
    else Raise (InvalidArgumentError "Slice").

(** [tf.slice(t, begin, size)]: the entries of the two lists become int32
    values, then the operation runs. *)
Definition tf_slice (t : tensor) (begin size : list Z) : result tensor :=
  begin ← mapM convert_int32 begin;
  size ← mapM convert_int32 size;
  slice_kernel t begin size.

(** ** Broadcasting and element-wise arithmetic *)

(** A finite binary64 value beyond the range of binary32. *)
Definition float32_overflow (x : float) : bool :=
  match x, convert binary32 x with
  | Finite _, Inf _ => true
  | _, _ => false
  end.

(** A Python list of floats used where a binary32 tensor is expected: each
    value is rounded to binary32; a finite value that would become an
    infinity is rejected. *)
Definition convert_float32 (v : list float) : result (list f32) :=
  if existsb float32_overflow v
  then Raise (ValueError
         "Can't convert Python sequence with a value out of range for a double-precision float.")
  else Ok (map (convert binary32) v).

(** [tf.broadcast_to(v, s)] of a Python list [v] of floats and an int32
    shape vector [s]: the list becomes a binary32 vector, which broadcasts
    along the last dimension when its length is that dimension or one. *)
Definition tf_broadcast_to (v : list float) (s : list Z) : result tensor :=
  v32 ← convert_float32 v;
  let n := length v32 in
  let dims := map Z.to_nat s in
  match rev dims with
  | [] => Raise (InvalidArgumentError "BroadcastTo")
  | c :: _ =>
      if (n =? c)%nat || (n =? 1)%nat
      then Ok (tensor_init dims (fun idx =>
                 nth (if (n =? 1)%nat then 0%nat else List.last idx 0%nat)
                     v32 (Finite 0)))
      else Raise (InvalidArgumentError "BroadcastTo")
  end.

(** An element-wise operation on two tensors of the same shape. *)
Definition tf_elementwise (op : f32 -> f32 -> f32) (a b : tensor) : tensor :=
  Tensor (shape a) (zip_with op (data a) (data b)).

Definition tf_subtract : tensor -> tensor -> tensor := tf_elementwise (sub binary32).
Definition tf_truediv : tensor -> tensor -> tensor := tf_elementwise (div binary32).

(** ** Bilinear resize *)

Definition floor_nat (x : f32) : nat :=
  match x with
  | Finite q => Z.to_nat (Qfloor q)
  | _ => 0%nat
  end.

Definition ceil_nat (x : f32) : nat :=
  match x with
  | Finite q => Z.to_nat (Qceiling q)
  | _ => 0%nat
  end.

(** Source coordinate of output line [i]: the lower and upper source lines
    and the interpolation weight, with [scale = in_size / out_size] and
    no corner alignment.  At a whole source coordinate the two lines are
    the same. *)
Definition interpolation_weights (in_size out_size i : nat) : nat * nat * f32 :=
  let scale := div binary32 (tf_cast_float32 (Z.of_nat in_size))
                            (tf_cast_float32 (Z.of_nat out_size)) in
  let src := mul binary32 (tf_cast_float32 (Z.of_nat i)) scale in
  let lower := floor_nat src in
  let upper := Nat.min (ceil_nat src) (in_size - 1) in
  (lower, upper, sub binary32 src (tf_cast_float32 (Z.of_nat lower))).

Definition compute_lerp (top_left top_right bottom_left bottom_right : f32)
    (x_lerp y_lerp : f32) : f32 :=
  let top := add binary32 top_left
               (mul binary32 (sub binary32 top_right top_left) x_lerp) in
  let bottom := add binary32 bottom_left
               (mul binary32 (sub binary32 bottom_right bottom_left) x_lerp) in
  add binary32 top (mul binary32 (sub binary32 bottom top) y_lerp).

(** One output value; [batch] is the empty prefix for a single image and
    the image number for a batch. *)
Definition bilinear_at (t : tensor) (batch : list nat)
    (in_h in_w out_h out_w : nat) (y x k : nat) : f32 :=
  let '(y0, y1, y_lerp) := interpolation_weights in_h out_h y in
  let '(x0, x1, x_lerp) := interpolation_weights in_w out_w x in
  let px (i j : nat) := get t (batch ++ [i; j; k]) in
  compute_lerp (px y0 x0) (px y0 x1) (px y1 x0) (px y1 x1) x_lerp y_lerp.

(** The message of [tf.TensorShape] for a negative dimension. *)
Definition dimension_message (d : Z) : string :=
  ("Dimension " ++ NilZero.string_of_int (Z.to_int d) ++ " must be >= 0")%string.

(** [tf.compat.v1.image.resize(t, [new_height, new_width],
    method=BILINEAR, align_corners=False)].  The requested size is first
    read as a shape, in which [-1] stands for an unknown dimension and any
    other negative number is refused.  An image that already has the
    requested size is returned as it is. *)
Definition tf_image_resize (t : tensor) (new_height new_width : Z) : result tensor :=
  let resize batch h w c :=
    if new_height <? -1 then Raise (ValueError (dimension_message new_height))
    else if new_width <? -1 then Raise (ValueError (dimension_message new_width))
    else if (Z.of_nat h =? new_height) && (Z.of_nat w =? new_width) then Ok t
    else if negb ((0 <? new_height) && (0 <? new_width)
                  && (0 <? c)%nat && (0 <? h)%nat && (0 <? w)%nat)
    then Raise (InvalidArgumentError "ResizeBilinear")
    else
      let nh := Z.to_nat new_height in
      let nw := Z.to_nat new_width in
      Ok (tensor_init (batch ++ [nh; nw; c])
            (fun idx =>
               match skipn (length batch) idx with
               | [y; x; k] =>
                   bilinear_at t (firstn (length batch) idx) h w nh nw y x k
               | _ => Finite 0
               end))
  in
  match shape t with
  | [h; w; c] => resize [] h w c
  | [b; h; w; c] => resize [b] h w c
  | _ => Raise (ValueError "'images' must have either 3 or 4 dimensions.")
  end.

(* ===================================================================== *)
(** * The random source *)
(* ===================================================================== *)

(** The generator behind [tf.random]: an unbounded supply of 32-bit words
    and the number of words consumed so far. *)
Record rng : Type := Rng { bits : nat -> Z; pos : nat }.

(** Computations that may draw random words and may raise. *)
Definition rand (A : Type) : Type := rng -> result A * rng.

#[export] Instance rand_ret : MRet rand := fun A a g => (Ok a, g).

#[export] Instance rand_bind : MBind rand :=
  fun A B k m g =>
    match m g with
    | (Ok a, g') => k a g'
    | (Raise e, g') => (Raise e, g')
    end.

Definition lift {A : Type} (r : result A) : rand A := fun g => (r, g).

Definition next_uint32 : rand Z :=
  fun g => (Ok (bits g (pos g) mod 2 ^ 32), Rng (bits g) (S (pos g))).

(** [tf.random.uniform([], minval, maxval, dtype=tf.int32)]: the bounds
    must satisfy [minval < maxval]; the result is
    [minval + word mod (maxval - minval)]. *)
Definition tf_random_uniform (minval maxval : Z) : rand Z :=
  lo ← lift (convert_int32 minval);
  hi ← lift (convert_int32 maxval);
  if lo <? hi
  then word ← next_uint32; mret (lo + word mod (hi - lo))
  else lift (Raise (InvalidArgumentError "RandomUniformInt")).

(** [tf.reverse(t, [1])] of a three-dimensional tensor. *)
Definition tf_reverse_width (t : tensor) : tensor :=
  match shape t with
  | [_; w; _] =>
      tensor_init (shape t)
        (fun idx =>
           match idx with
           | [i; j; k] => get t [i; (w - 1 - j)%nat; k]
           | _ => Finite 0
           end)
  | _ => t
  end.

(** [tf.image.random_flip_left_right(image)] of a single image: every
    dimension must be positive; one word is drawn, its low 23 bits are the
    fraction of a uniform binary32 value in [[0, 1)], and the image is
    mirrored when that value is below one half.  Batches of images
    (rank 4) do not reach this operation here, since its argument is the
    result of a three-component slice; they are not modelled and are
    reported like the higher ranks. *)
Definition tf_image_random_flip_left_right (image : tensor) : rand tensor :=
  match shape image with
  | [h; w; c] =>
      if existsb (Nat.eqb 0) [h; w; c]
      then lift (Raise (ValueError "all dims of 'image.shape' must be > 0"))
      else
        word ← next_uint32;
        let mirror_cond := Z.land word (2 ^ 23 - 1) <? 2 ^ 22 in
        mret (if mirror_cond then tf_reverse_width image else image)
  | [] | [_] | [_; _] =>
      lift (Raise (ValueError "'image' must be at least three-dimensional."))
  | _ => lift (Raise (ValueError "'image' must have either 3 or 4 dimensions."))
  end.

(* ===================================================================== *)
(** * [bnn_optimization/data/imagenet.py] *)
(* ===================================================================== *)

Module imagenet.

Definition _R_MEAN : float := py_float 12368 100.
Definition _G_MEAN : float := py_float 11678 100.
Definition _B_MEAN : float := py_float 10394 100.

Definition _R_STD : float := mul binary64 (py_float 229 1000) (of_Z binary64 255).
Definition _G_STD : float := mul binary64 (py_float 224 1000) (of_Z binary64 255).
Definition _B_STD : float := mul binary64 (py_float 225 1000) (of_Z binary64 255).

Definition _RESIZE_SIDE_MIN : Z := 256.
Definition _RESIZE_SIDE_MAX : Z := 512.

Definition _get_h_w (image : tensor) : result (Z * Z) :=
  let shape := tf_shape image in
  h ← tf_getitem shape 0;
  w ← tf_getitem shape 1;
  Ok (h, w).

Definition _random_crop_and_flip (image : tensor) (crop_height crop_width : Z)
    : rand tensor :=
  '(height, width) ← lift (_get_h_w image);
  total_crop_height ← lift (tf_sub height crop_height);
  maxval_top ← lift (tf_add total_crop_height 1);
  crop_top ← tf_random_uniform 0 maxval_top;
  total_crop_width ← lift (tf_sub width crop_width);
  maxval_left ← lift (tf_add total_crop_width 1);
  crop_left ← tf_random_uniform 0 maxval_left;
  cropped ← lift (tf_slice image [crop_top; crop_left; 0]
                                 [crop_height; crop_width; -1]);
  tf_image_random_flip_left_right cropped.

Definition _central_crop (image : tensor) (crop_height crop_width : Z)
    : result tensor :=
  '(height, width) ← _get_h_w image;
  total_crop_height ← tf_sub height crop_height;
  crop_top ← tf_floordiv total_crop_height 2;
  total_crop_width ← tf_sub width crop_width;
  crop_left ← tf_floordiv total_crop_width 2;
  tf_slice image [crop_top; crop_left; 0] [crop_height; crop_width; -1].

Definition _mean_image_subtraction (image : tensor) (means : list float)
    : result tensor :=
  if negb (ndims (get_shape image) =? 3)%nat
  then Raise (ValueError "Input must be of size [height, width, C>0]")
  else
    num_channels ← as_list_last (get_shape image);
    if negb (Z.of_nat (length means) =? num_channels)
    then Raise (ValueError "len(means) must match the number of channels")
    else
      means ← tf_broadcast_to means (tf_shape image);
      Ok (tf_subtract image means).

Definition _scale_normalization (image : tensor) (stds : list float)
    : result tensor :=
  stds ← tf_broadcast_to stds (tf_shape image);
  Ok (tf_truediv image stds).

Definition _smallest_size_at_least (height width smallest_side : Z) : Z * Z :=
  let smallest_side := tf_cast_float32 smallest_side in
  let height := tf_cast_float32 height in
  let width := tf_cast_float32 width in
  let smaller_dim := tf_minimum height width in
  let scale_ratio := div binary32 smallest_side smaller_dim in
  let new_height := tf_cast_int32 (mul binary32 height scale_ratio) in
  let new_width := tf_cast_int32 (mul binary32 width scale_ratio) in
  (new_height, new_width).

Definition _aspect_preserving_resize (image : tensor) (smallest_side : Z)
    : result tensor :=
  '(height, width) ← _get_h_w image;
  let '(new_height, new_width) :=
    _smallest_size_at_least height width smallest_side in
  tf_image_resize image new_height new_width.

Definition preprocess_image (image : tensor) (output_height output_width : Z)
    (is_training : bool) (resize_side_min resize_side_max : Z) : rand tensor :=
  '(resize_side, crop_fn) ←
    (if is_training
     then
       resize_side ← tf_random_uniform resize_side_min (resize_side_max + 1);
       mret (resize_side, _random_crop_and_flip)
     else
       mret (resize_side_min,
             fun image h w => lift (_central_crop image h w)));
  num_channels ← lift (as_list_last (get_shape image));
  image ← lift (_aspect_preserving_resize image resize_side);
  image ← crop_fn image output_height output_width;
  image ← lift (set_shape image [output_height; output_width; num_channels]);
  let image := tf_cast_image image in
  image ← lift (_mean_image_subtraction image [_R_MEAN; _G_MEAN; _B_MEAN]);
  lift (_scale_normalization image [_R_STD; _G_STD; _B_STD]).

(** The registered entry point, [default(image, training)]. *)
Definition default (image : tensor) (training : bool) : rand tensor :=
  preprocess_image image 224 224 training _RESIZE_SIDE_MIN _RESIZE_SIDE_MAX.

End imagenet.

(* ===================================================================== *)
(** * JSON text, POSIX paths and the file store *)
(* ===================================================================== *)

(** Python values as [json.load] builds them.  A dict is kept as the list
    of its members, one per key, in the order in which the keys first
    occur.  Strings are kept in UTF-8. *)
#[warnings="-register-all"] Inductive json : Type :=
| JNull
| JBool (b : bool)
| JInt (z : Z)
| JFloat (x : float)
| JString (s : string)
| JArray (items : list json)
| JObject (members : list (string * json)).

Module Json.

Definition is_ws (c : ascii) : bool :=
  (c =? " ")%char || (c =? "009")%char || (c =? "010")%char || (c =? "013")%char.

Fixpoint skip_ws (s : string) : string :=
  match s with
  | String c r => if is_ws c then skip_ws r else s
  | EmptyString => s
  end.

Definition is_digit (c : ascii) : bool :=
  let n := nat_of_ascii c in (48 <=? n)%nat && (n <=? 57)%nat.

(** The longest prefix of digits, and what follows it. *)
Fixpoint span_digits (s : string) : string * string :=
  match s with
  | String c r =>
      if is_digit c then let '(d, rest) := span_digits r in (String c d, rest)
      else (EmptyString, s)
  | EmptyString => (EmptyString, EmptyString)
  end.

Definition digits_value (d : string) : Z :=
  match NilEmpty.uint_of_string d with
  | Some u => Z.of_uint u
  | None => 0
  end.

(** The integer part of a number: a single [0], or a run of digits that
    starts with a non-zero digit. *)
Definition span_integer (s : string) : string * string :=
  match s with
  | String "0" r => ("0"%string, r)
  | _ => span_digits s
  end.

(** The optional fraction [.digits]. *)
Definition span_fraction (s : string) : string * string :=
  match s with
  | String "." r =>
      match span_digits r with
      | (EmptyString, _) => (EmptyString, s)
      | (d, rest) => (d, rest)
      end
  | _ => (EmptyString, s)
  end.

(** The optional exponent [e], [E] with an optional sign and digits. *)
Definition span_exponent (s : string) : option Z * string :=
  match s with
  | String c r =>
      if (c =? "e")%char || (c =? "E")%char then
        let '(negative, r') :=
          match r with
          | String "-" r' => (true, r')
          | String "+" r' => (false, r')
          | _ => (false, r)
          end in
        match span_digits r' with
        | (EmptyString, _) => (None, s)
        | (d, rest) =>
            (Some (if negative then - digits_value d else digits_value d), rest)
        end
      else (None, s)
  | EmptyString => (None, s)
  end.

Definition pow10 (e : Z) : Q := (inject_Z 10 ^ e)%Q.

(** The decimal notation of an integer, without any limit on its size. *)
Definition string_of_Z (z : Z) : string := NilZero.string_of_int (Z.to_int z).

Definition string_of_nat (n : nat) : string := NilZero.string_of_uint (Nat.to_uint n).

(** The conversion between [int] and [str] refuses numbers of more than
    4300 decimal digits, in both directions (the sign is not counted);
    this is the default of CPython since 3.11. *)
Definition max_str_digits : nat := 4300.

Definition decimal_digits (z : Z) : nat := String.length (string_of_Z (Z.abs z)).

(** [int(digits)] for a run of decimal digits. *)
Definition int_of_digits (digits : string) : result Z :=
  if (max_str_digits <? String.length digits)%nat
  then Raise (ValueError
         ("Exceeds the limit (4300 digits) for integer string conversion: value has "
          ++ string_of_nat (String.length digits)
          ++ " digits; use sys.set_int_max_str_digits() to increase the limit"))
  else Ok (digits_value digits).

(** [int.__repr__(z)]. *)
Definition int_repr (z : Z) : result string :=
  if (max_str_digits <? decimal_digits z)%nat
  then Raise (ValueError
         "Exceeds the limit (4300 digits) for integer string conversion; use sys.set_int_max_str_digits() to increase the limit")
  else Ok (string_of_Z z).

(** A number without its sign. *)
Definition parse_unsigned (negative : bool) (s : string) : result (json * string) :=
  match span_integer s with
  | (EmptyString, _) => Raise JSONDecodeError
  | (int_digits, s1) =>
      let '(frac_digits, s2) := span_fraction s1 in
      let '(exponent, s3) := span_exponent s2 in
      let sign (z : Z) := if negative then - z else z in
      match frac_digits, exponent with
      | EmptyString, None =>
          z ← int_of_digits int_digits; Ok (JInt (sign z), s3)
      | _, _ =>
          let scale := Z.of_nat (String.length frac_digits) in
          let mantissa :=
            digits_value int_digits * 10 ^ scale + digits_value frac_digits in
          let e := match exponent with Some e => e | None => 0 end in
          Ok (JFloat (round binary64
                        (inject_Z (sign mantissa) * pow10 (e - scale))), s3)
      end
  end.

Definition hex_value (c : ascii) : option Z :=
  let n := Z.of_nat (nat_of_ascii c) in
  if (48 <=? n) && (n <=? 57) then Some (n - 48)
  else if (65 <=? n) && (n <=? 70) then Some (n - 55)
  else if (97 <=? n) && (n <=? 102) then Some (n - 87)
  else None.

(** The code unit written as four hexadecimal digits. *)
Definition hex4 (a b c d : ascii) : option Z :=
  x3 ← hex_value a; x2 ← hex_value b; x1 ← hex_value c; x0 ← hex_value d;
  Some (((x3 * 16 + x2) * 16 + x1) * 16 + x0).

Definition is_high_surrogate (cp : Z) : bool := (55296 <=? cp) && (cp <=? 56319).
Definition is_low_surrogate (cp : Z) : bool := (56320 <=? cp) && (cp <=? 57343).

(** The code point of a surrogate pair. *)
Definition join_surrogates (high low : Z) : Z :=
  65536 + (high - 55296) * 1024 + (low - 56320).

Definition byte (z : Z) : ascii := ascii_of_nat (Z.to_nat z).

(** UTF-8 encoding of a code point; a surrogate that stands alone is
    encoded like any other code point below [2^16]. *)
Definition utf8 (cp : Z) : string :=
  if cp <? 128 then String (byte cp) EmptyString
  else if cp <? 2048 then
    String (byte (192 + cp / 64)) (String (byte (128 + cp mod 64)) EmptyString)
  else if cp <? 65536 then
    String (byte (224 + cp / 4096))
      (String (byte (128 + (cp / 64) mod 64))
         (String (byte (128 + cp mod 64)) EmptyString))
  else
    String (byte (240 + cp / 262144))
      (String (byte (128 + (cp / 4096) mod 64))
         (String (byte (128 + (cp / 64) mod 64))
            (String (byte (128 + cp mod 64)) EmptyString))).

(** The body of a string, after its opening quote.  An escaped high
    surrogate that is followed by an escaped low surrogate forms one code
    point with it. *)
Fixpoint parse_string (s : string) : result (string * string) :=
  match s with
  | EmptyString => Raise JSONDecodeError
  | String "034" rest => Ok (EmptyString, rest)
  | String "\" (String "u" (String a (String b (String c (String d rest))))) =>
      match hex4 a b c d with
      | Some cp =>
          match rest with
          | String "\" (String "u"
              (String a2 (String b2 (String c2 (String d2 rest2))))) =>
              match hex4 a2 b2 c2 d2 with
              | Some cp2 =>
                  if is_high_surrogate cp && is_low_surrogate cp2
                  then
                    '(body, rest') ← parse_string rest2;
                    Ok ((utf8 (join_surrogates cp cp2) ++ body)%string, rest')
                  else
                    '(body, rest') ← parse_string rest;
                    Ok ((utf8 cp ++ body)%string, rest')
              | None =>
                  '(body, rest') ← parse_string rest;
                  Ok ((utf8 cp ++ body)%string, rest')
              end
          | _ =>
              '(body, rest') ← parse_string rest;
              Ok ((utf8 cp ++ body)%string, rest')
          end
      | None => Raise JSONDecodeError
      end
  | String "\" (String e rest) =>
      c ← (if (e =? "034")%char then Ok "034"%char
           else if (e =? "\")%char then Ok "\"%char
           else if (e =? "/")%char then Ok "/"%char
           else if (e =? "b")%char then Ok "008"%char
           else if (e =? "f")%char then Ok "012"%char
           else if (e =? "n")%char then Ok "010"%char
           else if (e =? "r")%char then Ok "013"%char
           else if (e =? "t")%char then Ok "009"%char
           else Raise JSONDecodeError);
      '(body, rest') ← parse_string rest;
      Ok (String c body, rest')
  | String "\" EmptyString => Raise JSONDecodeError
  | String c rest =>
      if (nat_of_ascii c <? 32)%nat then Raise JSONDecodeError
      else '(body, rest') ← parse_string rest; Ok (String c body, rest')
  end.

(** [d[key] = v] on a dict: a key that is present keeps its place and gets
    the new value. *)
Fixpoint dict_set (d : list (string * json)) (key : string) (v : json)
    : list (string * json) :=
  match d with
  | [] => [(key, v)]
  | (k, w) :: d' => if String.eqb k key then (k, v) :: d' else (k, w) :: dict_set d' key v
  end.

(** The dict made of the members of an object, in file order. *)
Definition dict_of (members : list (string * json)) : list (string * json) :=
  fold_left (fun d m => dict_set d (fst m) (snd m)) members [].

Definition strip_prefix (p s : string) : option string :=
  if String.prefix p s
  then Some (String.substring (String.length p) (String.length s - String.length p) s)
  else None.

(** One value at the head of [s] (which has no leading white space), the
    elements of an array after its bracket, and the members of an object
    after its brace.  [n] bounds the number of nested calls. *)
Fixpoint parse_value (n : nat) (s : string) : result (json * string) :=
  match n with
  | O => Raise JSONDecodeError
  | S n =>
      match s with
      | String "{" r =>
          match skip_ws r with
          | String "}" rest => Ok (JObject [], rest)
          | r' => '(ms, rest) ← parse_members n r'; Ok (JObject (dict_of ms), rest)
          end
      | String "[" r =>
          match skip_ws r with
          | String "]" rest => Ok (JArray [], rest)
          | r' => '(vs, rest) ← parse_elements n r'; Ok (JArray vs, rest)
          end
      | String "034" r => '(str, rest) ← parse_string r; Ok (JString str, rest)
      | String "-" r =>
          match strip_prefix "Infinity" r with
          | Some rest => Ok (JFloat (Inf true), rest)
          | None => parse_unsigned true r
          end
      | _ =>
          match strip_prefix "null" s, strip_prefix "true" s,
                strip_prefix "false" s, strip_prefix "NaN" s,
                strip_prefix "Infinity" s with
          | Some rest, _, _, _, _ => Ok (JNull, rest)
          | _, Some rest, _, _, _ => Ok (JBool true, rest)
          | _, _, Some rest, _, _ => Ok (JBool false, rest)
          | _, _, _, Some rest, _ => Ok (JFloat NaN, rest)
          | _, _, _, _, Some rest => Ok (JFloat (Inf false), rest)
          | _, _, _, _, _ => parse_unsigned false s
          end
      end
  end
with parse_elements (n : nat) (s : string) : result (list json * string) :=
  match n with
  | O => Raise JSONDecodeError
  | S n =>
      '(v, r) ← parse_value n s;
      match skip_ws r with
      | String "]" rest => Ok ([v], rest)
      | String "," r' =>
          '(vs, rest) ← parse_elements n (skip_ws r'); Ok (v :: vs, rest)
      | _ => Raise JSONDecodeError
      end
  end
with parse_members (n : nat) (s : string) : result (list (string * json) * string) :=
  match n with
  | O => Raise JSONDecodeError
  | S n =>
      match s with
      | String "034" r =>
          '(key, r1) ← parse_string r;
          match skip_ws r1 with
          | String ":" r2 =>
              '(v, r3) ← parse_value n (skip_ws r2);
              match skip_ws r3 with
              | String "}" rest => Ok ([(key, v)], rest)
              | String "," r4 =>
                  '(ms, rest) ← parse_members n (skip_ws r4);
                  Ok ((key, v) :: ms, rest)
              | _ => Raise JSONDecodeError
              end
          | _ => Raise JSONDecodeError
          end
      | _ => Raise JSONDecodeError
      end
  end.

(** [json.loads(text)]: one value, surrounded by optional white space.
    The recursion limit of the interpreter, which makes [json.loads] raise
    on documents nested some thousand levels deep, is not part of the
    model. *)
Definition loads (text : string) : result json :=
  '(v, rest) ← parse_value (2 * String.length text + 2) (skip_ws text);
  match skip_ws rest with
  | EmptyString => Ok v
  | _ => Raise JSONDecodeError
  end.

(** The double quote character, as a string. *)
Definition quote : string := String "034" EmptyString.

Definition dump_member (m : string * Z) : result string :=
  number ← int_repr (snd m);
  Ok (quote ++ fst m ++ quote ++ ": " ++ number)%string.

(** [json.dumps(d)] for a dict [d] of ints under keys that need no
    escaping, the only kind of document this package writes. *)
Definition dumps (d : list (string * Z)) : result string :=
  members ← mapM dump_member d;
  Ok ("{" ++ String.concat ", " members ++ "}")%string.

(** [v[key]] with a string key. *)
Definition getitem (v : json) (key : string) : result json :=
  match v with
  | JObject ms =>
      match find (fun m => String.eqb (fst m) key) (rev ms) with
      | Some m => Ok (snd m)
      | None => Raise (KeyError key)
      end
  | _ => Raise TypeError
  end.

End Json.

(** ** [os.path] on POSIX *)

Definition sep : ascii := "/"%char.

Definition startswith_sep (p : string) : bool :=
  match p with
  | String c _ => (c =? sep)%char
  | EmptyString => false
  end.

Fixpoint endswith_sep (p : string) : bool :=
  match p with
  | EmptyString => false
  | String c EmptyString => (c =? sep)%char
  | String _ r => endswith_sep r
  end.

(** [os.path.join(a, b)]. *)
Definition os_path_join (a b : string) : string :=
  if startswith_sep b then b
  else if (a =? EmptyString)%string || endswith_sep a then (a ++ b)%string
  else (a ++ String sep b)%string.

(** [p[: p.rfind('/') + 1]]. *)
Fixpoint upto_last_sep (p : string) : string :=
  match p with
  | EmptyString => EmptyString
  | String c r =>
      let h := upto_last_sep r in
      if (c =? sep)%char || negb (h =? EmptyString)%string then String c h
      else EmptyString
  end.

Fixpoint all_sep (p : string) : bool :=
  match p with
  | EmptyString => true
  | String c r => (c =? sep)%char && all_sep r
  end.

Fixpoint rstrip_sep (p : string) : string :=
  match p with
  | EmptyString => EmptyString
  | String c r =>
      let r' := rstrip_sep r in
      if (c =? sep)%char && (r' =? EmptyString)%string then EmptyString
      else String c r'
  end.

(** [os.path.dirname(p)]. *)
Definition os_path_dirname (p : string) : string :=
  let head := upto_last_sep p in
  if negb (head =? EmptyString)%string && negb (all_sep head) then rstrip_sep head
  else head.

(** ** The file store *)

(** Regular files with their text, and the directories that exist.  Paths
    are compared as written; the empty directory name stands for the
    working directory. *)
Record filesystem : Type :=
  Filesystem { files : gmap string string; dirs : gset string }.

Definition byte_in (lo hi : nat) (c : ascii) : bool :=
  let n := nat_of_ascii c in (lo <=? n)%nat && (n <=? hi)%nat.

(** Well-formed UTF-8: no stray or missing continuation byte, no overlong
    form, no surrogate, nothing beyond [U+10FFFF]. *)
Fixpoint utf8_valid (s : string) : bool :=
  match s with
  | EmptyString => true
  | String c0 r0 =>
      if byte_in 0 127 c0 then utf8_valid r0
      else
        match r0 with
        | String c1 r1 =>
            if byte_in 194 223 c0 then byte_in 128 191 c1 && utf8_valid r1
            else
              match r1 with
              | String c2 r2 =>
                  if byte_in 224 239 c0 then
                    (if byte_in 224 224 c0 then byte_in 160 191 c1
                     else if byte_in 237 237 c0 then byte_in 128 159 c1
                     else byte_in 128 191 c1)
                    && byte_in 128 191 c2 && utf8_valid r2
                  else
                    match r2 with
                    | String c3 r3 =>
                        byte_in 240 244 c0
                        && (if byte_in 240 240 c0 then byte_in 144 191 c1
                            else if byte_in 244 244 c0 then byte_in 128 143 c1
                            else byte_in 128 191 c1)
                        && byte_in 128 191 c2 && byte_in 128 191 c3
                        && utf8_valid r3
                    | EmptyString => false
                    end
              | EmptyString => false
              end
        | EmptyString => false
        end
  end.

(** [open(path, "r")] followed by reading the whole file: the bytes of the
    file are decoded as UTF-8, the default encoding, and the text is kept
    in UTF-8.  The translation of line ends in text mode is left out: the
    only reader of the text is [json.load], for which a carriage return
    and a line feed are the same white space between tokens and the same
    error inside a string. *)
Definition read_file (fs : filesystem) (path : string) : result string :=
  if bool_decide (path ∈ dirs fs) then Raise IsADirectoryError
  else
    match files fs !! path with
    | Some bytes =>
        if utf8_valid bytes then Ok bytes else Raise UnicodeDecodeError
    | None => Raise FileNotFoundError
    end.

(** [open(path, "w")]: the directory of the file must exist and the path
    must not name a directory; the file is created, or emptied. *)
Definition open_write (fs : filesystem) (path : string) : result filesystem :=
  let parent := os_path_dirname path in
  if bool_decide (path ∈ dirs fs) then Raise IsADirectoryError
  else if negb (parent =? EmptyString)%string && negb (bool_decide (parent ∈ dirs fs))
  then Raise FileNotFoundError
  else Ok (Filesystem (<[path := EmptyString]> (files fs)) (dirs fs)).

(** The file opened at [path] once [text] is written to it and it is
    closed. *)
Definition write_text (fs : filesystem) (path text : string) : filesystem :=
  Filesystem (<[path := text]> (files fs)) (dirs fs).

(** [open(path, "w")] followed by writing [text]. *)
Definition write_file (fs : filesystem) (path text : string) : result filesystem :=
  fs ← open_write fs path; Ok (write_text fs path text).

(* ===================================================================== *)
(** * [bnn_optimization/utils.py] *)
(* ===================================================================== *)

Module utils.

(** [try: ... except: return 0]: every exception of the body is caught. *)
Definition get_current_epoch (fs : filesystem) (output_dir : string) : json :=
  match
    text ← read_file fs (os_path_join output_dir "stats.json");
    doc ← Json.loads text;
    Json.getitem doc "epoch"
  with
  | Ok epoch => epoch
  | Raise _ => JInt 0
  end.

Record ModelCheckpoint : Type := { filepath : string }.

Section Callback.
(** [tf.keras.callbacks.ModelCheckpoint.on_epoch_end], the method of the
    parent class: it saves the model, or raises. *)
Variable super_on_epoch_end :
  ModelCheckpoint -> Z -> filesystem -> result filesystem.

(** The file is opened before the document is produced, so that a failure
    of [json.dump] comes after the failures of [open]. *)
Definition on_epoch_end (self : ModelCheckpoint) (epoch : Z)
    (fs : filesystem) : result filesystem :=
  fs ← super_on_epoch_end self epoch fs;
  let path := os_path_join (os_path_dirname (filepath self)) "stats.json" in
  fs ← open_write fs path;
  text ← Json.dumps [("epoch"%string, epoch + 1)];
  Ok (write_text fs path text).
End Callback.

End utils.

(* ===================================================================== *)
(** * Vocabulary of the statements and example inputs *)
(* ===================================================================== *)

(** The element at [(i, j, k)] of [out] is the element at
    [(top + i, left + j, k)] of [image]: [out] is the window of [image]
    whose corner is [(top, left)], not mirrored. *)
Definition window_of (image out : tensor) (top left : Z) : Prop :=
  forall i j k : nat,
    Forall2 (fun i d => (i < d)%nat) [i; j; k] (shape out) ->
    get out [i; j; k]
    = get image [(Z.to_nat top + i)%nat; (Z.to_nat left + j)%nat; k].

(** A generator whose next two words are [a] and [b]. *)
Definition rng_of_words (a b : Z) : rng :=
  Rng (fun n => match n with O => a | _ => b end) 0.

(** An image whose value at [(i, j, k)] is [100 i + 10 j + k]. *)
Definition example_image (h w c : nat) : tensor :=
  tensor_init [h; w; c]
    (fun idx =>
       match idx with
       | [i; j; k] => tf_cast_float32 (Z.of_nat (100 * i + 10 * j + k))
       | _ => Finite 0
       end).

Definition example_rng : rng := Rng (fun n => 12345 * Z.of_nat n + 7) 0.

(** A black image of 100 by 100 pixels. *)
Definition black_100x100 : tensor := tensor_init [100; 100; 3]%nat (fun _ => Finite 0).

(** One pixel with the channel values 2, 4 and 6; one with 1, 0 and 3. *)
Definition pixel_2_4_6 : tensor := Tensor [1; 1; 3]%nat [Finite 2; Finite 4; Finite 6].
Definition pixel_1_0_3 : tensor := Tensor [1; 1; 3]%nat [Finite 1; Finite 0; Finite 3].

(** The output of the evaluation pipeline on a 2 by 3 image, resized to a
    smallest side of 3 and cropped to 2 by 2. *)
Definition example_output : tensor :=
  match fst (imagenet.preprocess_image (example_image 2 3 3) 2 2 false 3 5 example_rng) with
  | Ok out => out
  | Raise _ => Tensor [] []
  end.

(** The 2 by 3 image resized to a smallest side of 3, and its central
    crop with the sizes [-1] and 2: all rows from the crop offset on. *)
Definition example_resized : tensor :=
  match imagenet._aspect_preserving_resize (example_image 2 3 3) 3 with
  | Ok resized => resized
  | Raise _ => Tensor [] []
  end.

Definition example_open_crop : tensor :=
  match imagenet._central_crop example_resized (-1) 2 with
  | Ok cropped => cropped
  | Raise _ => Tensor [] []
  end.

(** A parent-class method that stores the weights under [filepath]. *)
Definition save_weights (self : utils.ModelCheckpoint) (epoch : Z)
    (fs : filesystem) : result filesystem :=
  write_file fs (utils.filepath self) "weights".

(** A store with the directory [out] and nothing in it, and the same store
    with a [stats.json] that holds a list, or text that is not JSON. *)
Definition empty_out : filesystem := Filesystem ∅ {["out"%string]}.

Definition stats_without_epoch : filesystem :=
  Filesystem {["out/stats.json"%string := "[1, 2]"%string]} {["out"%string]}.

Definition stats_not_json : filesystem :=
  Filesystem {["out/stats.json"%string := "{epoch: 3"%string]} {["out"%string]}.

Definition example_checkpoint : utils.ModelCheckpoint :=
  {| utils.filepath := "out/weights.h5" |}.

(** The file store after [on_epoch_end] for epoch 4 on [empty_out]. *)
Definition store_after_epoch_4 : filesystem :=
  match utils.on_epoch_end save_weights example_checkpoint 4 empty_out with
  | Ok fs => fs
  | Raise _ => empty_out
  end.

(** The text that follows the key in the document [on_epoch_end] writes. *)
Definition number_text (n : Z) : string := (Json.string_of_Z n ++ "}")%string.

(** The document [on_epoch_end] writes when [n] epochs are completed. *)
Definition epoch_document (n : Z) : string :=
  ("{" ++ Json.quote ++ "epoch" ++ Json.quote ++ ": " ++ Json.string_of_Z n ++ "}")%string.

(** The element at [(i, j, k)] of [out] is the element of [image] at row
    [top + i] and at the column that mirrors [j] inside the window of the
    width of [out] whose corner is [(top, left)]: [out] is that window,
    flipped left to right. *)
Definition mirrored_window_of (image out : tensor) (top left : Z) : Prop :=
  forall i j k : nat,
    Forall2 (fun i d => (i < d)%nat) [i; j; k] (shape out) ->
    get out [i; j; k]
    = get image [(Z.to_nat top + i)%nat;
                 (Z.to_nat left + (nth 1 (shape out) 0%nat - 1 - j))%nat; k].

(** A generator whose next words are [a], [b] and then [c] for ever. *)
Definition rng_of_three (a b c : Z) : rng :=
  Rng (fun n => match n with O => a | S O => b | _ => c end) 0.

Import imagenet utils.

(* ===================================================================== *)
(** * Steps of fallible and random computations *)
(* ===================================================================== *)

(** One step of a computation whose first action has already returned. *)
Ltac rand_ok :=
  lazymatch goal with
  | |- context [@mbind rand rand_bind ?A ?B ?k (lift (Ok ?a)) ?g] =>
      change (@mbind rand rand_bind A B k (lift (Ok a)) g) with (k a g);
      cbv beta iota
  end.

Lemma rand_bind_ok {A B : Type} (m : rand A) (k : A -> rand B) (g g' : rng) (a : A) :
  m g = (Ok a, g') -> (m ≫= k) g = k a g'.
Proof. intros H. unfold mbind, rand_bind. now rewrite H. Qed.

Lemma rand_bind_raise {A B : Type} (m : rand A) (k : A -> rand B) (g g' : rng) (e : exn) :
  m g = (Raise e, g') -> (m ≫= k) g = (Raise e, g').
Proof. intros H. unfold mbind, rand_bind. now rewrite H. Qed.

Lemma rand_bind_inv {A B : Type} (m : rand A) (k : A -> rand B) (g g' : rng) (b : B) :
  (m ≫= k) g = (Ok b, g') ->
  exists a g1, m g = (Ok a, g1) /\ k a g1 = (Ok b, g').
Proof.
  unfold mbind, rand_bind. destruct (m g) as [[a | e] g1]; [eauto | discriminate].
Qed.

Lemma lift_inv {A : Type} (r : result A) (g g' : rng) (a : A) :
  lift r g = (Ok a, g') -> r = Ok a /\ g' = g.
Proof. unfold lift. now intros [= -> ->]. Qed.

(* ===================================================================== *)
(** * Facts about tensors and int32 scalars *)
(* ===================================================================== *)

Section TensorFacts.

Lemma ravel_unravel (s idx : list nat) :
  Forall2 (fun i d => (i < d)%nat) idx s ->
  (ravel s idx < numel s)%nat /\ unravel s (ravel s idx) = idx.
Proof.
  induction 1 as [| i d idx' s' Hi _ [IHlt IHeq]]; cbn [ravel unravel numel fold_right].
  - split; [lia | reflexivity].
  - fold (numel s'). set (N := numel s') in *.
    assert (HN : (0 < N)%nat) by lia.
    split; [nia |].
    rewrite Nat.div_add_l, Nat.div_small, Nat.add_0_r by lia.
    rewrite Nat.add_comm, Nat.Div0.mod_add, Nat.mod_small by lia.
    now rewrite IHeq.
Qed.

Lemma get_tensor_init (s : list nat) (f : list nat -> f32) (idx : list nat) :
  Forall2 (fun i d => (i < d)%nat) idx s ->
  get (tensor_init s f) idx = f idx.
Proof.
  intros H. destruct (ravel_unravel s idx H) as [Hlt Heq].
  unfold get, tensor_init; cbn [shape data].
  rewrite (nth_indep _ _ (f (unravel s 0))) by (now rewrite length_map, length_seq).
  rewrite (map_nth (fun n => f (unravel s n))), seq_nth by assumption.
  cbn. now rewrite Heq.
Qed.

Lemma length_tensor_init (s : list nat) (f : list nat -> f32) :
  length (data (tensor_init s f)) = numel s.
Proof. unfold tensor_init; cbn. now rewrite length_map, length_seq. Qed.

Lemma index3_in_range (i j k h w c : nat) :
  (i < h)%nat -> (j < w)%nat -> (k < c)%nat ->
  Forall2 (fun i d => (i < d)%nat) [i; j; k] [h; w; c].
Proof. intros; repeat constructor; assumption. Qed.

Lemma tensor_wf_dims (t : tensor) :
  tensor_wf t -> Forall (fun d => Z.of_nat d < 2147483648) (shape t).
Proof.
  unfold tensor_wf, tensor_wfb. intros H.
  apply andb_prop in H as [_ H]. rewrite forallb_forall in H.
  apply List.Forall_forall. intros d Hd. specialize (H d Hd).
  change (2 ^ 31) with 2147483648 in H. lia.
Qed.

Lemma tensor_wf_dims3 (t : tensor) (H W C : nat) :
  tensor_wf t -> shape t = [H; W; C] ->
  Z.of_nat H < 2147483648 /\ Z.of_nat W < 2147483648 /\ Z.of_nat C < 2147483648.
Proof.
  intros Hwf Hs. apply tensor_wf_dims in Hwf. rewrite Hs in Hwf.
  inversion Hwf as [| ? ? H1 Hwf1]; subst. inversion Hwf1 as [| ? ? H2 Hwf2]; subst.
  inversion Hwf2; subst. auto.
Qed.

Lemma tensor_wf_length (t : tensor) : tensor_wf t -> length (data t) = numel (shape t).
Proof.
  unfold tensor_wf, tensor_wfb. intros H. apply andb_prop in H as [H _].
  now apply Nat.eqb_eq in H.
Qed.

Lemma tf_shape_to_nat (t : tensor) : map Z.to_nat (tf_shape t) = shape t.
Proof.
  unfold tf_shape. rewrite map_map. rewrite <- (map_id (shape t)) at 2.
  apply map_ext. intros. apply Nat2Z.id.
Qed.

End TensorFacts.

Section Int32Facts.

Lemma wrap32_small (z : Z) : in_int32 z = true -> wrap32 z = z.
Proof.
  unfold in_int32, int32_min, int32_max, wrap32.
  change (2 ^ 31) with 2147483648. change (2 ^ 32) with 4294967296.
  intros H. rewrite Z.mod_small; lia.
Qed.

Lemma in_int32_iff (z : Z) : in_int32 z = true <-> - 2147483648 <= z <= 2147483647.
Proof.
  unfold in_int32, int32_min, int32_max. change (2 ^ 31) with 2147483648. lia.
Qed.

Lemma wrap32_in_int32 z : in_int32 (wrap32 z) = true.
Proof.
  apply in_int32_iff. unfold wrap32.
  change (2 ^ 31) with 2147483648. change (2 ^ 32) with 4294967296.
  pose proof (Z.mod_pos_bound (z + 2147483648) 4294967296). lia.
Qed.

Lemma in_int32_int64 (z : Z) : in_int32 z = true -> in_int64 z = true.
Proof.
  rewrite in_int32_iff. unfold in_int64, int64_min, int64_max.
  change (2 ^ 63) with 9223372036854775808. lia.
Qed.

Lemma convert_int32_ok (z : Z) : in_int32 z = true -> convert_int32 z = Ok z.
Proof.
  intros H. unfold convert_int32. now rewrite (in_int32_int64 z H), wrap32_small.
Qed.

Lemma mapM_convert_int32_ok (l : list Z) :
  Forall (fun z => in_int32 z = true) l -> mapM convert_int32 l = Ok l.
Proof.
  induction 1 as [| z l Hz _ IH]; [reflexivity |].
  cbn [mapM]. rewrite (convert_int32_ok z Hz). cbn [mbind result_bind].
  fold (mapM convert_int32 l). rewrite IH. reflexivity.
Qed.

Lemma length_mapM_convert_int32 (l l' : list Z) :
  mapM convert_int32 l = Ok l' -> length l' = length l.
Proof.
  revert l'. induction l as [| z l IH]; intros l'; cbn [mapM].
  - now intros [= <-].
  - destruct (convert_int32 z) as [z' | e]; cbn [mbind result_bind]; [| discriminate].
    fold (mapM convert_int32 l).
    destruct (mapM convert_int32 l) as [k | e]; cbn [mbind result_bind]; [| discriminate].
    intros [= <-]. cbn [length]. now rewrite (IH k).
Qed.

Lemma tf_slice_int32 (t : tensor) (begin size : list Z) :
  Forall (fun z => in_int32 z = true) begin ->
  Forall (fun z => in_int32 z = true) size ->
  tf_slice t begin size = slice_kernel t begin size.
Proof.
  intros Hb Hs. unfold tf_slice.
  now rewrite (mapM_convert_int32_ok begin Hb), (mapM_convert_int32_ok size Hs).
Qed.

Lemma tf_sub_small (x y : Z) :
  in_int32 y = true -> in_int32 (x - y) = true -> tf_sub x y = Ok (x - y).
Proof.
  intros Hy Hxy. unfold tf_sub. rewrite convert_int32_ok by assumption.
  cbn [mbind result_bind]. now rewrite wrap32_small.
Qed.

Lemma tf_add_small (x y : Z) :
  in_int32 y = true -> in_int32 (x + y) = true -> tf_add x y = Ok (x + y).
Proof.
  intros Hy Hxy. unfold tf_add. rewrite convert_int32_ok by assumption.
  cbn [mbind result_bind]. now rewrite wrap32_small.
Qed.

Lemma tf_floordiv_2 (x : Z) : in_int32 x = true -> tf_floordiv x 2 = Ok (x / 2).
Proof.
  intros Hx. unfold tf_floordiv. change (convert_int32 2) with (Ok (A:=Z) 2).
  cbn [mbind result_bind]. change (2 =? 0) with false. cbv iota.
  rewrite wrap32_small; [reflexivity |].
  apply in_int32_iff. apply in_int32_iff in Hx.
  pose proof (Z.div_mod x 2 ltac:(lia)). pose proof (Z.mod_pos_bound x 2 ltac:(lia)). lia.
Qed.

Lemma tf_sub_int32 (x y : Z) : in_int32 y = true -> tf_sub x y = Ok (wrap32 (x - y)).
Proof. intros Hy. unfold tf_sub. now rewrite convert_int32_ok. Qed.

Lemma tf_add_1 (x : Z) : tf_add x 1 = Ok (wrap32 (x + 1)).
Proof. reflexivity. Qed.

End Int32Facts.

(* ===================================================================== *)
(** * The croppers *)
(* ===================================================================== *)

Lemma get_h_w_shape3 (image : tensor) (H W C : nat) :
  shape image = [H; W; C] -> _get_h_w image = Ok (Z.of_nat H, Z.of_nat W).
Proof. intros Hs. unfold _get_h_w, tf_shape. now rewrite Hs. Qed.

Lemma tf_slice_window (image : tensor) (H W C : nat) (top left h w : Z) :
  shape image = [H; W; C] ->
  Z.of_nat H < 2147483648 -> Z.of_nat W < 2147483648 ->
  0 <= top -> 0 <= left -> 0 <= h -> 0 <= w ->
  top + h <= Z.of_nat H -> left + w <= Z.of_nat W ->
  exists out,
    tf_slice image [top; left; 0] [h; w; -1] = Ok out
    /\ shape out = [Z.to_nat h; Z.to_nat w; C]
    /\ window_of image out top left.
Proof.
  intros Hs BH BW Ht Hl Hh Hw Hth Hlw.
  rewrite tf_slice_int32 by (repeat constructor; apply in_int32_iff; lia).
  unfold slice_kernel. rewrite Hs. cbn [length Nat.eqb andb negb].
  cbn [slice_sizes slice_ok].
  assert (Eh : slice_size H top h = h) by (unfold slice_size; destruct (Z.eqb_spec h (-1)); lia).
  assert (Ew : slice_size W left w = w) by (unfold slice_size; destruct (Z.eqb_spec w (-1)); lia).
  assert (Ec : slice_size C 0 (-1) = Z.of_nat C) by (unfold slice_size; cbn; lia).
  rewrite Eh, Ew, Ec.
  assert (O0 : slice_dim_ok H top h = true).
  { unfold slice_dim_ok. destruct (Nat.eqb_spec H 0); lia. }
  assert (O1 : slice_dim_ok W left w = true).
  { unfold slice_dim_ok. destruct (Nat.eqb_spec W 0); lia. }
  assert (O2 : slice_dim_ok C 0 (Z.of_nat C) = true).
  { unfold slice_dim_ok. destruct (Nat.eqb_spec C 0); lia. }
  rewrite O0, O1, O2. cbn [andb map].
  rewrite Nat2Z.id.
  eexists; split; [reflexivity |]. split; [reflexivity |].
  intros i j k Hidx. cbn [shape tensor_init] in Hidx.
  rewrite get_tensor_init by assumption. reflexivity.
Qed.

Lemma slice_dim_too_large (d : nat) (b s : Z) :
  Z.of_nat d < s -> slice_dim_ok d b (slice_size d b s) = false.
Proof.
  intros Hs.
  assert (E : slice_size d b s = s) by (unfold slice_size; destruct (Z.eqb_spec s (-1)); lia).
  rewrite E. unfold slice_dim_ok. destruct (Nat.eqb_spec d 0); lia.
Qed.

Lemma tf_slice_too_large (image : tensor) (H W C : nat) (top left h w : Z) :
  shape image = [H; W; C] ->
  in_int32 top = true -> in_int32 left = true ->
  in_int32 h = true -> in_int32 w = true ->
  Z.of_nat H < h \/ Z.of_nat W < w ->
  tf_slice image [top; left; 0] [h; w; -1] = Raise (InvalidArgumentError "Slice").
Proof.
  intros Hs It Il Ih Iw Hlarge.
  rewrite tf_slice_int32 by (repeat constructor; assumption).
  unfold slice_kernel. rewrite Hs. cbn [length Nat.eqb andb negb].
  cbn [slice_sizes slice_ok].
  destruct Hlarge as [Hl | Hl].
  - now rewrite (slice_dim_too_large H top h Hl).
  - rewrite (slice_dim_too_large W left w Hl).
    now destruct (slice_dim_ok H top (slice_size H top h)).
Qed.

Lemma in_int32_half (x : Z) : in_int32 x = true -> in_int32 (x / 2) = true.
Proof.
  rewrite !in_int32_iff. intros Hx.
  pose proof (Z.div_mod x 2 ltac:(lia)). pose proof (Z.mod_pos_bound x 2 ltac:(lia)). lia.
Qed.

Lemma tf_random_uniform_draw (maxval : Z) (g : rng) :
  0 < maxval -> in_int32 maxval = true ->
  tf_random_uniform 0 maxval g =
    (Ok ((bits g (pos g) mod 2 ^ 32) mod maxval), Rng (bits g) (S (pos g))).
Proof.
  intros Hpos Hin. unfold tf_random_uniform.
  change (convert_int32 0) with (Ok (A:=Z) 0). rewrite convert_int32_ok by assumption.
  do 2 rand_ok.
  destruct (Z.ltb_spec 0 maxval); [| lia].
  unfold mbind, rand_bind, next_uint32, mret, rand_ret.
  now rewrite Z.add_0_l, Z.sub_0_r.
Qed.

Lemma tf_random_uniform_empty (maxval : Z) (g : rng) :
  maxval <= 0 -> in_int32 maxval = true ->
  tf_random_uniform 0 maxval g = (Raise (InvalidArgumentError "RandomUniformInt"), g).
Proof.
  intros Hneg Hin. unfold tf_random_uniform.
  change (convert_int32 0) with (Ok (A:=Z) 0). rewrite convert_int32_ok by assumption.
  do 2 rand_ok.
  destruct (Z.ltb_spec 0 maxval); [lia | reflexivity].
Qed.


(** ** Central crop *)

(** Claim C6.  For an image of size [H x W] and a target size [h x w] with
    [0 <= h <= H] and [0 <= w <= W], the central crop returns, without
    consulting the random source, an image of shape [(h, w, channels)]
    that is the window with corner [top = floor ((H - h) / 2)] and
    [left = floor ((W - w) / 2)], not mirrored. *)
Theorem central_crop_window (image : tensor) (H W C : nat) (h w : Z) :
  tensor_wf image -> shape image = [H; W; C] ->
  0 <= h <= Z.of_nat H -> 0 <= w <= Z.of_nat W ->
  exists out,
    _central_crop image h w = Ok out
    /\ shape out = [Z.to_nat h; Z.to_nat w; C]
    /\ window_of image out ((Z.of_nat H - h) / 2) ((Z.of_nat W - w) / 2).
Proof.
  intros Hwf Hs Hh Hw.
  destruct (tensor_wf_dims3 image H W C Hwf Hs) as (BH & BW & _).
  assert (Dh : 0 <= (Z.of_nat H - h) / 2 <= Z.of_nat H - h).
  { pose proof (Z.div_mod (Z.of_nat H - h) 2 ltac:(lia)).
    pose proof (Z.mod_pos_bound (Z.of_nat H - h) 2 ltac:(lia)). lia. }
  assert (Dw : 0 <= (Z.of_nat W - w) / 2 <= Z.of_nat W - w).
  { pose proof (Z.div_mod (Z.of_nat W - w) 2 ltac:(lia)).
    pose proof (Z.mod_pos_bound (Z.of_nat W - w) 2 ltac:(lia)). lia. }
  unfold _central_crop. rewrite (get_h_w_shape3 image H W C Hs). cbn [mbind result_bind].
  rewrite tf_sub_small by (apply in_int32_iff; lia). cbn [mbind result_bind].
  rewrite tf_floordiv_2 by (apply in_int32_iff; lia). cbn [mbind result_bind].
  rewrite tf_sub_small by (apply in_int32_iff; lia). cbn [mbind result_bind].
  rewrite tf_floordiv_2 by (apply in_int32_iff; lia). cbn [mbind result_bind].
  apply (tf_slice_window image H W C); lia || assumption.
Qed.

Lemma central_crop_window_witness :
  exists out,
    _central_crop (example_image 4 5 2) 2 3 = Ok out
    /\ shape out = [Z.to_nat 2; Z.to_nat 3; 2%nat]
    /\ window_of (example_image 4 5 2) out ((Z.of_nat 4 - 2) / 2) ((Z.of_nat 5 - 3) / 2).
Proof.
  apply (central_crop_window (example_image 4 5 2) 4 5 2 2 3);
    [reflexivity | reflexivity | cbn; lia | cbn; lia].
Defined.

(** ** Random crop *)

(** Claim C7.  For an image of size [H x W] with [0 < crop_height <= H]
    and [0 < crop_width <= W], and for every state of the random source,
    the random crop draws [crop_top] in [[0, H - crop_height]] and
    [crop_left] in [[0, W - crop_width]], extracts the window with that
    corner, which lies inside the image, and hands it to the random flip;
    every pair of offsets in those ranges is drawn for some state of the
    source. *)
Theorem random_crop_window (image : tensor) (H W C : nat) (crop_height crop_width : Z) :
  tensor_wf image -> shape image = [H; W; C] ->
  0 < crop_height <= Z.of_nat H -> 0 < crop_width <= Z.of_nat W ->
  (forall g : rng,
     exists (crop_top crop_left : Z) (g1 g2 : rng) (cropped : tensor),
       tf_random_uniform 0 (Z.of_nat H - crop_height + 1) g = (Ok crop_top, g1)
       /\ tf_random_uniform 0 (Z.of_nat W - crop_width + 1) g1 = (Ok crop_left, g2)
       /\ 0 <= crop_top <= Z.of_nat H - crop_height
       /\ 0 <= crop_left <= Z.of_nat W - crop_width
       /\ tf_slice image [crop_top; crop_left; 0] [crop_height; crop_width; -1]
          = Ok cropped
       /\ shape cropped = [Z.to_nat crop_height; Z.to_nat crop_width; C]
       /\ window_of image cropped crop_top crop_left
       /\ _random_crop_and_flip image crop_height crop_width g
          = tf_image_random_flip_left_right cropped g2)
  /\ (forall top left : Z,
        0 <= top <= Z.of_nat H - crop_height ->
        0 <= left <= Z.of_nat W - crop_width ->
        exists g g1 g2 : rng,
          tf_random_uniform 0 (Z.of_nat H - crop_height + 1) g = (Ok top, g1)
          /\ tf_random_uniform 0 (Z.of_nat W - crop_width + 1) g1 = (Ok left, g2)).
Proof.
  intros Hwf Hs Hh Hw.
  destruct (tensor_wf_dims3 image H W C Hwf Hs) as (BH & BW & _).
  split.
  - intros g.
    set (mh := Z.of_nat H - crop_height + 1). set (mw := Z.of_nat W - crop_width + 1).
    assert (Imh : in_int32 mh = true) by (apply in_int32_iff; lia).
    assert (Imw : in_int32 mw = true) by (apply in_int32_iff; lia).
    pose proof (tf_random_uniform_draw mh g ltac:(lia) Imh) as D1.
    set (g1 := Rng (bits g) (S (pos g))) in *.
    pose proof (tf_random_uniform_draw mw g1 ltac:(lia) Imw) as D2.
    set (g2 := Rng (bits g1) (S (pos g1))) in *.
    set (crop_top := (bits g (pos g) mod 2 ^ 32) mod mh) in *.
    set (crop_left := (bits g1 (pos g1) mod 2 ^ 32) mod mw) in *.
    assert (Rt : 0 <= crop_top < mh) by (apply Z.mod_pos_bound; lia).
    assert (Rl : 0 <= crop_left < mw) by (apply Z.mod_pos_bound; lia).
    destruct (tf_slice_window image H W C crop_top crop_left crop_height crop_width)
      as (cropped & Hslice & Hshape & Hwin); try lia; try assumption.
    exists crop_top, crop_left, g1, g2, cropped.
    repeat (split; [first [assumption | lia] |]).
    unfold _random_crop_and_flip.
    rewrite (get_h_w_shape3 image H W C Hs). rand_ok.
    rewrite (tf_sub_small (Z.of_nat H)) by (apply in_int32_iff; lia). rand_ok.
    rewrite (tf_add_small (Z.of_nat H - crop_height)) by (apply in_int32_iff; lia). rand_ok.
    rewrite (rand_bind_ok _ _ _ _ _ D1).
    rewrite (tf_sub_small (Z.of_nat W)) by (apply in_int32_iff; lia). rand_ok.
    rewrite (tf_add_small (Z.of_nat W - crop_width)) by (apply in_int32_iff; lia). rand_ok.
    rewrite (rand_bind_ok _ _ _ _ _ D2).
    rewrite Hslice. rand_ok. reflexivity.
  - intros top left Ht Hl.
    exists (rng_of_words top left), (Rng (bits (rng_of_words top left)) 1),
           (Rng (bits (rng_of_words top left)) 2).
    rewrite !tf_random_uniform_draw by (try apply in_int32_iff; lia).
    cbn [bits pos rng_of_words].
    change (2 ^ 32) with 4294967296.
    rewrite !(Z.mod_small _ 4294967296) by lia.
    rewrite !Z.mod_small by lia. split; reflexivity.
Qed.

Lemma random_crop_window_witness :
  (exists (crop_top crop_left : Z) (g1 g2 : rng) (cropped : tensor),
     tf_random_uniform 0 (Z.of_nat 4 - 2 + 1) example_rng = (Ok crop_top, g1)
     /\ tf_random_uniform 0 (Z.of_nat 5 - 3 + 1) g1 = (Ok crop_left, g2)
     /\ 0 <= crop_top <= Z.of_nat 4 - 2
     /\ 0 <= crop_left <= Z.of_nat 5 - 3
     /\ tf_slice (example_image 4 5 2) [crop_top; crop_left; 0] [2; 3; -1] = Ok cropped
     /\ shape cropped = [Z.to_nat 2; Z.to_nat 3; 2%nat]
     /\ window_of (example_image 4 5 2) cropped crop_top crop_left
     /\ _random_crop_and_flip (example_image 4 5 2) 2 3 example_rng
        = tf_image_random_flip_left_right cropped g2)
  /\ (exists g g1 g2 : rng,
        tf_random_uniform 0 (Z.of_nat 4 - 2 + 1) g = (Ok 2, g1)
        /\ tf_random_uniform 0 (Z.of_nat 5 - 3 + 1) g1 = (Ok 0, g2)).
Proof.
  destruct (random_crop_window (example_image 4 5 2) 4 5 2 2 3
              eq_refl eq_refl ltac:(cbn; lia) ltac:(cbn; lia)) as [Hdraw Hreach].
  split.
  - apply (Hdraw example_rng).
  - apply (Hreach 2 0); cbn; lia.
Defined.

(** ** Crops larger than the image *)

(** Against claim C1 as stated, on its own scenario: cropping a 100 by
    100 image to 224 by 224.  Both croppers fail, but neither raises an
    error of its own: the central crop is rejected by the bounds check of
    [tf.slice] and the random crop by the range check of
    [tf.random.uniform]. *)
Lemma crop_100_to_224_fails_inside_tensorflow :
  _central_crop black_100x100 224 224 = Raise (InvalidArgumentError "Slice")
  /\ (forall g : rng,
        _random_crop_and_flip black_100x100 224 224 g
        = (Raise (InvalidArgumentError "RandomUniformInt"), g))
  /\ (forall msg : string,
        _central_crop black_100x100 224 224 <> Raise (ValueError msg)).
Proof.
  split; [reflexivity |]. split; [intros g; reflexivity |].
  intros msg. discriminate.
Qed.

(** Claim C1, as the code has it.  For crop sizes that are int32 values
    and every image whose height is below [crop_height] or whose width is
    below [crop_width], both croppers fail.  There is no check in the
    croppers themselves: the central crop fails in the bounds check of
    [tf.slice] and the random crop fails in the range check of
    [tf.random.uniform], both with TensorFlow's [InvalidArgumentError].
    (A Python int beyond int32 is reduced modulo [2 ^ 32] first, so that a
    crop size of [2 ^ 32 + 2] behaves as 2.) *)
Theorem crop_larger_than_image (image : tensor) (H W C : nat) (crop_height crop_width : Z) :
  tensor_wf image -> shape image = [H; W; C] ->
  in_int32 crop_height = true -> in_int32 crop_width = true ->
  Z.of_nat H < crop_height \/ Z.of_nat W < crop_width ->
  _central_crop image crop_height crop_width = Raise (InvalidArgumentError "Slice")
  /\ (forall g : rng, exists g',
        _random_crop_and_flip image crop_height crop_width g
        = (Raise (InvalidArgumentError "RandomUniformInt"), g')).
Proof.
  intros Hwf Hs Ih Iw Hlarge.
  destruct (tensor_wf_dims3 image H W C Hwf Hs) as (BH & BW & _).
  split.
  - unfold _central_crop. rewrite (get_h_w_shape3 image H W C Hs). cbn [mbind result_bind].
    rewrite (tf_sub_int32 _ _ Ih). cbn [mbind result_bind].
    rewrite tf_floordiv_2 by apply wrap32_in_int32. cbn [mbind result_bind].
    rewrite (tf_sub_int32 _ _ Iw). cbn [mbind result_bind].
    rewrite tf_floordiv_2 by apply wrap32_in_int32. cbn [mbind result_bind].
    apply (tf_slice_too_large image H W C); try assumption;
      apply in_int32_half, wrap32_in_int32.
  - intros g. unfold _random_crop_and_flip.
    rewrite (get_h_w_shape3 image H W C Hs). rand_ok.
    rewrite (tf_sub_int32 _ _ Ih). rand_ok.
    rewrite tf_add_1. rand_ok.
    set (mh := wrap32 (wrap32 (Z.of_nat H - crop_height) + 1)).
    assert (Imh : in_int32 mh = true) by apply wrap32_in_int32.
    destruct (Z_lt_le_dec 0 mh) as [Hmh | Hmh].
    2:{ rewrite (rand_bind_raise _ _ _ _ _ (tf_random_uniform_empty mh g Hmh Imh)).
        eexists; reflexivity. }
    rewrite (rand_bind_ok _ _ _ _ _ (tf_random_uniform_draw mh g Hmh Imh)).
    rewrite (tf_sub_int32 _ _ Iw). rand_ok.
    rewrite tf_add_1. rand_ok.
    set (mw := wrap32 (wrap32 (Z.of_nat W - crop_width) + 1)).
    assert (Imw : in_int32 mw = true) by apply wrap32_in_int32.
    assert (Hmw : mw <= 0).
    { destruct Hlarge as [Hl | Hl].
      - exfalso. apply in_int32_iff in Ih. subst mh.
        rewrite (wrap32_small (Z.of_nat H - crop_height)) in Hmh by (apply in_int32_iff; lia).
        rewrite wrap32_small in Hmh by (apply in_int32_iff; lia). lia.
      - apply in_int32_iff in Iw. subst mw.
        rewrite (wrap32_small (Z.of_nat W - crop_width)) by (apply in_int32_iff; lia).
        rewrite wrap32_small by (apply in_int32_iff; lia). lia. }
    rewrite (rand_bind_raise _ _ _ _ _ (tf_random_uniform_empty mw _ Hmw Imw)).
    eexists; reflexivity.
Qed.

Lemma crop_larger_than_image_witness :
  _central_crop (example_image 4 5 2) 6 3 = Raise (InvalidArgumentError "Slice")
  /\ (forall g : rng, exists g',
        _random_crop_and_flip (example_image 4 5 2) 6 3 g
        = (Raise (InvalidArgumentError "RandomUniformInt"), g')).
Proof.
  apply (crop_larger_than_image (example_image 4 5 2) 4 5 2 6 3);
    [reflexivity | reflexivity | reflexivity | reflexivity | left; cbn; lia].
Defined.

(* ===================================================================== *)
(** * Normalisation *)
(* ===================================================================== *)

Lemma nth_zip_with {A B C : Type} (op : A -> B -> C) (l1 : list A) (l2 : list B)
    (n : nat) (d1 : A) (d2 : B) (d : C) :
  (n < length l1)%nat -> (n < length l2)%nat ->
  nth n (zip_with op l1 l2) d = op (nth n l1 d1) (nth n l2 d2).
Proof.
  revert l2 n. induction l1 as [| a l1 IH]; intros [| b l2] [| n] H1 H2;
    cbn in *; try lia; [reflexivity |]. apply IH; lia.
Qed.

Lemma get_elementwise (op : f32 -> f32 -> f32) (a b : tensor) (idx : list nat) :
  tensor_wf a -> shape b = shape a -> length (data b) = numel (shape b) ->
  Forall2 (fun i d => (i < d)%nat) idx (shape a) ->
  get (tf_elementwise op a b) idx = op (get a idx) (get b idx).
Proof.
  intros Hwf Hsb Hlb Hidx. unfold get, tf_elementwise; cbn [shape data].
  destruct (ravel_unravel _ _ Hidx) as [Hlt _]. rewrite Hsb.
  apply nth_zip_with.
  - now rewrite (tensor_wf_length a Hwf).
  - now rewrite Hlb, Hsb.
Qed.

Lemma convert_float32_ok (v : list float) :
  existsb float32_overflow v = false -> convert_float32 v = Ok (map (convert binary32) v).
Proof. intros H. unfold convert_float32. now rewrite H. Qed.

Lemma tf_broadcast_to_channels (v : list float) (image : tensor) (H W C : nat) :
  shape image = [H; W; C] -> length v = C -> existsb float32_overflow v = false ->
  exists b,
    tf_broadcast_to v (tf_shape image) = Ok b
    /\ shape b = [H; W; C]
    /\ length (data b) = numel (shape b)
    /\ forall i j k : nat, (i < H)%nat -> (j < W)%nat -> (k < C)%nat ->
         get b [i; j; k] = nth k (map (convert binary32) v) (Finite 0).
Proof.
  intros Hs Hv Hin. unfold tf_broadcast_to.
  rewrite (convert_float32_ok v Hin). cbn [mbind result_bind].
  rewrite tf_shape_to_nat, Hs.
  cbn [rev app]. rewrite length_map, Hv, Nat.eqb_refl. cbn [orb].
  eexists; split; [reflexivity |]. split; [reflexivity |].
  split; [apply length_tensor_init |].
  intros i j k Hi Hj Hk. rewrite get_tensor_init by (now apply index3_in_range).
  cbn [List.last]. destruct (Nat.eqb_spec C 1) as [-> | _]; [| reflexivity].
  now replace k with 0%nat by lia.
Qed.

Lemma tf_broadcast_to_mismatch (v : list float) (image : tensor) (H W C : nat) :
  shape image = [H; W; C] -> length v <> C -> length v <> 1%nat ->
  existsb float32_overflow v = false ->
  tf_broadcast_to v (tf_shape image) = Raise (InvalidArgumentError "BroadcastTo").
Proof.
  intros Hs Hv H1 Hin. unfold tf_broadcast_to.
  rewrite (convert_float32_ok v Hin). cbn [mbind result_bind].
  rewrite tf_shape_to_nat, Hs.
  cbn [rev app]. rewrite length_map.
  destruct (Nat.eqb_spec (length v) C); [contradiction |].
  destruct (Nat.eqb_spec (length v) 1); [contradiction | reflexivity].
Qed.

Lemma tf_broadcast_to_single (x : float) (image : tensor) (H W C : nat) :
  shape image = [H; W; C] -> float32_overflow x = false ->
  exists b,
    tf_broadcast_to [x] (tf_shape image) = Ok b
    /\ shape b = [H; W; C]
    /\ length (data b) = numel (shape b)
    /\ forall i j k : nat, (i < H)%nat -> (j < W)%nat -> (k < C)%nat ->
         get b [i; j; k] = convert binary32 x.
Proof.
  intros Hs Hin. unfold tf_broadcast_to.
  rewrite (convert_float32_ok [x]) by (cbn [existsb]; now rewrite Hin).
  cbn [mbind result_bind]. rewrite tf_shape_to_nat, Hs.
  cbn [rev app length map Nat.eqb]. rewrite orb_true_r.
  eexists; split; [reflexivity |]. split; [reflexivity |].
  split; [apply length_tensor_init |].
  intros i j k Hi Hj Hk. now rewrite get_tensor_init by (now apply index3_in_range).
Qed.

Lemma mean_image_subtraction_channel_mismatch
    (image : tensor) (H W C : nat) (means : list float) :
  shape image = [H; W; C] -> length means <> C ->
  _mean_image_subtraction image means
  = Raise (ValueError "len(means) must match the number of channels").
Proof.
  intros Hs Hlen. unfold _mean_image_subtraction, get_shape, ndims, as_list_last.
  rewrite Hs. cbn [length Nat.eqb negb rev app mbind result_bind].
  destruct (Z.eqb_spec (Z.of_nat (length means)) (Z.of_nat C)); [lia | reflexivity].
Qed.

(** What the two halves of the normaliser do with a statistics vector of
    the wrong length: the mean subtraction checks the length itself; the
    scaling has no check, so a vector of binary32 values of another length
    is rejected by the broadcast unless it has one element, which is
    applied to every channel. *)
Lemma channel_mismatch_behaviour (image : tensor) (H W C : nat) :
  shape image = [H; W; C] ->
  (forall means : list float, length means <> C ->
     _mean_image_subtraction image means
     = Raise (ValueError "len(means) must match the number of channels"))
  /\ (forall stds : list float, length stds <> C -> length stds <> 1%nat ->
        existsb float32_overflow stds = false ->
        _scale_normalization image stds = Raise (InvalidArgumentError "BroadcastTo"))
  /\ (forall std : float, tensor_wf image -> float32_overflow std = false ->
        exists out,
          _scale_normalization image [std] = Ok out
          /\ shape out = [H; W; C]
          /\ forall i j k : nat, (i < H)%nat -> (j < W)%nat -> (k < C)%nat ->
               get out [i; j; k]
               = div binary32 (get image [i; j; k]) (convert binary32 std)).
Proof.
  intros Hs. split; [| split].
  - intros means Hlen. now apply (mean_image_subtraction_channel_mismatch image H W C).
  - intros stds Hlen H1 Hin. unfold _scale_normalization.
    now rewrite (tf_broadcast_to_mismatch stds image H W C).
  - intros std Hwf Hin. unfold _scale_normalization.
    destruct (tf_broadcast_to_single std image H W C Hs Hin) as (b & -> & Hsb & Hlb & Hget).
    cbn [mbind result_bind]. eexists; split; [reflexivity |]. split; [exact Hs |].
    intros i j k Hi Hj Hk. unfold tf_truediv.
    rewrite get_elementwise; try assumption.
    + now rewrite Hget.
    + congruence.
    + rewrite Hs. now apply index3_in_range.
Qed.

(** Claim C2, at the input where the code departs from it.  A one-element
    vector against a three-channel image: the mean subtraction raises
    (the message is that of a channel mismatch), but the scaling, which
    has no such check, divides every channel by the single value; with two
    elements both raise. *)
Theorem scale_normalization_single_std_accepted :
  _mean_image_subtraction pixel_2_4_6 [py_float 2 1]
  = Raise (ValueError "len(means) must match the number of channels")
  /\ _scale_normalization pixel_2_4_6 [py_float 2 1]
     = Ok (Tensor [1; 1; 3]%nat [Finite 1; Finite 2; Finite 3])
  /\ _mean_image_subtraction pixel_2_4_6 [py_float 2 1; py_float 2 1]
     = Raise (ValueError "len(means) must match the number of channels")
  /\ _scale_normalization pixel_2_4_6 [py_float 2 1; py_float 2 1]
     = Raise (InvalidArgumentError "BroadcastTo").
Proof. repeat split; reflexivity. Qed.

(** Against claim C3 as stated: the division is performed on a zero and
    on a negative standard deviation; no error is raised, the zero gives
    an infinity. *)
Lemma scale_normalization_divides_by_zero :
  _scale_normalization pixel_1_0_3 [py_float 0 1; py_float 2 1; py_float (-4) 1]
  = Ok (Tensor [1; 1; 3]%nat [Inf false; Finite 0; Finite (-3 # 4)]).
Proof. reflexivity. Qed.

(** Claim C3, as the code has it.  The scaling does not inspect the sign
    of the standard deviations: for every image with [C] channels and
    every vector of [C] values in the range of binary32 (the only values
    the conversion of the list to a tensor refuses are finite ones beyond
    that range) it returns the image divided channel by channel by the
    binary32 value of each entry, whatever its sign; a zero entry gives an
    infinity or a NaN instead of an error. *)
Theorem scale_normalization_divides
    (image : tensor) (H W C : nat) (stds : list float) :
  tensor_wf image -> shape image = [H; W; C] -> length stds = C ->
  existsb float32_overflow stds = false ->
  exists out,
    _scale_normalization image stds = Ok out
    /\ shape out = [H; W; C]
    /\ forall (i j k : nat) (s : float),
         (i < H)%nat -> (j < W)%nat -> nth_error stds k = Some s ->
         get out [i; j; k] = div binary32 (get image [i; j; k]) (convert binary32 s).
Proof.
  intros Hwf Hs Hlen Hin. unfold _scale_normalization.
  destruct (tf_broadcast_to_channels stds image H W C Hs Hlen Hin)
    as (b & -> & Hsb & Hlb & Hget).
  cbn [mbind result_bind]. eexists; split; [reflexivity |].
  split; [exact Hs |].
  intros i j k s Hi Hj Hk.
  assert (Hk' : (k < C)%nat).
  { rewrite <- Hlen. apply nth_error_Some. congruence. }
  unfold tf_truediv. rewrite get_elementwise; try assumption.
  - rewrite Hget by assumption.
    rewrite (nth_error_nth (map (convert binary32) stds) k (Finite 0)
               (x := convert binary32 s)); [reflexivity |].
    rewrite nth_error_map, Hk. reflexivity.
  - congruence.
  - rewrite Hs. now apply index3_in_range.
Qed.

Lemma scale_normalization_divides_witness :
  exists out,
    _scale_normalization pixel_1_0_3 [py_float 0 1; py_float 2 1; py_float (-4) 1] = Ok out
    /\ shape out = [1; 1; 3]%nat
    /\ forall (i j k : nat) (s : float),
         (i < 1)%nat -> (j < 1)%nat ->
         nth_error [py_float 0 1; py_float 2 1; py_float (-4) 1] k = Some s ->
         get out [i; j; k]
         = div binary32 (get pixel_1_0_3 [i; j; k]) (convert binary32 s).
Proof.
  apply (scale_normalization_divides pixel_1_0_3 1 1 3
           [py_float 0 1; py_float 2 1; py_float (-4) 1]);
    reflexivity.
Defined.

(* ===================================================================== *)
(** * The orchestrator *)
(* ===================================================================== *)

Lemma set_shape_inv (t t' : tensor) (s : list Z) :
  set_shape t s = Ok t' -> t' = t /\ tf_shape t = s.
Proof. unfold set_shape. destruct (decide (tf_shape t = s)); [now intros [= ->] | discriminate]. Qed.

Lemma set_shape_mismatch (t : tensor) (s : list Z) :
  tf_shape t <> s ->
  set_shape t s = Raise (ValueError "Tensor's shape is not compatible with supplied shape").
Proof. intros H. unfold set_shape. now destruct (decide (tf_shape t = s)). Qed.

Lemma mean_image_subtraction_shape (image out : tensor) (means : list float) :
  _mean_image_subtraction image means = Ok out -> shape out = shape image.
Proof.
  unfold _mean_image_subtraction.
  destruct (negb _); [discriminate |].
  destruct (as_list_last _) as [c | e]; cbn [mbind result_bind]; [| discriminate].
  destruct (negb _); [discriminate |].
  destruct (tf_broadcast_to _ _) as [b | e]; cbn [mbind result_bind]; [| discriminate].
  now intros [= <-].
Qed.

Lemma scale_normalization_shape (image out : tensor) (stds : list float) :
  _scale_normalization image stds = Ok out -> shape out = shape image.
Proof.
  unfold _scale_normalization.
  destruct (tf_broadcast_to _ _) as [b | e]; cbn [mbind result_bind]; [| discriminate].
  now intros [= <-].
Qed.

(** Claim C4.  After the crop the orchestrator asserts, with [set_shape],
    that the image has shape [(output_height, output_width, channels)],
    where [channels] is the last dimension of the input, read before any
    transformation.  Hence every tensor the pipeline returns, in either
    mode and for every state of the random source, has exactly that
    shape; and whenever the steps up to the crop succeed and the crop has
    another shape, the pipeline raises the [ValueError] of [set_shape]
    instead of returning, with the random source as the crop left it. *)
Theorem preprocess_image_output_shape
    (image : tensor) (output_height output_width : Z) (is_training : bool)
    (resize_side_min resize_side_max : Z) :
  (forall (g g' : rng) (out : tensor),
     preprocess_image image output_height output_width is_training
       resize_side_min resize_side_max g = (Ok out, g') ->
     exists channels,
       as_list_last (get_shape image) = Ok channels
       /\ tf_shape out = [output_height; output_width; channels])
  /\ (forall (g g1 g2 : rng) (channels resize_side : Z) (resized cropped : tensor),
        as_list_last (get_shape image) = Ok channels ->
        (if is_training then tf_random_uniform resize_side_min (resize_side_max + 1) g
         else (Ok resize_side_min, g)) = (Ok resize_side, g1) ->
        _aspect_preserving_resize image resize_side = Ok resized ->
        (if is_training
         then _random_crop_and_flip resized output_height output_width g1
         else (_central_crop resized output_height output_width, g1))
        = (Ok cropped, g2) ->
        tf_shape cropped <> [output_height; output_width; channels] ->
        exists msg,
          preprocess_image image output_height output_width is_training
            resize_side_min resize_side_max g = (Raise (ValueError msg), g2)).
Proof.
  split.
  - intros g g' out Hrun. unfold preprocess_image in Hrun.
    apply rand_bind_inv in Hrun as ([side crop_fn] & g0 & _ & Hrun).
    apply rand_bind_inv in Hrun as (channels & g1 & Hch & Hrun).
    apply lift_inv in Hch as [Hch ->].
    apply rand_bind_inv in Hrun as (resized & g2 & _ & Hrun).
    apply rand_bind_inv in Hrun as (cropped & g3 & _ & Hrun).
    apply rand_bind_inv in Hrun as (shaped & g4 & Hset & Hrun).
    apply lift_inv in Hset as [Hset ->].
    apply set_shape_inv in Hset as [-> Hshape].
    apply rand_bind_inv in Hrun as (centered & g5 & Hmean & Hrun).
    apply lift_inv in Hmean as [Hmean ->].
    apply lift_inv in Hrun as [Hscale ->].
    apply mean_image_subtraction_shape in Hmean.
    apply scale_normalization_shape in Hscale.
    exists channels. split; [assumption |].
    unfold tf_shape in *. unfold tf_cast_image in Hmean. congruence.
  - intros g g1 g2 channels resize_side resized cropped Hch Hside Hres Hcrop Hne.
    exists "Tensor's shape is not compatible with supplied shape"%string.
    unfold preprocess_image. destruct is_training.
    + rewrite (rand_bind_ok _ _ g g1 (resize_side, _random_crop_and_flip))
        by (now rewrite (rand_bind_ok _ _ _ _ _ Hside)).
      rewrite Hch. rand_ok. rewrite Hres. rand_ok.
      rewrite (rand_bind_ok _ _ _ _ _ Hcrop).
      rewrite (set_shape_mismatch _ _ Hne). reflexivity.
    + injection Hside as <- <-. injection Hcrop as Hcrop <-.
      unfold mbind at 1, rand_bind at 1, mret, rand_ret. cbv beta iota.
      rewrite Hch. rand_ok. rewrite Hres. rand_ok.
      rewrite Hcrop. rand_ok.
      rewrite (set_shape_mismatch _ _ Hne). reflexivity.
Qed.

Lemma preprocess_image_output_shape_witness :
  (exists channels,
     as_list_last (get_shape (example_image 2 3 3)) = Ok channels
     /\ tf_shape example_output = [2; 2; channels])
  /\ (exists msg,
        preprocess_image (example_image 2 3 3) (-1) 2 false 3 5 example_rng
        = (Raise (ValueError msg), example_rng)).
Proof.
  split.
  - destruct (preprocess_image_output_shape (example_image 2 3 3) 2 2 false 3 5)
      as [Hshape _].
    apply (Hshape example_rng example_rng example_output). reflexivity.
  - destruct (preprocess_image_output_shape (example_image 2 3 3) (-1) 2 false 3 5)
      as [_ Hcheck].
    apply (Hcheck example_rng example_rng example_rng 3 3 example_resized example_open_crop);
      [reflexivity | reflexivity | reflexivity | reflexivity | vm_compute; discriminate].
Defined.

(** Claim C8.  In evaluation mode the orchestrator draws nothing from the
    random source and its result is a function of the image, the output
    size and [resize_side_min] alone: the resize side is
    [resize_side_min], [resize_side_max] is ignored, and two calls return
    the same value whatever the state of the random source. *)
Theorem preprocess_image_evaluation_deterministic
    (image : tensor) (output_height output_width resize_side_min : Z) :
  forall (resize_side_max resize_side_max' : Z) (g g' : rng),
    preprocess_image image output_height output_width false
      resize_side_min resize_side_max g
    = (num_channels ← as_list_last (get_shape image);
       resized ← _aspect_preserving_resize image resize_side_min;
       cropped ← _central_crop resized output_height output_width;
       shaped ← set_shape cropped [output_height; output_width; num_channels];
       centered ← _mean_image_subtraction (tf_cast_image shaped)
                    [_R_MEAN; _G_MEAN; _B_MEAN];
       _scale_normalization centered [_R_STD; _G_STD; _B_STD],
       g)
    /\ fst (preprocess_image image output_height output_width false
              resize_side_min resize_side_max g)
       = fst (preprocess_image image output_height output_width false
                resize_side_min resize_side_max' g').
Proof.
  assert (E : forall resize_side_max g,
    preprocess_image image output_height output_width false
      resize_side_min resize_side_max g
    = (num_channels ← as_list_last (get_shape image);
       resized ← _aspect_preserving_resize image resize_side_min;
       cropped ← _central_crop resized output_height output_width;
       shaped ← set_shape cropped [output_height; output_width; num_channels];
       centered ← _mean_image_subtraction (tf_cast_image shaped)
                    [_R_MEAN; _G_MEAN; _B_MEAN];
       _scale_normalization centered [_R_STD; _G_STD; _B_STD],
       g)).
  { intros resize_side_max g. unfold preprocess_image.
    unfold mbind at 1, rand_bind at 1, mret, rand_ret. cbv beta iota.
    destruct (as_list_last (get_shape image)) as [c | e]; [rand_ok | reflexivity].
    destruct (_aspect_preserving_resize image resize_side_min) as [r | e];
      [rand_ok | reflexivity].
    cbn [mbind result_bind].
    destruct (_central_crop r output_height output_width) as [cr | e];
      [rand_ok | reflexivity].
    cbn [mbind result_bind].
    destruct (set_shape cr _) as [sh | e]; [rand_ok | reflexivity].
    cbn [mbind result_bind].
    destruct (_mean_image_subtraction _ _) as [ce | e]; [rand_ok | reflexivity].
    reflexivity. }
  intros resize_side_max resize_side_max' g g'. split; [apply E |].
  now rewrite !E.
Qed.

(* ===================================================================== *)
(** * Binary32 rounding and the geometry calculator *)
(* ===================================================================== *)

Section FloatFacts.
Local Open Scope Q_scope.

Lemma p2_pos (e : Z) : 0 < 2 ^ e.
Proof. apply Qpower_0_lt. reflexivity. Qed.

Lemma p2_add (a b : Z) : 2 ^ (a + b) == 2 ^ a * 2 ^ b.
Proof. apply Qpower_plus. discriminate. Qed.

Lemma p2_sub (a b : Z) : 2 ^ (a - b) == 2 ^ a / 2 ^ b.
Proof. apply Qpower_minus. discriminate. Qed.

Lemma p2_le (a b : Z) : (a <= b)%Z -> 2 ^ a <= 2 ^ b.
Proof. intros H. apply Qpower_le_compat_l; [assumption | discriminate]. Qed.

Lemma p2_lt_inv (a b : Z) : 2 ^ a < 2 ^ b -> (a < b)%Z.
Proof. intros H. apply (Qpower_lt_compat_l_inv 2); [assumption | reflexivity]. Qed.

Lemma p2_Z (n : Z) : (0 <= n)%Z -> 2 ^ n == inject_Z (2 ^ n).
Proof. intros H. symmetry. apply (Zpower_Qpower 2 n H). Qed.

Lemma inject_Z_pos (z : Z) : (0 < z)%Z -> 0 < inject_Z z.
Proof. intros H. change 0 with (inject_Z 0). now rewrite <- Zlt_Qlt. Qed.

Lemma Qabs_pos_eq (x : Q) : 0 < x -> Qabs x = x.
Proof.
  destruct x as [n d]. unfold Qlt, Qabs. cbn. intros H.
  f_equal. apply Z.abs_eq. lia.
Qed.

(** [ilog2] brackets a positive rational between consecutive powers of two. *)
Lemma ilog2_spec (x : Q) : 0 < x -> 2 ^ ilog2 x <= x /\ x < 2 ^ (ilog2 x + 1).
Proof.
  intros Hx. unfold ilog2.
  destruct x as [n d]. cbn [Qnum Qden].
  assert (Hn : (0 < n)%Z) by (unfold Qlt in Hx; cbn in Hx; lia).
  set (a := Z.log2 n). set (b := Z.log2 (Z.pos d)).
  destruct (Z.log2_spec n Hn) as [Ha1 Ha2]. fold a in Ha1, Ha2.
  destruct (Z.log2_spec (Z.pos d) ltac:(lia)) as [Hb1 Hb2]. fold b in Hb1, Hb2.
  assert (Ha0 : (0 <= a)%Z) by apply Z.log2_nonneg.
  assert (Hb0 : (0 <= b)%Z) by apply Z.log2_nonneg.
  assert (Hd : 0 < inject_Z (Z.pos d)) by (apply inject_Z_pos; lia).
  assert (Ex : n # d == inject_Z n / inject_Z (Z.pos d)) by apply Qmake_Qdiv.
  assert (PA : 2 ^ a == inject_Z (2 ^ a)) by (apply p2_Z; lia).
  assert (PA1 : 2 ^ (a + 1) == inject_Z (2 ^ (a + 1))) by (apply p2_Z; lia).
  assert (PB : 2 ^ b == inject_Z (2 ^ b)) by (apply p2_Z; lia).
  assert (PB1 : 2 ^ (b + 1) == inject_Z (2 ^ (b + 1))) by (apply p2_Z; lia).
  assert (QA1 : inject_Z (2 ^ a) <= inject_Z n) by (now rewrite <- Zle_Qle).
  assert (QA2 : inject_Z n < inject_Z (2 ^ (a + 1)))
    by (rewrite <- Zlt_Qlt; replace (a + 1)%Z with (Z.succ a) by lia; assumption).
  assert (QB1 : inject_Z (2 ^ b) <= inject_Z (Z.pos d)) by (now rewrite <- Zle_Qle).
  assert (QB2 : inject_Z (Z.pos d) < inject_Z (2 ^ (b + 1)))
    by (rewrite <- Zlt_Qlt; replace (b + 1)%Z with (Z.succ b) by lia; assumption).
  assert (Pb : 0 < 2 ^ b) by apply p2_pos.
  assert (Pb1 : 0 < 2 ^ (b + 1)) by apply p2_pos.
  assert (Pa : 0 < 2 ^ a) by apply p2_pos.
  destruct (Qle_bool (2 ^ (a - b)) (n # d)) eqn:Hle.
  - apply Qle_bool_iff in Hle. split; [assumption |].
    replace (a - b + 1)%Z with (a + 1 - b)%Z by lia.
    rewrite p2_sub, Ex.
    apply Qlt_shift_div_l; [assumption |].
    assert (E : inject_Z n / inject_Z (Z.pos d) * 2 ^ b
                == inject_Z n * 2 ^ b / inject_Z (Z.pos d)) by (field; lra).
    rewrite E. apply Qlt_shift_div_r; [assumption |].
    assert (0 < inject_Z n) by (apply inject_Z_pos; lia). nra.
  - assert (Hlt : n # d < 2 ^ (a - b)).
    { apply Qnot_le_lt. intros Hc. apply Qle_bool_iff in Hc. congruence. }
    replace (a - b - 1 + 1)%Z with (a - b)%Z by lia. split; [| assumption].
    replace (a - b - 1)%Z with (a - (b + 1))%Z by lia.
    rewrite p2_sub, Ex.
    apply Qle_shift_div_l; [assumption |].
    assert (E : 2 ^ a / 2 ^ (b + 1) * inject_Z (Z.pos d)
                == 2 ^ a * inject_Z (Z.pos d) / 2 ^ (b + 1)) by (field; lra).
    rewrite E. apply Qle_shift_div_r; [assumption |].
    assert (0 < inject_Z n) by (apply inject_Z_pos; lia). nra.
Qed.


Lemma rhe_cases (x : Q) :
  round_half_even x = Qfloor x \/ round_half_even x = (Qfloor x + 1)%Z.
Proof.
  unfold round_half_even. cbv zeta.
  destruct (x - inject_Z (Qfloor x) ?= 1 # 2); auto.
  destruct (Z.even (Qfloor x)); auto.
Qed.

Lemma rhe_ge (z : Z) (x : Q) : inject_Z z <= x -> (z <= round_half_even x)%Z.
Proof.
  intros H. apply Qfloor_resp_le in H. rewrite Qfloor_Z in H.
  destruct (rhe_cases x) as [-> | ->]; lia.
Qed.

Lemma rhe_le (z : Z) (x : Q) : x <= inject_Z z -> (round_half_even x <= z)%Z.
Proof.
  intros H. pose proof (Qfloor_resp_le _ _ H) as Hf. rewrite Qfloor_Z in Hf.
  destruct (Z.eq_dec (Qfloor x) z) as [E | NE].
  - unfold round_half_even. cbv zeta.
    assert (Hlt : x - inject_Z (Qfloor x) < 1 # 2) by (rewrite E; lra).
    destruct (x - inject_Z (Qfloor x) ?= 1 # 2) eqn:C;
      [apply Qeq_alt in C; lra | lia | apply Qgt_alt in C; lra].
  - destruct (rhe_cases x) as [-> | ->]; lia.
Qed.

Lemma rhe_error (x : Q) :
  x - (1 # 2) <= inject_Z (round_half_even x)
  /\ inject_Z (round_half_even x) <= x + (1 # 2).
Proof.
  pose proof (Qfloor_le x) as Hlo. pose proof (Qlt_floor x) as Hhi.
  rewrite inject_Z_plus in Hhi. change (inject_Z 1) with 1 in Hhi.
  unfold round_half_even. cbv zeta.
  destruct (x - inject_Z (Qfloor x) ?= 1 # 2) eqn:C.
  - apply Qeq_alt in C.
    destruct (Z.even (Qfloor x)); rewrite ?inject_Z_plus; change (inject_Z 1) with 1; lra.
  - apply Qlt_alt in C. lra.
  - apply Qgt_alt in C. rewrite inject_Z_plus. change (inject_Z 1) with 1. lra.
Qed.

Lemma ulp_exp_pos (f : format) (x : Q) :
  0 < x -> ulp_exp f x = Z.max (ilog2 x - (prec f - 1)) (emin f).
Proof. intros H. unfold ulp_exp. now rewrite Qabs_pos_eq. Qed.

Lemma round_Q_unfold (f : format) (x : Q) :
  0 < x ->
  round_Q f x = inject_Z (round_half_even (x / 2 ^ ulp_exp f x)) * 2 ^ ulp_exp f x.
Proof.
  intros H. unfold round_Q.
  destruct (Qeq_bool x 0) eqn:E; [| reflexivity].
  apply Qeq_bool_eq in E. lra.
Qed.

Lemma inject_Z_p2 (z k : Z) :
  (0 <= k)%Z -> inject_Z (z * 2 ^ k) == inject_Z z * 2 ^ k.
Proof. intros H. rewrite inject_Z_mult, <- p2_Z by assumption. reflexivity. Qed.

(** Rounding never crosses a representable number [z * 2 ^ k]. *)
Lemma round_Q_ge (f : format) (x : Q) (z k : Z) :
  (1 <= prec f)%Z -> 0 < x -> (0 <= z <= 2 ^ prec f)%Z -> (emin f <= k)%Z ->
  inject_Z z * 2 ^ k <= x -> inject_Z z * 2 ^ k <= round_Q f x.
Proof.
  intros Hp Hx Hz Hk Hle. rewrite round_Q_unfold by assumption.
  pose proof (ulp_exp_pos f x Hx) as He. set (e := ulp_exp f x) in *.
  pose proof (p2_pos e) as Pe.
  destruct (Z_le_gt_dec e k) as [Hek | Hek].
  - assert (Hq : inject_Z (z * 2 ^ (k - e)) <= x / 2 ^ e).
    { rewrite inject_Z_p2 by lia. apply Qle_shift_div_l; [assumption |].
      rewrite <- Qmult_assoc, <- p2_add. now replace (k - e + e)%Z with k by lia. }
    apply rhe_ge in Hq. rewrite Zle_Qle, inject_Z_p2 in Hq by lia.
    replace k with (k - e + e)%Z at 1 by lia. rewrite p2_add.
    assert (0 < 2 ^ (k - e)) by apply p2_pos. nra.
  - assert (Ee : e = (ilog2 x - (prec f - 1))%Z) by lia.
    destruct (ilog2_spec x Hx) as [Hlo _].
    assert (Hq : inject_Z (2 ^ (prec f - 1)) <= x / 2 ^ e).
    { rewrite <- p2_Z by lia. apply Qle_shift_div_l; [assumption |].
      rewrite <- p2_add. now replace (prec f - 1 + e)%Z with (ilog2 x) by lia. }
    apply rhe_ge in Hq. rewrite Zle_Qle, <- p2_Z in Hq by lia.
    assert (Hpk : 2 ^ (prec f + k) <= 2 ^ (prec f - 1 + e)) by (apply p2_le; lia).
    rewrite !p2_add in Hpk.
    assert (Hzq : inject_Z z <= 2 ^ prec f).
    { rewrite p2_Z by lia. rewrite <- Zle_Qle. lia. }
    assert (0 <= inject_Z z) by (change 0 with (inject_Z 0); rewrite <- Zle_Qle; lia).
    pose proof (p2_pos k). pose proof (p2_pos (prec f)). pose proof (p2_pos (prec f - 1)).
    nra.
Qed.

Lemma round_Q_le (f : format) (x : Q) (z k : Z) :
  (1 <= prec f)%Z -> 0 < x -> (z < 2 ^ prec f)%Z -> (emin f <= k)%Z ->
  x <= inject_Z z * 2 ^ k -> round_Q f x <= inject_Z z * 2 ^ k.
Proof.
  intros Hp Hx Hz Hk Hle. rewrite round_Q_unfold by assumption.
  pose proof (ulp_exp_pos f x Hx) as He. set (e := ulp_exp f x) in *.
  pose proof (p2_pos e) as Pe.
  destruct (Z_le_gt_dec e k) as [Hek | Hek].
  - assert (Hq : x / 2 ^ e <= inject_Z (z * 2 ^ (k - e))).
    { rewrite inject_Z_p2 by lia. apply Qle_shift_div_r; [assumption |].
      rewrite <- Qmult_assoc, <- p2_add. now replace (k - e + e)%Z with k by lia. }
    apply rhe_le in Hq. rewrite Zle_Qle, inject_Z_p2 in Hq by lia.
    replace k with (k - e + e)%Z at 1 by lia. rewrite p2_add.
    assert (0 < 2 ^ (k - e)) by apply p2_pos. nra.
  - exfalso.
    assert (Ee : e = (ilog2 x - (prec f - 1))%Z) by lia.
    destruct (ilog2_spec x Hx) as [Hlo _].
    assert (Hpk : 2 ^ (prec f + k) <= 2 ^ ilog2 x) by (apply p2_le; lia).
    rewrite p2_add in Hpk.
    assert (Hzq : inject_Z z < 2 ^ prec f).
    { rewrite p2_Z by lia. rewrite <- Zlt_Qlt. lia. }
    pose proof (p2_pos k). nra.
Qed.

(** Relative error of rounding in the normal range. *)
Lemma round_Q_error (f : format) (x : Q) :
  (1 <= prec f)%Z -> 0 < x -> (emin f <= ilog2 x - (prec f - 1))%Z ->
  x - x * 2 ^ (- prec f) <= round_Q f x /\ round_Q f x <= x + x * 2 ^ (- prec f).
Proof.
  intros Hp Hx Hn. rewrite round_Q_unfold by assumption.
  pose proof (ulp_exp_pos f x Hx) as He. set (e := ulp_exp f x) in *.
  assert (Ee : e = (ilog2 x - (prec f - 1))%Z) by lia.
  pose proof (p2_pos e) as Pe.
  destruct (ilog2_spec x Hx) as [Hlo _].
  destruct (rhe_error (x / 2 ^ e)) as [R1 R2].
  set (r := inject_Z (round_half_even (x / 2 ^ e))) in *.
  assert (Hdiv : x / 2 ^ e * 2 ^ e == x) by (field; lra).
  assert (Hu : 2 ^ e * (1 # 2) <= x * 2 ^ (- prec f)).
  { assert (E1 : 2 ^ ilog2 x == 2 ^ e * 2 ^ (prec f - 1)).
    { rewrite <- p2_add. now replace (e + (prec f - 1))%Z with (ilog2 x) by lia. }
    assert (E2 : 2 ^ (prec f - 1) * 2 ^ (- prec f) == 1 # 2).
    { rewrite <- p2_add. now replace (prec f - 1 + - prec f)%Z with (-1)%Z by lia. }
    pose proof (p2_pos (- prec f)). pose proof (p2_pos (prec f - 1)).
    rewrite E1 in Hlo.
    assert (2 ^ e * 2 ^ (prec f - 1) * 2 ^ (- prec f) <= x * 2 ^ (- prec f)) by nra.
    assert (2 ^ e * 2 ^ (prec f - 1) * 2 ^ (- prec f) == 2 ^ e * (1 # 2)).
    { rewrite <- Qmult_assoc, E2. reflexivity. }
    lra. }
  split; nra.
Qed.


Lemma round_Q_nonneg (f : format) (x : Q) :
  (1 <= prec f)%Z -> 0 < x -> 0 <= round_Q f x.
Proof.
  intros Hp Hx.
  assert (H : inject_Z 0 * 2 ^ emin f <= round_Q f x).
  { apply round_Q_ge; try assumption; try lia.
    change (inject_Z 0) with 0. lra. }
  change (inject_Z 0) with 0 in H. lra.
Qed.

(** A positive value bounded by a representable number rounds to a finite
    binary32 value below that bound. *)
Lemma round32_finite (x : Q) (z k : Z) :
  0 < x -> (z < 2 ^ 24)%Z -> (-149 <= k <= 104)%Z -> x <= inject_Z z * 2 ^ k ->
  round binary32 x = Finite (Qred (round_Q binary32 x))
  /\ 0 <= round_Q binary32 x <= inject_Z z * 2 ^ k.
Proof.
  intros Hx Hz Hk Hle.
  assert (Hp : (1 <= prec binary32)%Z) by (cbn; lia).
  pose proof (round_Q_nonneg binary32 x Hp Hx) as H0.
  pose proof (round_Q_le binary32 x z k Hp Hx Hz ltac:(cbn; lia) Hle) as H1.
  split; [| split; assumption].
  unfold round. cbv zeta.
  destruct (Qle_bool (2 ^ emax binary32) (Qabs (round_Q binary32 x))) eqn:E;
    [| reflexivity].
  exfalso. apply Qle_bool_iff in E. rewrite Qabs_pos in E by assumption.
  assert (Hzq : inject_Z z < 2 ^ 24).
  { rewrite p2_Z by lia. now rewrite <- Zlt_Qlt. }
  assert (Hpk : 2 ^ (24 + k) <= 2 ^ emax binary32) by (apply p2_le; cbn; lia).
  rewrite p2_add in Hpk. pose proof (p2_pos k). nra.
Qed.

Lemma Qred_inject_Z (z : Z) : Qred (inject_Z z) = inject_Z z.
Proof.
  unfold Qred, inject_Z.
  pose proof (Z.ggcd_correct_divisors z 1) as Hd.
  pose proof (Z.ggcd_gcd z 1) as Hg. rewrite Z.gcd_1_r in Hg.
  destruct (Z.ggcd z 1) as [g [aa bb]]. cbn [fst snd] in *. subst g.
  destruct Hd as [Ha Hb].
  replace aa with z by lia. replace bb with 1%Z by lia. reflexivity.
Qed.

Lemma p2_0 : 2 ^ 0 == 1.
Proof. reflexivity. Qed.

(** Integers below [2 ^ 24] are binary32 numbers: the cast is exact. *)
Lemma of_Z_exact (z : Z) : (0 < z < 2 ^ 24)%Z -> of_Z binary32 z = Finite (inject_Z z).
Proof.
  intros Hz. unfold of_Z.
  assert (Hx : 0 < inject_Z z) by (apply inject_Z_pos; lia).
  assert (Hp : (1 <= prec binary32)%Z) by (cbn; lia).
  assert (Hz1 : inject_Z z <= inject_Z z * 2 ^ 0) by (rewrite p2_0; lra).
  destruct (round32_finite (inject_Z z) z 0 Hx ltac:(lia) ltac:(lia) Hz1) as (-> & _ & Hup).
  assert (Hlo : inject_Z z * 2 ^ 0 <= round_Q binary32 (inject_Z z)).
  { apply round_Q_ge; try assumption; cbn [prec emin binary32]; try lia.
    rewrite p2_0; lra. }
  rewrite p2_0 in Hup, Hlo.
  assert (E : round_Q binary32 (inject_Z z) == inject_Z z) by lra.
  f_equal. rewrite (Qred_complete _ _ E). apply Qred_inject_Z.
Qed.

Lemma inject_Z_minus (a b : Z) : inject_Z (a - b) == inject_Z a - inject_Z b.
Proof. unfold Z.sub. rewrite inject_Z_plus, inject_Z_opp. reflexivity. Qed.

Lemma Qtrunc_nonneg (q : Q) : 0 <= q -> Qtrunc q = Qfloor q.
Proof.
  destruct q as [n d]. unfold Qle, Qtrunc, Qfloor. cbn. intros H.
  apply Z.quot_div_nonneg; lia.
Qed.

Lemma u24 : 2 ^ (-24) == 1 # 16777216.
Proof. reflexivity. Qed.

Lemma p2_7 : 2 ^ 7 == 128.
Proof. reflexivity. Qed.

(** One side of the image, scaled by a ratio [scale] that is within one
    rounding error of [s / m]. *)
Lemma scaled_side (d s m : Z) (scale : Q) :
  (0 < m <= d)%Z -> (d < 2 ^ 24)%Z -> (0 < s < 2 ^ 24 - 1)%Z ->
  (d * s <= 2 ^ 30 * m)%Z ->
  inject_Z s / inject_Z m - inject_Z s / inject_Z m * 2 ^ (-24) <= scale ->
  scale <= inject_Z s / inject_Z m + inject_Z s / inject_Z m * 2 ^ (-24) ->
  exists p : Q,
    mul binary32 (Finite (inject_Z d)) (Finite scale) = Finite p
    /\ tf_cast_int32 (Finite p) = Qfloor p
    /\ (s - 1 <= Qfloor p)%Z
    /\ (d = m -> Qfloor p <= s + 1)%Z.
Proof.
  intros Hm Hd Hs Hfit Hlo Hhi.
  change (2 ^ 24)%Z with 16777216%Z in *. change (2 ^ 30)%Z with 1073741824%Z in *.
  rewrite u24 in Hlo, Hhi.
  assert (Qm : 0 < inject_Z m) by (apply inject_Z_pos; lia).
  assert (Qs : 1 <= inject_Z s) by (change 1 with (inject_Z 1); rewrite <- Zle_Qle; lia).
  assert (Qs' : inject_Z s <= 16777214)
    by (change 16777214 with (inject_Z 16777214); rewrite <- Zle_Qle; lia).
  assert (Qd : inject_Z m <= inject_Z d) by (rewrite <- Zle_Qle; lia).
  assert (Qfit : inject_Z d * inject_Z s <= 1073741824 * inject_Z m).
  { change 1073741824 with (inject_Z 1073741824).
    rewrite <- !inject_Z_mult, <- Zle_Qle. lia. }
  set (x := inject_Z s / inject_Z m) in *.
  assert (Ex : x * inject_Z m == inject_Z s) by (unfold x; field; lra).
  assert (Hx : 0 < x) by (unfold x; apply Qlt_shift_div_l; lra).
  assert (Hsc : 0 < scale) by nra.
  set (y := inject_Z d * scale).
  assert (Hy : 0 < y) by (unfold y; nra).
  assert (Hdx : inject_Z d * x <= 1073741824).
  { assert (inject_Z d * x * inject_Z m <= 1073741824 * inject_Z m) by nra. nra. }
  assert (Hy_hi : y <= inject_Z 16777215 * 2 ^ 7).
  { rewrite p2_7. change (inject_Z 16777215) with 16777215. unfold y. nra. }
  assert (Hy_lo : inject_Z (s - 1) * 2 ^ 0 <= y).
  { rewrite p2_0, inject_Z_minus. change (inject_Z 1) with 1. unfold y. nra. }
  destruct (round32_finite y 16777215 7 Hy ltac:(lia) ltac:(lia) Hy_hi)
    as (Hround & Hr0 & Hr_hi).
  assert (Hr_lo : inject_Z (s - 1) * 2 ^ 0 <= round_Q binary32 y).
  { apply round_Q_ge; try assumption; cbn [prec emin binary32]; lia. }
  rewrite p2_0 in Hr_lo. rewrite p2_7 in Hr_hi.
  set (p := Qred (round_Q binary32 y)).
  assert (Ep : p == round_Q binary32 y) by apply Qred_correct.
  exists p. split; [exact Hround |].
  assert (Hfl_hi : (Qfloor p <= 2147483520)%Z).
  { rewrite <- (Qfloor_Z 2147483520). apply Qfloor_resp_le. rewrite Ep.
    change (inject_Z 16777215) with 16777215 in Hr_hi.
    change (inject_Z 2147483520) with 2147483520. lra. }
  assert (Hfl_lo : (s - 1 <= Qfloor p)%Z).
  { rewrite <- (Qfloor_Z (s - 1)). apply Qfloor_resp_le. rewrite Ep. lra. }
  split; [| split; [assumption |]].
  - unfold tf_cast_int32. rewrite Qtrunc_nonneg by (rewrite Ep; lra).
    assert (Hin : in_int32 (Qfloor p) = true) by (apply in_int32_iff; lia).
    now rewrite Hin.
  - intros ->.
    assert (Hy_hi' : y <= inject_Z (s + 1) * 2 ^ 0).
    { rewrite p2_0, inject_Z_plus. change (inject_Z 1) with 1. unfold y. nra. }
    assert (Hr_hi' : round_Q binary32 y <= inject_Z (s + 1) * 2 ^ 0).
    { apply round_Q_le; try assumption; cbn [prec emin binary32]; lia. }
    rewrite p2_0 in Hr_hi'.
    rewrite <- (Qfloor_Z (s + 1)). apply Qfloor_resp_le. rewrite Ep. lra.
Qed.


Lemma tf_minimum_exact (h w : Z) :
  tf_minimum (Finite (inject_Z h)) (Finite (inject_Z w)) = Finite (inject_Z (Z.min h w)).
Proof.
  unfold tf_minimum, ltb, Qltb.
  destruct (Qle_bool (inject_Z h) (inject_Z w)) eqn:E; cbn [negb].
  - apply Qle_bool_iff in E. rewrite <- Zle_Qle in E. now rewrite Z.min_l.
  - assert (Hlt : ~ (h <= w)%Z).
    { intros Hc. rewrite Zle_Qle in Hc. apply Qle_bool_iff in Hc. congruence. }
    rewrite Z.min_r by lia. reflexivity.
Qed.

End FloatFacts.

(** Truncation is visible at ordinary sizes: a square image of side 41
    resized to a smallest side of 256 gets sides of 255, because
    [41 * fl (256 / 41)] rounds to the binary32 number just below 256. *)
Lemma smallest_size_at_least_41_256 : _smallest_size_at_least 41 41 256 = (255, 255).
Proof. reflexivity. Qed.

(** Against claim C5 as stated: beyond [2 ^ 24] the cast of
    [smallest_side] to binary32 is no longer exact; 67108868 becomes
    67108864 and the smaller side misses the target by 4. *)
Lemma smallest_size_at_least_off_by_4 :
  _smallest_size_at_least 1 1 67108868 = (67108864, 67108864)
  /\ Z.abs (Z.min 67108864 67108864 - 67108868) = 4.
Proof. split; reflexivity. Qed.

(** Claim C5, on the range where binary32 holds the sizes exactly.  For
    [0 < height, width < 2 ^ 24] and [0 < smallest_side < 2 ^ 24 - 1] whose
    larger scaled side stays within [2 ^ 30], the calculator computes
    [scale_ratio], the binary32 quotient of [smallest_side] by
    [min height width] (within [2 ^ -24] of the exact ratio, relatively),
    and returns the floors of the binary32 products [height * scale_ratio]
    and [width * scale_ratio]; the smaller of the two differs from
    [smallest_side] by at most 1. *)
Theorem smallest_size_at_least_bounds (height width smallest_side : Z) :
  0 < height < 2 ^ 24 -> 0 < width < 2 ^ 24 -> 0 < smallest_side < 2 ^ 24 - 1 ->
  Z.max height width * smallest_side <= 2 ^ 30 * Z.min height width ->
  let exact_ratio := (inject_Z smallest_side / inject_Z (Z.min height width))%Q in
  exists scale_ratio scaled_height scaled_width : Q,
    div binary32 (tf_cast_float32 smallest_side)
      (tf_minimum (tf_cast_float32 height) (tf_cast_float32 width))
    = Finite scale_ratio
    /\ (Qabs (scale_ratio - exact_ratio) <= exact_ratio * 2 ^ (-24))%Q
    /\ mul binary32 (tf_cast_float32 height) (Finite scale_ratio) = Finite scaled_height
    /\ mul binary32 (tf_cast_float32 width) (Finite scale_ratio) = Finite scaled_width
    /\ _smallest_size_at_least height width smallest_side
       = (Qfloor scaled_height, Qfloor scaled_width)
    /\ smallest_side - 1
       <= Z.min (Qfloor scaled_height) (Qfloor scaled_width)
       <= smallest_side + 1.
Proof.
  intros Hh Hw Hs Hfit x.
  set (m := Z.min height width) in *.
  assert (Hm : 0 < m < 2 ^ 24) by (unfold m; lia).
  unfold _smallest_size_at_least, tf_cast_float32.
  rewrite (of_Z_exact height), (of_Z_exact width), (of_Z_exact smallest_side)
    by (change (2 ^ 24) with 16777216 in *; lia).
  rewrite tf_minimum_exact. fold m.
  change (2 ^ 24) with 16777216 in *. change (2 ^ 30) with 1073741824 in *.
  assert (Qm : (1 <= inject_Z m)%Q)
    by (change 1%Q with (inject_Z 1); rewrite <- Zle_Qle; lia).
  assert (Qm' : (inject_Z m <= 16777215)%Q)
    by (change 16777215%Q with (inject_Z 16777215); rewrite <- Zle_Qle; lia).
  assert (Qs : (1 <= inject_Z smallest_side)%Q)
    by (change 1%Q with (inject_Z 1); rewrite <- Zle_Qle; lia).
  assert (Ex : (x * inject_Z m == inject_Z smallest_side)%Q) by (unfold x; field; lra).
  assert (Hx : (0 < x)%Q) by (unfold x; apply Qlt_shift_div_l; lra).
  assert (Hx_hi : (x <= inject_Z smallest_side * 2 ^ 0)%Q) by (rewrite p2_0; nra).
  assert (Hx_lo : (2 ^ (-24) < x)%Q) by (rewrite u24; nra).
  destruct (round32_finite x smallest_side 0 Hx ltac:(lia) ltac:(lia) Hx_hi)
    as (Hround & _ & _).
  assert (Hnormal : emin binary32 <= ilog2 x - (prec binary32 - 1)).
  { destruct (ilog2_spec x Hx) as [_ Hup].
    assert (Hlt : (2 ^ (-24) < 2 ^ (ilog2 x + 1))%Q) by lra.
    apply p2_lt_inv in Hlt. cbn [emin prec binary32]. lia. }
  destruct (round_Q_error binary32 x ltac:(cbn; lia) Hx Hnormal) as [Elo Ehi].
  change (- prec binary32) with (-24) in Elo, Ehi.
  set (scale := Qred (round_Q binary32 x)).
  assert (Es : (scale == round_Q binary32 x)%Q) by apply Qred_correct.
  assert (Hdiv : div binary32 (Finite (inject_Z smallest_side)) (Finite (inject_Z m))
                 = Finite scale).
  { unfold div, is_zero.
    destruct (Qeq_bool (inject_Z m) 0) eqn:E0; [apply Qeq_bool_eq in E0; lra |].
    exact Hround. }
  rewrite Hdiv.
  destruct (scaled_side height smallest_side m scale) as (ph & Hph & Hch & Hlo_h & Hhi_h);
    try (rewrite Es; assumption); try (unfold m; nia).
  destruct (scaled_side width smallest_side m scale) as (pw & Hpw & Hcw & Hlo_w & Hhi_w);
    try (rewrite Es; assumption); try (unfold m; nia).
  exists scale, ph, pw.
  split; [reflexivity |]. split.
  { apply Qabs_Qle_condition. rewrite Es. split; lra. }
  split; [exact Hph |]. split; [exact Hpw |].
  rewrite Hph, Hpw, Hch, Hcw. split; [reflexivity |].
  destruct (Z.le_ge_cases height width) as [Hc | Hc].
  - specialize (Hhi_h ltac:(unfold m; lia)). lia.
  - specialize (Hhi_w ltac:(unfold m; lia)). lia.
Qed.

Lemma smallest_size_at_least_bounds_witness :
  let exact_ratio := (inject_Z 256 / inject_Z (Z.min 300 400))%Q in
  exists scale_ratio scaled_height scaled_width : Q,
    div binary32 (tf_cast_float32 256)
      (tf_minimum (tf_cast_float32 300) (tf_cast_float32 400))
    = Finite scale_ratio
    /\ (Qabs (scale_ratio - exact_ratio) <= exact_ratio * 2 ^ (-24))%Q
    /\ mul binary32 (tf_cast_float32 300) (Finite scale_ratio) = Finite scaled_height
    /\ mul binary32 (tf_cast_float32 400) (Finite scale_ratio) = Finite scaled_width
    /\ _smallest_size_at_least 300 400 256
       = (Qfloor scaled_height, Qfloor scaled_width)
    /\ 256 - 1 <= Z.min (Qfloor scaled_height) (Qfloor scaled_width) <= 256 + 1.
Proof.
  apply (smallest_size_at_least_bounds 300 400 256); cbn; lia.
Defined.

(* ===================================================================== *)
(** * The epoch counter *)
(* ===================================================================== *)

(** ** Reading back the document that [on_epoch_end] writes *)

Lemma append_nil (s : string) : (EmptyString ++ s)%string = s.
Proof. reflexivity. Qed.

Lemma append_cons (c : ascii) (s t : string) :
  (String c s ++ t)%string = String c (s ++ t)%string.
Proof. reflexivity. Qed.

Lemma span_digits_uint (u : Decimal.uint) (rest : string) :
  match rest with String c _ => Json.is_digit c = false | EmptyString => True end ->
  Json.span_digits (NilEmpty.string_of_uint u ++ rest) = (NilEmpty.string_of_uint u, rest).
Proof.
  intros Hrest.
  induction u; cbn [NilEmpty.string_of_uint];
    rewrite ?append_cons, ?append_nil; cbn [Json.span_digits];
    try (change (Json.is_digit _) with true; cbv iota; rewrite IHu; reflexivity).
  destruct rest as [| c r]; [reflexivity |]. cbn [Json.span_digits]. now rewrite Hrest.
Qed.

Lemma digits_value_uint (u : Decimal.uint) :
  Json.digits_value (NilEmpty.string_of_uint u) = Z.of_uint u.
Proof. unfold Json.digits_value. now rewrite NilEmpty.usu. Qed.

Lemma nzhead_not_D0 (u v : Decimal.uint) : Decimal.nzhead u <> Decimal.D0 v.
Proof. induction u; cbn; try discriminate. assumption. Qed.

Lemma to_uint_not_D0 (p : positive) (v : Decimal.uint) : Pos.to_uint p <> Decimal.D0 v.
Proof.
  intros H.
  pose proof (DecimalPos.Unsigned.to_of (Pos.to_uint p)) as E.
  rewrite DecimalPos.Unsigned.of_to in E. cbn [N.to_uint] in E.
  pose proof (DecimalPos.Unsigned.to_uint_nonzero p) as Hnz.
  assert (Hh : Decimal.nzhead (Pos.to_uint p) <> Decimal.Nil).
  { intros Hnil. apply Hnz. rewrite E. now apply DecimalFacts.unorm_0. }
  rewrite (DecimalFacts.unorm_nzhead _ Hh) in E.
  rewrite H in E at 1. symmetry in E. now apply nzhead_not_D0 in E.
Qed.

Lemma of_uint_to_uint (p : positive) : Z.of_uint (Pos.to_uint p) = Z.pos p.
Proof. exact (DecimalZ.of_to (Z.pos p)). Qed.

Lemma string_of_Z_pos (p : positive) :
  Json.string_of_Z (Z.pos p) = NilEmpty.string_of_uint (Pos.to_uint p).
Proof.
  unfold Json.string_of_Z. cbn [Z.to_int NilZero.string_of_int NilZero.string_of_uint].
  pose proof (DecimalPos.Unsigned.to_uint_nonnil p).
  destruct (Pos.to_uint p); [contradiction | reflexivity ..].
Qed.

Lemma string_of_Z_neg (p : positive) :
  Json.string_of_Z (Z.neg p) = String "-" (NilEmpty.string_of_uint (Pos.to_uint p)).
Proof.
  unfold Json.string_of_Z. cbn [Z.to_int NilZero.string_of_int NilZero.string_of_uint].
  pose proof (DecimalPos.Unsigned.to_uint_nonnil p).
  destruct (Pos.to_uint p); [contradiction | reflexivity ..].
Qed.

Lemma decimal_digits_pos (p : positive) :
  Json.decimal_digits (Z.pos p) = String.length (NilEmpty.string_of_uint (Pos.to_uint p)).
Proof.
  unfold Json.decimal_digits. change (Z.abs (Z.pos p)) with (Z.pos p).
  now rewrite string_of_Z_pos.
Qed.

Lemma decimal_digits_neg (p : positive) :
  Json.decimal_digits (Z.neg p) = String.length (NilEmpty.string_of_uint (Pos.to_uint p)).
Proof.
  unfold Json.decimal_digits. change (Z.abs (Z.neg p)) with (Z.pos p).
  now rewrite string_of_Z_pos.
Qed.

Lemma int_of_digits_small (digits : string) :
  (String.length digits <= Json.max_str_digits)%nat ->
  Json.int_of_digits digits = Ok (Json.digits_value digits).
Proof.
  intros H. unfold Json.int_of_digits.
  destruct (Nat.ltb_spec Json.max_str_digits (String.length digits)); [lia | reflexivity].
Qed.

(** Parsing the digits of a positive number that are followed by [rest]. *)
Lemma parse_unsigned_pos (negative : bool) (p : positive) (rest : string) :
  rest = "}"%string ->
  (String.length (NilEmpty.string_of_uint (Pos.to_uint p)) <= Json.max_str_digits)%nat ->
  Json.parse_unsigned negative (NilEmpty.string_of_uint (Pos.to_uint p) ++ rest)
  = Ok (JInt (if negative then Z.neg p else Z.pos p), rest).
Proof.
  intros -> Hlen. unfold Json.parse_unsigned.
  assert (Hspan : Json.span_integer (NilEmpty.string_of_uint (Pos.to_uint p) ++ "}")
                  = (NilEmpty.string_of_uint (Pos.to_uint p), "}"%string)).
  { unfold Json.span_integer.
    pose proof (span_digits_uint (Pos.to_uint p) "}" eq_refl) as Hd.
    pose proof (to_uint_not_D0 p) as H0.
    destruct (Pos.to_uint p); try exact Hd. now elim (H0 u). }
  rewrite Hspan.
  pose proof (DecimalPos.Unsigned.to_uint_nonnil p) as Hnn.
  assert (Hne : exists c r, NilEmpty.string_of_uint (Pos.to_uint p) = String c r).
  { destruct (Pos.to_uint p); [contradiction | cbn; eauto ..]. }
  destruct Hne as (c & r & Hcr).
  rewrite (int_of_digits_small _ Hlen), digits_value_uint, of_uint_to_uint. rewrite Hcr.
  cbn [Json.span_fraction Json.span_exponent].
  change (Ascii.eqb "}" "e") with false. change (Ascii.eqb "}" "E") with false.
  cbn [orb mbind result_bind]. destruct negative; reflexivity.
Qed.

(** The digits of a positive number start with a digit, so the scanner
    takes the number branch on them and white space is not skipped. *)
Lemma parse_value_digits (k : nat) (p : positive) (rest : string) :
  Json.parse_value (S k) (NilEmpty.string_of_uint (Pos.to_uint p) ++ rest)
  = Json.parse_unsigned false (NilEmpty.string_of_uint (Pos.to_uint p) ++ rest).
Proof.
  pose proof (DecimalPos.Unsigned.to_uint_nonnil p).
  destruct (Pos.to_uint p); [contradiction | reflexivity ..].
Qed.

Lemma parse_value_minus_digits (k : nat) (p : positive) (rest : string) :
  Json.parse_value (S k) (String "-" (NilEmpty.string_of_uint (Pos.to_uint p) ++ rest))
  = Json.parse_unsigned true (NilEmpty.string_of_uint (Pos.to_uint p) ++ rest).
Proof.
  pose proof (DecimalPos.Unsigned.to_uint_nonnil p).
  destruct (Pos.to_uint p); [contradiction | reflexivity ..].
Qed.

Lemma skip_ws_digits (p : positive) (rest : string) :
  Json.skip_ws (NilEmpty.string_of_uint (Pos.to_uint p) ++ rest)
  = (NilEmpty.string_of_uint (Pos.to_uint p) ++ rest)%string.
Proof.
  pose proof (DecimalPos.Unsigned.to_uint_nonnil p).
  destruct (Pos.to_uint p); [contradiction | reflexivity ..].
Qed.

Lemma parse_value_number (k : nat) (n : Z) :
  (Json.decimal_digits n <= Json.max_str_digits)%nat ->
  Json.parse_value (S k) (Json.skip_ws (number_text n)) = Ok (JInt n, "}"%string).
Proof.
  unfold number_text. destruct n as [| p | p]; intros Hlen.
  - reflexivity.
  - rewrite decimal_digits_pos in Hlen.
    rewrite string_of_Z_pos, skip_ws_digits, parse_value_digits.
    now apply parse_unsigned_pos.
  - rewrite decimal_digits_neg in Hlen.
    rewrite string_of_Z_neg. rewrite append_cons.
    change (Json.skip_ws (String "-" ?s)) with (String "-" s).
    rewrite parse_value_minus_digits. now apply parse_unsigned_pos.
Qed.

Lemma epoch_document_text (n : Z) :
  epoch_document n
  = String "{" (String "034" ("epoch" ++ String "034" (": " ++ number_text n)))%string.
Proof.
  unfold epoch_document, Json.quote, number_text.
  rewrite ?append_cons, ?append_nil. reflexivity.
Qed.

(** What [json.dumps] makes of the dict: the document, unless the number
    has too many digits to be printed. *)
Lemma dumps_epoch (n : Z) :
  Json.dumps [("epoch"%string, n)]
  = if (Json.max_str_digits <? Json.decimal_digits n)%nat
    then Raise (ValueError
           "Exceeds the limit (4300 digits) for integer string conversion; use sys.set_int_max_str_digits() to increase the limit")
    else Ok (epoch_document n).
Proof.
  unfold Json.dumps. cbn [mapM]. unfold Json.dump_member, Json.int_repr. cbn [fst snd].
  destruct (Json.max_str_digits <? Json.decimal_digits n)%nat; [reflexivity |].
  cbn [mbind result_bind mret result_ret String.concat].
  rewrite epoch_document_text. unfold Json.quote, number_text.
  rewrite ?append_cons, ?append_nil. reflexivity.
Qed.

Lemma dumps_epoch_small (n : Z) :
  (Json.decimal_digits n <= Json.max_str_digits)%nat ->
  Json.dumps [("epoch"%string, n)] = Ok (epoch_document n).
Proof.
  intros H. rewrite dumps_epoch.
  destruct (Nat.ltb_spec Json.max_str_digits (Json.decimal_digits n)); [lia | reflexivity].
Qed.

Lemma dumps_epoch_inv (n : Z) (text : string) :
  Json.dumps [("epoch"%string, n)] = Ok text ->
  (Json.decimal_digits n <= Json.max_str_digits)%nat /\ text = epoch_document n.
Proof.
  rewrite dumps_epoch.
  destruct (Nat.ltb_spec Json.max_str_digits (Json.decimal_digits n)); [discriminate |].
  intros [= <-]. split; [lia | reflexivity].
Qed.

Lemma parse_epoch_document (k : nat) (n : Z) :
  (Json.decimal_digits n <= Json.max_str_digits)%nat ->
  Json.parse_value (S (S (S k))) (epoch_document n)
  = Ok (JObject [("epoch"%string, JInt n)], EmptyString).
Proof.
  intros Hlen. rewrite epoch_document_text.
  cbn [Json.parse_value].
  change (Json.skip_ws (String "034" ?s)) with (String "034" s).
  cbn [Json.parse_members].
  change (Json.parse_string ("epoch" ++ String "034" (": " ++ number_text n)))
    with (Ok ("epoch"%string, (": " ++ number_text n)%string)).
  cbn [mbind result_bind].
  change (Json.skip_ws (": " ++ number_text n)) with (String ":" (String " " (number_text n))).
  cbv iota beta.
  change (Json.skip_ws (String " " (number_text n))) with (Json.skip_ws (number_text n)).
  rewrite parse_value_number by assumption. cbn [mbind result_bind]. reflexivity.
Qed.

Lemma loads_epoch_document (n : Z) :
  (Json.decimal_digits n <= Json.max_str_digits)%nat ->
  Json.loads (epoch_document n) = Ok (JObject [("epoch"%string, JInt n)]).
Proof.
  intros Hlen. unfold Json.loads.
  assert (Hws : Json.skip_ws (epoch_document n) = epoch_document n)
    by (now rewrite epoch_document_text).
  rewrite Hws.
  assert (Hk : exists k, (2 * String.length (epoch_document n) + 2 = S (S (S k)))%nat).
  { exists (2 * String.length (epoch_document n) - 1)%nat.
    rewrite epoch_document_text. cbn [String.length]. lia. }
  destruct Hk as [k ->]. rewrite parse_epoch_document by assumption. reflexivity.
Qed.

(** ** ASCII text is well-formed UTF-8 *)

Lemma ascii_utf8_valid (s : string) :
  forallb (byte_in 0 127) (list_ascii_of_string s) = true -> utf8_valid s = true.
Proof.
  induction s as [| c r IH]; [reflexivity |].
  cbn [list_ascii_of_string forallb]. intros H.
  apply andb_prop in H as [Hc Hr]. cbn [utf8_valid]. rewrite Hc. now apply IH.
Qed.

Lemma ascii_digits (u : Decimal.uint) (rest : string) :
  forallb (byte_in 0 127) (list_ascii_of_string (NilEmpty.string_of_uint u ++ rest))
  = forallb (byte_in 0 127) (list_ascii_of_string rest).
Proof.
  induction u; cbn [NilEmpty.string_of_uint]; rewrite ?append_cons, ?append_nil;
    [reflexivity | cbn [list_ascii_of_string forallb]; rewrite IHu; reflexivity ..].
Qed.

Lemma ascii_cons (c : ascii) (s : string) :
  forallb (byte_in 0 127) (list_ascii_of_string (String c s))
  = byte_in 0 127 c && forallb (byte_in 0 127) (list_ascii_of_string s).
Proof. reflexivity. Qed.

Lemma utf8_valid_epoch_document (n : Z) : utf8_valid (epoch_document n) = true.
Proof.
  apply ascii_utf8_valid. rewrite epoch_document_text. unfold number_text.
  destruct n as [| p | p]; [reflexivity | rewrite string_of_Z_pos | rewrite string_of_Z_neg];
    rewrite ?append_cons, ?append_nil, ?ascii_cons, ascii_digits; reflexivity.
Qed.

(** ** [get_current_epoch] *)

(** Claim C9.  Whenever the read fails, because [stats.json] is missing
    from the directory, because its content is not JSON, or because the
    document has no [epoch] entry (or is not a dict), [get_current_epoch]
    returns 0; it has no other way to end than returning a value. *)
Theorem get_current_epoch_fallback (fs : filesystem) (output_dir : string) :
  let path := os_path_join output_dir "stats.json" in
  files fs !! path = None
  \/ (exists text, files fs !! path = Some text /\ raises (Json.loads text) = true)
  \/ (exists text doc,
        files fs !! path = Some text /\ Json.loads text = Ok doc
        /\ raises (Json.getitem doc "epoch") = true) ->
  get_current_epoch fs output_dir = JInt 0.
Proof.
  intros path. unfold get_current_epoch, read_file. fold path.
  destruct (bool_decide (path ∈ dirs fs)); [reflexivity |].
  intros [Hmiss | [(text & Hfile & Hbad) | (text & doc & Hfile & Hdoc & Hkey)]].
  - now rewrite Hmiss.
  - rewrite Hfile. destruct (utf8_valid text); [| reflexivity].
    cbn [mbind result_bind].
    destruct (Json.loads text); [discriminate | reflexivity].
  - rewrite Hfile. destruct (utf8_valid text); [| reflexivity].
    cbn [mbind result_bind]. rewrite Hdoc. cbn [mbind result_bind].
    destruct (Json.getitem doc "epoch"); [discriminate | reflexivity].
Qed.

Lemma get_current_epoch_fallback_witness :
  get_current_epoch empty_out "out" = JInt 0
  /\ get_current_epoch stats_not_json "out" = JInt 0
  /\ get_current_epoch stats_without_epoch "out" = JInt 0.
Proof.
  split; [| split].
  - apply (get_current_epoch_fallback empty_out "out"). left. reflexivity.
  - apply (get_current_epoch_fallback stats_not_json "out"). right. left.
    exists "{epoch: 3"%string. split; reflexivity.
  - apply (get_current_epoch_fallback stats_without_epoch "out"). right. right.
    exists "[1, 2]"%string, (JArray [JInt 1; JInt 2]).
    repeat split; reflexivity.
Defined.

(** ** [ModelCheckpoint.on_epoch_end] *)

Lemma open_write_inv (fs fs' : filesystem) (path : string) :
  open_write fs path = Ok fs' ->
  (path ∉ dirs fs)
  /\ (os_path_dirname path = EmptyString \/ os_path_dirname path ∈ dirs fs)
  /\ fs' = Filesystem (<[path := EmptyString]> (files fs)) (dirs fs).
Proof.
  unfold open_write. cbv zeta.
  destruct (bool_decide_reflect (path ∈ dirs fs)) as [Hd | Hd]; [discriminate |].
  destruct (String.eqb_spec (os_path_dirname path) EmptyString) as [E | E]; cbn [negb andb].
  { intros [= <-]. auto. }
  destruct (bool_decide_reflect (os_path_dirname path ∈ dirs fs)) as [Hp | Hp]; cbn [negb];
    [| discriminate].
  intros [= <-]. auto.
Qed.

Lemma open_write_ok (fs : filesystem) (path : string) :
  path ∉ dirs fs ->
  os_path_dirname path = EmptyString \/ os_path_dirname path ∈ dirs fs ->
  open_write fs path = Ok (Filesystem (<[path := EmptyString]> (files fs)) (dirs fs)).
Proof.
  intros Hd Hp. unfold open_write. cbv zeta.
  destruct (bool_decide_reflect (path ∈ dirs fs)) as [Hd' | _]; [contradiction |].
  destruct (String.eqb_spec (os_path_dirname path) EmptyString) as [E | E]; cbn [negb andb];
    [reflexivity |].
  destruct (bool_decide_reflect (os_path_dirname path ∈ dirs fs)) as [_ | Hp']; cbn [negb];
    [reflexivity |].
  destruct Hp; contradiction.
Qed.

Lemma write_text_opened (fs : filesystem) (path text : string) :
  write_text (Filesystem (<[path := EmptyString]> (files fs)) (dirs fs)) path text
  = Filesystem (<[path := text]> (files fs)) (dirs fs).
Proof. unfold write_text. cbn [files dirs]. now rewrite insert_insert_eq. Qed.

Lemma read_written (fs : filesystem) (path text : string) :
  path ∉ dirs fs -> utf8_valid text = true ->
  read_file (Filesystem (<[path := text]> (files fs)) (dirs fs)) path = Ok text.
Proof.
  intros Hd Hv. unfold read_file. cbn [files dirs].
  destruct (bool_decide_reflect (path ∈ dirs fs)) as [Hd' | _]; [contradiction |].
  now rewrite lookup_insert_eq, Hv.
Qed.

(** What a call of [on_epoch_end] that returns has done. *)
Lemma on_epoch_end_inv
    (super_on_epoch_end : ModelCheckpoint -> Z -> filesystem -> result filesystem)
    (self : ModelCheckpoint) (epoch : Z) (fs fs' : filesystem) :
  on_epoch_end super_on_epoch_end self epoch fs = Ok fs' ->
  exists fs1 : filesystem,
    let stats := os_path_join (os_path_dirname (filepath self)) "stats.json" in
    super_on_epoch_end self epoch fs = Ok fs1
    /\ (stats ∉ dirs fs1)
    /\ (os_path_dirname stats = EmptyString \/ os_path_dirname stats ∈ dirs fs1)
    /\ (Json.decimal_digits (epoch + 1) <= Json.max_str_digits)%nat
    /\ fs' = Filesystem (<[stats := epoch_document (epoch + 1)]> (files fs1)) (dirs fs1).
Proof.
  unfold on_epoch_end.
  destruct (super_on_epoch_end self epoch fs) as [fs1 | e]; cbn [mbind result_bind];
    [| discriminate].
  destruct (open_write fs1 _) as [fs2 | e] eqn:Hopen; cbn [mbind result_bind];
    [| discriminate].
  apply open_write_inv in Hopen as (Hd & Hp & ->).
  destruct (Json.dumps _) as [text | e] eqn:Hdump; cbn [mbind result_bind];
    [| discriminate].
  apply dumps_epoch_inv in Hdump as [Hlen ->].
  intros [= <-]. exists fs1. cbv zeta. rewrite write_text_opened. auto.
Qed.

Lemma get_current_epoch_of_document (fs : filesystem) (output_dir text : string)
    (doc epoch : json) :
  read_file fs (os_path_join output_dir "stats.json") = Ok text ->
  Json.loads text = Ok doc ->
  Json.getitem doc "epoch" = Ok epoch ->
  get_current_epoch fs output_dir = epoch.
Proof.
  intros Hread Hdoc Hkey. unfold get_current_epoch.
  rewrite Hread. cbn [mbind result_bind]. rewrite Hdoc. cbn [mbind result_bind].
  now rewrite Hkey.
Qed.

(** Claim C10.  Whatever the parent class does to the file store, when
    [on_epoch_end epoch] returns, [get_current_epoch] on the directory of
    the checkpoint path returns [epoch + 1]: the number of completed
    epochs, not the index of the epoch that ended. *)
Theorem epoch_round_trip
    (super_on_epoch_end : ModelCheckpoint -> Z -> filesystem -> result filesystem)
    (self : ModelCheckpoint) (epoch : Z) (fs fs' : filesystem) :
  on_epoch_end super_on_epoch_end self epoch fs = Ok fs' ->
  get_current_epoch fs' (os_path_dirname (filepath self)) = JInt (epoch + 1).
Proof.
  intros Hrun.
  apply on_epoch_end_inv in Hrun as (fs1 & _ & Hd & _ & Hlen & ->).
  apply (get_current_epoch_of_document _ _ (epoch_document (epoch + 1))
           (JObject [("epoch"%string, JInt (epoch + 1))])).
  - apply read_written; [assumption | apply utf8_valid_epoch_document].
  - now apply loads_epoch_document.
  - reflexivity.
Qed.

Lemma epoch_round_trip_witness :
  get_current_epoch store_after_epoch_4 (os_path_dirname (filepath example_checkpoint))
  = JInt (4 + 1).
Proof.
  apply (epoch_round_trip save_weights example_checkpoint 4 empty_out store_after_epoch_4).
  reflexivity.
Defined.

(* ===================================================================== *)
(** * Rounding is monotone; more on the geometry calculator *)
(* ===================================================================== *)

Section RoundingOrder.
Local Open Scope Q_scope.

Lemma ilog2_mono (x y : Q) : 0 < x -> x <= y -> (ilog2 x <= ilog2 y)%Z.
Proof.
  intros Hx Hxy.
  destruct (ilog2_spec x Hx) as [Hlo _].
  destruct (ilog2_spec y ltac:(lra)) as [_ Hhi].
  assert (Hlt : 2 ^ ilog2 x < 2 ^ (ilog2 y + 1)) by lra.
  apply p2_lt_inv in Hlt. lia.
Qed.

Lemma rhe_mono (x y : Q) : x <= y -> (round_half_even x <= round_half_even y)%Z.
Proof.
  intros Hxy.
  destruct (Qlt_le_dec y (inject_Z (round_half_even x))) as [Hlt | Hge];
    [| now apply rhe_ge].
  pose proof (Qfloor_le x) as Fx. pose proof (Qlt_floor x) as Gx.
  pose proof (Qfloor_le y) as Fy. pose proof (Qlt_floor y) as Gy.
  assert (Efl : Qfloor y = Qfloor x).
  { pose proof (Qfloor_resp_le _ _ Hxy) as Hle.
    assert (Hup : inject_Z (Qfloor y) < inject_Z (Qfloor x + 1)).
    { destruct (rhe_cases x) as [E | E]; rewrite E in Hlt.
      - lra.
      - lra. }
    rewrite <- Zlt_Qlt in Hup. lia. }
  revert Hlt. unfold round_half_even. cbv zeta. rewrite Efl.
  rewrite inject_Z_plus in Gx. change (inject_Z 1) with 1 in Gx.
  destruct (x - inject_Z (Qfloor x) ?= 1 # 2) eqn:Cx;
    [apply Qeq_alt in Cx | apply Qlt_alt in Cx | apply Qgt_alt in Cx];
    (destruct (y - inject_Z (Qfloor x) ?= 1 # 2) eqn:Cy;
       [apply Qeq_alt in Cy | apply Qlt_alt in Cy | apply Qgt_alt in Cy]);
    destruct (Z.even (Qfloor x));
    rewrite ?inject_Z_plus; change (inject_Z 1) with 1;
    intros Hlt; first [lia | exfalso; lra].
Qed.

(** Rounding to nearest is monotone. *)
Lemma round_Q_mono (f : format) (x y : Q) :
  (1 <= prec f)%Z -> 0 < x -> x <= y -> round_Q f x <= round_Q f y.
Proof.
  intros Hp Hx Hxy.
  assert (Hy : 0 < y) by lra.
  pose proof (ulp_exp_pos f x Hx) as Ex. pose proof (ulp_exp_pos f y Hy) as Ey.
  pose proof (ilog2_mono x y Hx Hxy) as Hlog.
  destruct (Z.eq_dec (ulp_exp f x) (ulp_exp f y)) as [E | NE].
  - rewrite !round_Q_unfold by assumption. rewrite E.
    set (e := ulp_exp f y). pose proof (p2_pos e) as Pe.
    assert (Hq : x / 2 ^ e <= y / 2 ^ e).
    { apply Qle_shift_div_l; [assumption |].
      assert (Hd : x / 2 ^ e * 2 ^ e == x) by (field; lra). rewrite Hd. assumption. }
    apply rhe_mono in Hq. rewrite Zle_Qle in Hq. nra.
  - assert (Hlt : (ulp_exp f x < ulp_exp f y)%Z) by lia.
    assert (Eyy : ulp_exp f y = (ilog2 y - (prec f - 1))%Z) by lia.
    destruct (ilog2_spec x Hx) as [_ Hxhi]. destruct (ilog2_spec y Hy) as [Hylo _].
    set (B := inject_Z (2 ^ (prec f - 1)) * 2 ^ ulp_exp f y).
    assert (EB : B == 2 ^ ilog2 y).
    { unfold B. rewrite <- p2_Z by lia. rewrite <- p2_add.
      now replace (prec f - 1 + ulp_exp f y)%Z with (ilog2 y) by lia. }
    assert (HxB : x <= B).
    { rewrite EB. assert (2 ^ (ilog2 x + 1) <= 2 ^ ilog2 y) by (apply p2_le; lia). lra. }
    assert (HBy : B <= y) by (rewrite EB; assumption).
    assert (Hpow : (0 < 2 ^ (prec f - 1) < 2 ^ prec f)%Z).
    { split; [apply Z.pow_pos_nonneg; lia |]. apply Z.pow_lt_mono_r; lia. }
    assert (H1 : round_Q f x <= B) by (apply round_Q_le; try assumption; lia).
    assert (H2 : B <= round_Q f y) by (apply round_Q_ge; try assumption; lia).
    lra.
Qed.

Lemma round_Finite_inv (f : format) (x p : Q) :
  round f x = Finite p -> p = Qred (round_Q f x).
Proof.
  unfold round. cbv zeta.
  destruct (Qle_bool _ _); [discriminate | now intros [= <-]].
Qed.

End RoundingOrder.

(** The value of [_smallest_size_at_least] on sizes that binary32 holds
    exactly: both sides are floors of rounded products with one and the
    same positive ratio. *)
Lemma smallest_size_at_least_sides (height width smallest_side : Z) :
  0 < height < 2 ^ 24 -> 0 < width < 2 ^ 24 -> 0 < smallest_side < 2 ^ 24 - 1 ->
  Z.max height width * smallest_side <= 2 ^ 30 * Z.min height width ->
  exists scale : Q,
    (0 < scale)%Q
    /\ _smallest_size_at_least height width smallest_side
       = (Qfloor (round_Q binary32 (inject_Z height * scale)),
          Qfloor (round_Q binary32 (inject_Z width * scale)))
    /\ smallest_side - 1 <= Qfloor (round_Q binary32 (inject_Z height * scale))
    /\ smallest_side - 1 <= Qfloor (round_Q binary32 (inject_Z width * scale))
    /\ (height <= width ->
        Qfloor (round_Q binary32 (inject_Z height * scale)) <= smallest_side + 1)
    /\ (width <= height ->
        Qfloor (round_Q binary32 (inject_Z width * scale)) <= smallest_side + 1).
Proof.
  intros Hh Hw Hs Hfit.
  set (m := Z.min height width) in *.
  set (x := (inject_Z smallest_side / inject_Z m)%Q).
  assert (Hm : 0 < m < 2 ^ 24) by (unfold m; lia).
  unfold _smallest_size_at_least, tf_cast_float32.
  rewrite (of_Z_exact height), (of_Z_exact width), (of_Z_exact smallest_side)
    by (change (2 ^ 24) with 16777216 in *; lia).
  rewrite tf_minimum_exact. fold m.
  change (2 ^ 24) with 16777216 in *. change (2 ^ 30) with 1073741824 in *.
  assert (Qm : (1 <= inject_Z m)%Q)
    by (change 1%Q with (inject_Z 1); rewrite <- Zle_Qle; lia).
  assert (Qm' : (inject_Z m <= 16777215)%Q)
    by (change 16777215%Q with (inject_Z 16777215); rewrite <- Zle_Qle; lia).
  assert (Qs : (1 <= inject_Z smallest_side)%Q)
    by (change 1%Q with (inject_Z 1); rewrite <- Zle_Qle; lia).
  assert (Ex : (x * inject_Z m == inject_Z smallest_side)%Q) by (unfold x; field; lra).
  assert (Hx : (0 < x)%Q) by (unfold x; apply Qlt_shift_div_l; lra).
  assert (Hx_hi : (x <= inject_Z smallest_side * 2 ^ 0)%Q) by (rewrite p2_0; nra).
  assert (Hx_lo : (2 ^ (-24) < x)%Q) by (rewrite u24; nra).
  destruct (round32_finite x smallest_side 0 Hx ltac:(lia) ltac:(lia) Hx_hi)
    as (Hround & _ & _).
  assert (Hnormal : emin binary32 <= ilog2 x - (prec binary32 - 1)).
  { destruct (ilog2_spec x Hx) as [_ Hup].
    assert (Hlt : (2 ^ (-24) < 2 ^ (ilog2 x + 1))%Q) by lra.
    apply p2_lt_inv in Hlt. cbn [emin prec binary32]. lia. }
  destruct (round_Q_error binary32 x ltac:(cbn; lia) Hx Hnormal) as [Elo Ehi].
  change (- prec binary32) with (-24) in Elo, Ehi.
  set (scale := Qred (round_Q binary32 x)).
  assert (Es : (scale == round_Q binary32 x)%Q) by apply Qred_correct.
  assert (Hdiv : div binary32 (Finite (inject_Z smallest_side)) (Finite (inject_Z m))
                 = Finite scale).
  { unfold div, is_zero.
    destruct (Qeq_bool (inject_Z m) 0) eqn:E0; [apply Qeq_bool_eq in E0; lra |].
    exact Hround. }
  rewrite Hdiv.
  destruct (scaled_side height smallest_side m scale) as (ph & Hph & Hch & Hlo_h & Hhi_h);
    try (rewrite Es; assumption); try (unfold m; nia).
  destruct (scaled_side width smallest_side m scale) as (pw & Hpw & Hcw & Hlo_w & Hhi_w);
    try (rewrite Es; assumption); try (unfold m; nia).
  rewrite Hph, Hpw, Hch, Hcw.
  unfold mul in Hph, Hpw.
  apply round_Finite_inv in Hph, Hpw.
  assert (Fh : Qfloor ph = Qfloor (round_Q binary32 (inject_Z height * scale)))
    by (subst ph; apply Qfloor_comp, Qred_correct).
  assert (Fw : Qfloor pw = Qfloor (round_Q binary32 (inject_Z width * scale)))
    by (subst pw; apply Qfloor_comp, Qred_correct).
  exists scale. rewrite <- Fh, <- Fw.
  assert (Hsc : (0 < scale)%Q).
  { rewrite Es. rewrite u24 in Elo. nra. }
  repeat split; try assumption.
  - intros Hc. apply Hhi_h. unfold m. lia.
  - intros Hc. apply Hhi_w. unfold m. lia.
Qed.

Lemma Qred_idem_eq (a b : Q) : (Qred a == Qred b)%Q -> Qred a = Qred b.
Proof.
  intros H. apply Qred_complete. now rewrite !Qred_correct in H.
Qed.

(** The result of [round] is infinite or a reduced fraction. *)
Lemma round_canonical (f : format) (x : Q) :
  (exists s, round f x = Inf s) \/ (exists q, round f x = Finite (Qred q)).
Proof.
  unfold round. cbv zeta. destruct (Qle_bool _ _); eauto.
Qed.

Lemma tf_minimum_comm_round (f : format) (x y : Q) :
  tf_minimum (round f x) (round f y) = tf_minimum (round f y) (round f x).
Proof.
  destruct (round_canonical f x) as [[s ->] | [a ->]];
    destruct (round_canonical f y) as [[t ->] | [b ->]];
    unfold tf_minimum, ltb; try (destruct s); try (destruct t); try reflexivity.
  unfold Qltb.
  destruct (Qle_bool (Qred a) (Qred b)) eqn:E1; destruct (Qle_bool (Qred b) (Qred a)) eqn:E2;
    cbn [negb]; try reflexivity.
  - apply Qle_bool_iff in E1, E2. f_equal. apply Qred_idem_eq. lra.
  - exfalso.
    assert (~ (Qred a <= Qred b)%Q) by (intros Hc; apply Qle_bool_iff in Hc; congruence).
    assert (~ (Qred b <= Qred a)%Q) by (intros Hc; apply Qle_bool_iff in Hc; congruence).
    lra.
Qed.

(** Property X5.  [_smallest_size_at_least] treats its two sides alike:
    exchanging [height] and [width] exchanges the two results, for all
    integers, exact in binary32 or not (the only place where the order of
    the arguments could matter is [tf.minimum], and it does not). *)
Theorem smallest_size_at_least_swap (height width smallest_side : Z) :
  _smallest_size_at_least width height smallest_side
  = (snd (_smallest_size_at_least height width smallest_side),
     fst (_smallest_size_at_least height width smallest_side)).
Proof.
  unfold _smallest_size_at_least, tf_cast_float32, of_Z. cbn [fst snd].
  now rewrite (tf_minimum_comm_round binary32 (inject_Z width) (inject_Z height)).
Qed.

(** Property X6.  On the range where binary32 holds the sizes exactly,
    [_smallest_size_at_least] keeps the orientation of the image: the
    shorter side stays the shorter one, because both sides are multiplied
    by the same binary32 ratio and rounding and truncation are monotone. *)
Theorem smallest_size_at_least_keeps_orientation (height width smallest_side : Z) :
  0 < height < 2 ^ 24 -> 0 < width < 2 ^ 24 -> 0 < smallest_side < 2 ^ 24 - 1 ->
  Z.max height width * smallest_side <= 2 ^ 30 * Z.min height width ->
  height <= width ->
  fst (_smallest_size_at_least height width smallest_side)
  <= snd (_smallest_size_at_least height width smallest_side).
Proof.
  intros Hh Hw Hs Hfit Hle.
  destruct (smallest_size_at_least_sides height width smallest_side Hh Hw Hs Hfit)
    as (scale & Hsc & -> & _).
  cbn [fst snd]. apply Qfloor_resp_le.
  assert (Qh : (0 < inject_Z height)%Q) by (apply inject_Z_pos; lia).
  assert (Qhw : (inject_Z height <= inject_Z width)%Q) by (now rewrite <- Zle_Qle).
  apply round_Q_mono; [cbn; lia | nra | nra].
Qed.

Lemma smallest_size_at_least_keeps_orientation_witness :
  fst (_smallest_size_at_least 300 400 256) <= snd (_smallest_size_at_least 300 400 256).
Proof.
  apply (smallest_size_at_least_keeps_orientation 300 400 256); cbn; lia.
Defined.

(* ===================================================================== *)
(** * Tensors, the mirror and the croppers, step by step *)
(* ===================================================================== *)

Lemma tf_cast_int32_in_int32 (x : f32) : in_int32 (tf_cast_int32 x) = true.
Proof.
  unfold tf_cast_int32. destruct x as [q | s |]; try reflexivity.
  cbv zeta. destruct (in_int32 (Qtrunc q)) eqn:E; [exact E | reflexivity].
Qed.

Lemma smallest_size_at_least_in_int32 (height width smallest_side : Z) :
  in_int32 (fst (_smallest_size_at_least height width smallest_side)) = true
  /\ in_int32 (snd (_smallest_size_at_least height width smallest_side)) = true.
Proof. unfold _smallest_size_at_least. cbn [fst snd]. split; apply tf_cast_int32_in_int32. Qed.

Lemma tensor_wf_intro3 (t : tensor) (h w c : nat) :
  shape t = [h; w; c] -> length (data t) = numel (shape t) ->
  Z.of_nat h < 2147483648 -> Z.of_nat w < 2147483648 -> Z.of_nat c < 2147483648 ->
  tensor_wf t.
Proof.
  intros Hs Hl Hh Hw Hc. unfold tensor_wf, tensor_wfb. rewrite Hl, Nat.eqb_refl, Hs.
  cbn [andb forallb]. change (2 ^ 31) with 2147483648.
  repeat (apply andb_true_intro; split); try reflexivity; lia.
Qed.

Lemma get_elementwise_length (op : f32 -> f32 -> f32) (a b : tensor) (idx : list nat) :
  length (data a) = numel (shape a) -> shape b = shape a ->
  length (data b) = numel (shape b) ->
  Forall2 (fun i d => (i < d)%nat) idx (shape a) ->
  get (tf_elementwise op a b) idx = op (get a idx) (get b idx).
Proof.
  intros Hla Hsb Hlb Hidx. unfold get, tf_elementwise; cbn [shape data].
  destruct (ravel_unravel _ _ Hidx) as [Hlt _]. rewrite Hsb.
  apply nth_zip_with.
  - now rewrite Hla.
  - now rewrite Hlb, Hsb.
Qed.

Lemma length_elementwise (op : f32 -> f32 -> f32) (a b : tensor) :
  length (data a) = numel (shape a) -> shape b = shape a ->
  length (data b) = numel (shape b) ->
  length (data (tf_elementwise op a b)) = numel (shape (tf_elementwise op a b)).
Proof.
  intros Hla Hsb Hlb. unfold tf_elementwise; cbn [shape data].
  rewrite length_zip_with. rewrite Hla, Hlb, Hsb. lia.
Qed.

(** ** The mirror *)

Lemma shape_reverse_width (t : tensor) : shape (tf_reverse_width t) = shape t.
Proof.
  unfold tf_reverse_width.
  destruct (shape t) as [| h [| w [| c [| ? ?]]]] eqn:E; try exact E. reflexivity.
Qed.

Lemma length_reverse_width (t : tensor) :
  length (data t) = numel (shape t) ->
  length (data (tf_reverse_width t)) = numel (shape (tf_reverse_width t)).
Proof.
  intros Hl. rewrite shape_reverse_width. unfold tf_reverse_width.
  destruct (shape t) as [| h [| w [| c [| ? ?]]]] eqn:E; try (now rewrite Hl).
  apply length_tensor_init.
Qed.

Lemma get_reverse_width (t : tensor) (h w c i j k : nat) :
  shape t = [h; w; c] -> (i < h)%nat -> (j < w)%nat -> (k < c)%nat ->
  get (tf_reverse_width t) [i; j; k] = get t [i; (w - 1 - j)%nat; k].
Proof.
  intros Hs Hi Hj Hk. unfold tf_reverse_width. rewrite Hs.
  now rewrite get_tensor_init by (now apply index3_in_range).
Qed.

Lemma flip_run (t : tensor) (h w c : nat) (g : rng) :
  shape t = [h; w; c] -> (0 < h)%nat -> (0 < w)%nat -> (0 < c)%nat ->
  tf_image_random_flip_left_right t g
  = (Ok (if Z.land (bits g (pos g) mod 2 ^ 32) (2 ^ 23 - 1) <? 2 ^ 22
         then tf_reverse_width t else t),
     Rng (bits g) (S (pos g))).
Proof.
  intros Hs Hh Hw Hc. unfold tf_image_random_flip_left_right. rewrite Hs.
  cbn [existsb orb].
  destruct (Nat.eqb_spec 0 h); [lia |]. destruct (Nat.eqb_spec 0 w); [lia |].
  destruct (Nat.eqb_spec 0 c); [lia |]. cbn [orb].
  reflexivity.
Qed.

Lemma flip_zero_dim (t : tensor) (h w c : nat) (g : rng) :
  shape t = [h; w; c] -> (h = 0 \/ w = 0 \/ c = 0)%nat ->
  tf_image_random_flip_left_right t g
  = (Raise (ValueError "all dims of 'image.shape' must be > 0"), g).
Proof.
  intros Hs Hz. unfold tf_image_random_flip_left_right. rewrite Hs.
  assert (E : existsb (Nat.eqb 0) [h; w; c] = true).
  { cbn [existsb]. destruct Hz as [-> | [-> | ->]]; cbn;
      rewrite ?orb_true_r; reflexivity. }
  now rewrite E.
Qed.

Lemma tf_random_uniform_range (minval maxval : Z) (g : rng) :
  in_int32 minval = true -> in_int32 maxval = true -> minval < maxval ->
  tf_random_uniform minval maxval g =
    (Ok (minval + (bits g (pos g) mod 2 ^ 32) mod (maxval - minval)),
     Rng (bits g) (S (pos g))).
Proof.
  intros Hlo Hhi Hlt. unfold tf_random_uniform.
  rewrite !convert_int32_ok by assumption. do 2 rand_ok.
  destruct (Z.ltb_spec minval maxval); [| lia]. reflexivity.
Qed.

Lemma tf_random_uniform_no_range (minval maxval : Z) (g : rng) :
  in_int32 minval = true -> in_int32 maxval = true -> maxval <= minval ->
  tf_random_uniform minval maxval g = (Raise (InvalidArgumentError "RandomUniformInt"), g).
Proof.
  intros Hlo Hhi Hle. unfold tf_random_uniform.
  rewrite !convert_int32_ok by assumption. do 2 rand_ok.
  destruct (Z.ltb_spec minval maxval); [lia | reflexivity].
Qed.

(** ** The croppers, step by step *)

Lemma central_crop_slice (image : tensor) (H W C : nat) (h w : Z) :
  tensor_wf image -> shape image = [H; W; C] ->
  0 <= h <= Z.of_nat H -> 0 <= w <= Z.of_nat W ->
  _central_crop image h w
  = tf_slice image [(Z.of_nat H - h) / 2; (Z.of_nat W - w) / 2; 0] [h; w; -1]
  /\ 0 <= (Z.of_nat H - h) / 2 <= Z.of_nat H - h
  /\ 0 <= (Z.of_nat W - w) / 2 <= Z.of_nat W - w.
Proof.
  intros Hwf Hs Hh Hw.
  destruct (tensor_wf_dims3 image H W C Hwf Hs) as (BH & BW & _).
  assert (Dh : 0 <= (Z.of_nat H - h) / 2 <= Z.of_nat H - h).
  { pose proof (Z.div_mod (Z.of_nat H - h) 2 ltac:(lia)).
    pose proof (Z.mod_pos_bound (Z.of_nat H - h) 2 ltac:(lia)). lia. }
  assert (Dw : 0 <= (Z.of_nat W - w) / 2 <= Z.of_nat W - w).
  { pose proof (Z.div_mod (Z.of_nat W - w) 2 ltac:(lia)).
    pose proof (Z.mod_pos_bound (Z.of_nat W - w) 2 ltac:(lia)). lia. }
  split; [| split; assumption].
  unfold _central_crop. rewrite (get_h_w_shape3 image H W C Hs). cbn [mbind result_bind].
  rewrite tf_sub_small by (apply in_int32_iff; lia). cbn [mbind result_bind].
  rewrite tf_floordiv_2 by (apply in_int32_iff; lia). cbn [mbind result_bind].
  rewrite tf_sub_small by (apply in_int32_iff; lia). cbn [mbind result_bind].
  rewrite tf_floordiv_2 by (apply in_int32_iff; lia). cbn [mbind result_bind].
  reflexivity.
Qed.

Lemma random_crop_and_flip_steps (image : tensor) (H W C : nat)
    (crop_height crop_width : Z) (g : rng) :
  tensor_wf image -> shape image = [H; W; C] ->
  0 < crop_height <= Z.of_nat H -> 0 < crop_width <= Z.of_nat W ->
  let top := (bits g (pos g) mod 2 ^ 32) mod (Z.of_nat H - crop_height + 1) in
  let left := (bits g (S (pos g)) mod 2 ^ 32) mod (Z.of_nat W - crop_width + 1) in
  0 <= top <= Z.of_nat H - crop_height
  /\ 0 <= left <= Z.of_nat W - crop_width
  /\ _random_crop_and_flip image crop_height crop_width g
     = (cropped ← lift (tf_slice image [top; left; 0] [crop_height; crop_width; -1]);
        tf_image_random_flip_left_right cropped) (Rng (bits g) (S (S (pos g)))).
Proof.
  intros Hwf Hs Hh Hw top left.
  destruct (tensor_wf_dims3 image H W C Hwf Hs) as (BH & BW & _).
  set (mh := Z.of_nat H - crop_height + 1) in *.
  set (mw := Z.of_nat W - crop_width + 1) in *.
  assert (Imh : in_int32 mh = true) by (apply in_int32_iff; lia).
  assert (Imw : in_int32 mw = true) by (apply in_int32_iff; lia).
  pose proof (tf_random_uniform_draw mh g ltac:(lia) Imh) as D1.
  pose proof (tf_random_uniform_draw mw (Rng (bits g) (S (pos g))) ltac:(lia) Imw) as D2.
  cbn [bits pos] in D2. fold top in D1. fold left in D2.
  assert (Rt : 0 <= top < mh) by (apply Z.mod_pos_bound; lia).
  assert (Rl : 0 <= left < mw) by (apply Z.mod_pos_bound; lia).
  split; [lia |]. split; [lia |].
  unfold _random_crop_and_flip.
  rewrite (get_h_w_shape3 image H W C Hs). rand_ok.
  rewrite (tf_sub_small (Z.of_nat H)) by (apply in_int32_iff; lia). rand_ok.
  rewrite (tf_add_small (Z.of_nat H - crop_height)) by (apply in_int32_iff; lia). rand_ok.
  rewrite (rand_bind_ok _ _ _ _ _ D1).
  rewrite (tf_sub_small (Z.of_nat W)) by (apply in_int32_iff; lia). rand_ok.
  rewrite (tf_add_small (Z.of_nat W - crop_width)) by (apply in_int32_iff; lia). rand_ok.
  rewrite (rand_bind_ok _ _ _ _ _ D2).
  reflexivity.
Qed.

Lemma length_slice (image out : tensor) (begin size : list Z) :
  tf_slice image begin size = Ok out -> length (data out) = numel (shape out).
Proof.
  unfold tf_slice.
  destruct (mapM convert_int32 begin) as [b | e]; cbn [mbind result_bind]; [| discriminate].
  destruct (mapM convert_int32 size) as [z | e]; cbn [mbind result_bind]; [| discriminate].
  unfold slice_kernel. cbv zeta. destruct (negb _); [discriminate |].
  destruct (slice_ok _ _ _); [| discriminate].
  intros [= <-]. apply length_tensor_init.
Qed.

(* ===================================================================== *)
(** * Random crop and flip, end to end *)
(* ===================================================================== *)

Lemma reverse_window (image cropped : tensor) (h w c : nat) (top left : Z) :
  shape cropped = [h; w; c] -> window_of image cropped top left ->
  mirrored_window_of image (tf_reverse_width cropped) top left.
Proof.
  intros Hs Hwin i j k Hidx. rewrite shape_reverse_width, Hs in *.
  inversion Hidx as [| ? ? ? ? Hi Hidx1]; subst.
  inversion Hidx1 as [| ? ? ? ? Hj Hidx2]; subst.
  inversion Hidx2 as [| ? ? ? ? Hk _]; subst.
  rewrite (get_reverse_width cropped h w c) by assumption.
  cbn [nth]. apply Hwin. rewrite Hs. apply index3_in_range; lia.
Qed.

Lemma random_crop_and_flip_run (image : tensor) (H W C : nat)
    (crop_height crop_width : Z) (g : rng) :
  tensor_wf image -> shape image = [H; W; C] -> (0 < C)%nat ->
  0 < crop_height <= Z.of_nat H -> 0 < crop_width <= Z.of_nat W ->
  let top := (bits g (pos g) mod 2 ^ 32) mod (Z.of_nat H - crop_height + 1) in
  let left := (bits g (S (pos g)) mod 2 ^ 32) mod (Z.of_nat W - crop_width + 1) in
  let mirror := Z.land (bits g (S (S (pos g))) mod 2 ^ 32) (2 ^ 23 - 1) <? 2 ^ 22 in
  exists cropped,
    tf_slice image [top; left; 0] [crop_height; crop_width; -1] = Ok cropped
    /\ shape cropped = [Z.to_nat crop_height; Z.to_nat crop_width; C]
    /\ window_of image cropped top left
    /\ 0 <= top <= Z.of_nat H - crop_height
    /\ 0 <= left <= Z.of_nat W - crop_width
    /\ _random_crop_and_flip image crop_height crop_width g
       = (Ok (if mirror then tf_reverse_width cropped else cropped),
          Rng (bits g) (S (S (S (pos g))))).
Proof.
  intros Hwf Hs HC Hh Hw top left mirror.
  destruct (random_crop_and_flip_steps image H W C crop_height crop_width g Hwf Hs Hh Hw)
    as (Rt & Rl & Hrun).
  fold top left in Rt, Rl, Hrun.
  destruct (tensor_wf_dims3 image H W C Hwf Hs) as (BH & BW & _).
  destruct (tf_slice_window image H W C top left crop_height crop_width)
    as (cropped & Hslice & Hshape & Hwin); try lia; try assumption.
  exists cropped. repeat (split; [assumption |]).
  rewrite Hrun, Hslice. rand_ok.
  rewrite (flip_run cropped _ _ _ _ Hshape) by lia. reflexivity.
Qed.

(** Property X1.  [_random_crop_and_flip] on an image of size [H x W]
    with at least one channel and [0 < crop_height <= H],
    [0 < crop_width <= W] never fails.  For every state of the random
    source it makes exactly three draws and returns an image of shape
    [(crop_height, crop_width, C)]: the window whose corner is the first
    word reduced modulo [H - crop_height + 1] and the second word reduced
    modulo [W - crop_width + 1], flipped left to right exactly when the
    low 23 bits of the third word are below [2 ^ 22]. *)
Theorem random_crop_and_flip_result (image : tensor) (H W C : nat)
    (crop_height crop_width : Z) :
  tensor_wf image -> shape image = [H; W; C] -> (0 < C)%nat ->
  0 < crop_height <= Z.of_nat H -> 0 < crop_width <= Z.of_nat W ->
  forall g : rng,
    let top := (bits g (pos g) mod 2 ^ 32) mod (Z.of_nat H - crop_height + 1) in
    let left := (bits g (1 + pos g) mod 2 ^ 32) mod (Z.of_nat W - crop_width + 1) in
    exists out : tensor,
      0 <= top <= Z.of_nat H - crop_height
      /\ 0 <= left <= Z.of_nat W - crop_width
      /\ _random_crop_and_flip image crop_height crop_width g
         = (Ok out, Rng (bits g) (3 + pos g))
      /\ shape out = [Z.to_nat crop_height; Z.to_nat crop_width; C]
      /\ if Z.land (bits g (2 + pos g) mod 2 ^ 32) (2 ^ 23 - 1) <? 2 ^ 22
         then mirrored_window_of image out top left
         else window_of image out top left.
Proof.
  intros Hwf Hs HC Hh Hw g.
  destruct (random_crop_and_flip_run image H W C crop_height crop_width g Hwf Hs HC Hh Hw)
    as (cropped & _ & Hshape & Hwin & Rt & Rl & Hrun).
  cbv zeta. change (1 + pos g)%nat with (S (pos g)).
  change (2 + pos g)%nat with (S (S (pos g))).
  eexists. split; [exact Rt |]. split; [exact Rl |].
  split; [exact Hrun |].
  destruct (Z.land _ _ <? _).
  - split; [now rewrite shape_reverse_width |].
    now apply (reverse_window image cropped _ _ _ _ _ Hshape).
  - split; assumption.
Qed.

Lemma random_crop_and_flip_result_witness :
  let top := (bits example_rng (pos example_rng) mod 2 ^ 32) mod (Z.of_nat 4 - 2 + 1) in
  let left := (bits example_rng (1 + pos example_rng) mod 2 ^ 32) mod (Z.of_nat 5 - 3 + 1) in
  exists out : tensor,
    0 <= top <= Z.of_nat 4 - 2
    /\ 0 <= left <= Z.of_nat 5 - 3
    /\ _random_crop_and_flip (example_image 4 5 2) 2 3 example_rng
       = (Ok out, Rng (bits example_rng) (3 + pos example_rng))
    /\ shape out = [Z.to_nat 2; Z.to_nat 3; 2%nat]
    /\ if Z.land (bits example_rng (2 + pos example_rng) mod 2 ^ 32) (2 ^ 23 - 1) <? 2 ^ 22
       then mirrored_window_of (example_image 4 5 2) out top left
       else window_of (example_image 4 5 2) out top left.
Proof.
  apply (random_crop_and_flip_result (example_image 4 5 2) 4 5 2 2 3);
    [reflexivity | reflexivity | lia | cbn; lia | cbn; lia].
Defined.

(** Property X2.  Every window position and either orientation is
    produced by [_random_crop_and_flip] for some state of the random
    source. *)
Theorem random_crop_and_flip_reaches (image : tensor) (H W C : nat)
    (crop_height crop_width : Z) :
  tensor_wf image -> shape image = [H; W; C] -> (0 < C)%nat ->
  0 < crop_height <= Z.of_nat H -> 0 < crop_width <= Z.of_nat W ->
  forall (top left : Z) (mirrored : bool),
    0 <= top <= Z.of_nat H - crop_height ->
    0 <= left <= Z.of_nat W - crop_width ->
    exists (g g' : rng) (out : tensor),
      _random_crop_and_flip image crop_height crop_width g = (Ok out, g')
      /\ if mirrored then mirrored_window_of image out top left
         else window_of image out top left.
Proof.
  intros Hwf Hs HC Hh Hw top left mirrored Ht Hl.
  destruct (tensor_wf_dims3 image H W C Hwf Hs) as (BH & BW & _).
  set (g := rng_of_three top left (if mirrored then 0 else 2 ^ 22)).
  destruct (random_crop_and_flip_run image H W C crop_height crop_width g Hwf Hs HC Hh Hw)
    as (cropped & _ & Hshape & Hwin & _ & _ & Hrun).
  cbn [g rng_of_three bits pos] in Hrun, Hwin.
  change (2 ^ 32) with 4294967296 in Hrun, Hwin.
  rewrite !(Z.mod_small _ 4294967296) in Hrun by (destruct mirrored; cbn; lia).
  rewrite !(Z.mod_small _ 4294967296) in Hwin by lia.
  rewrite (Z.mod_small top), (Z.mod_small left) in Hwin by lia.
  eexists g, _, _. split; [exact Hrun |].
  destruct mirrored.
  - change (Z.land 0 (2 ^ 23 - 1) <? 2 ^ 22) with true. cbv iota.
    now apply (reverse_window image cropped _ _ _ _ _ Hshape).
  - change (Z.land (2 ^ 22) (2 ^ 23 - 1) <? 2 ^ 22) with false. cbv iota. assumption.
Qed.

Lemma random_crop_and_flip_reaches_witness :
  exists (g g' : rng) (out : tensor),
    _random_crop_and_flip (example_image 4 5 2) 2 3 g = (Ok out, g')
    /\ mirrored_window_of (example_image 4 5 2) out 2 1.
Proof.
  apply (random_crop_and_flip_reaches (example_image 4 5 2) 4 5 2 2 3
           eq_refl eq_refl ltac:(lia) ltac:(cbn; lia) ltac:(cbn; lia) 2 1 true);
    cbn; lia.
Defined.

(* ===================================================================== *)
(** * Mean subtraction and the resize *)
(* ===================================================================== *)

(** Property X3.  [_mean_image_subtraction] returns a result exactly when
    the image has rank 3, [means] has one entry per channel and every
    mean is in the range of binary32; once its two checks pass, only the
    conversion of the list to a binary32 tensor can still fail, and the
    broadcast and the subtraction cannot. *)
Theorem mean_image_subtraction_succeeds_iff (image : tensor) (means : list float) :
  (exists out, _mean_image_subtraction image means = Ok out)
  <-> exists H W C : nat,
        shape image = [H; W; C] /\ length means = C
        /\ existsb float32_overflow means = false.
Proof.
  split.
  - intros [out Hout]. unfold _mean_image_subtraction, get_shape, ndims in Hout.
    destruct (shape image) as [| H [| W [| C [| ? ?]]]] eqn:Hs;
      cbn [length Nat.eqb negb] in Hout; try discriminate.
    exists H, W, C. split; [reflexivity |].
    unfold as_list_last in Hout. cbn [rev app mbind result_bind] in Hout.
    destruct (Z.eqb_spec (Z.of_nat (length means)) (Z.of_nat C)); [| discriminate].
    split; [lia |]. cbn [negb] in Hout.
    unfold tf_broadcast_to, convert_float32 in Hout.
    destruct (existsb float32_overflow means); [discriminate | reflexivity].
  - intros (H & W & C & Hs & Hlen & Hin).
    unfold _mean_image_subtraction, get_shape, ndims, as_list_last. rewrite Hs.
    cbn [length Nat.eqb negb rev app mbind result_bind].
    destruct (Z.eqb_spec (Z.of_nat (length means)) (Z.of_nat C)); [| lia].
    cbn [negb].
    destruct (tf_broadcast_to_channels means image H W C Hs Hlen Hin) as (b & -> & _).
    cbn [mbind result_bind]. eauto.
Qed.

Lemma mean_image_subtraction_values (image : tensor) (H W C : nat) (means : list float) :
  length (data image) = numel (shape image) -> shape image = [H; W; C] ->
  length means = C -> existsb float32_overflow means = false ->
  exists out,
    _mean_image_subtraction image means = Ok out
    /\ shape out = [H; W; C]
    /\ length (data out) = numel (shape out)
    /\ forall i j k : nat, (i < H)%nat -> (j < W)%nat -> (k < C)%nat ->
         get out [i; j; k]
         = sub binary32 (get image [i; j; k])
             (nth k (map (convert binary32) means) (Finite 0)).
Proof.
  intros Hl Hs Hlen Hin.
  unfold _mean_image_subtraction, get_shape, ndims, as_list_last. rewrite Hs.
  cbn [length Nat.eqb negb rev app mbind result_bind].
  destruct (Z.eqb_spec (Z.of_nat (length means)) (Z.of_nat C)); [| lia].
  cbn [negb].
  destruct (tf_broadcast_to_channels means image H W C Hs Hlen Hin)
    as (b & -> & Hsb & Hlb & Hget).
  cbn [mbind result_bind]. eexists; split; [reflexivity |].
  split; [exact Hs |].
  split; [apply length_elementwise; congruence |].
  intros i j k Hi Hj Hk. unfold tf_subtract.
  rewrite get_elementwise_length; try assumption.
  - now rewrite Hget.
  - congruence.
  - rewrite Hs. now apply index3_in_range.
Qed.

Lemma scale_normalization_values (image : tensor) (H W C : nat) (stds : list float) :
  length (data image) = numel (shape image) -> shape image = [H; W; C] ->
  length stds = C -> existsb float32_overflow stds = false ->
  exists out,
    _scale_normalization image stds = Ok out
    /\ shape out = [H; W; C]
    /\ forall i j k : nat, (i < H)%nat -> (j < W)%nat -> (k < C)%nat ->
         get out [i; j; k]
         = div binary32 (get image [i; j; k])
             (nth k (map (convert binary32) stds) (Finite 0)).
Proof.
  intros Hl Hs Hlen Hin. unfold _scale_normalization.
  destruct (tf_broadcast_to_channels stds image H W C Hs Hlen Hin)
    as (b & -> & Hsb & Hlb & Hget).
  cbn [mbind result_bind]. eexists; split; [reflexivity |].
  split; [exact Hs |].
  intros i j k Hi Hj Hk. unfold tf_truediv.
  rewrite get_elementwise_length; try assumption.
  - now rewrite Hget.
  - congruence.
  - rewrite Hs. now apply index3_in_range.
Qed.

(** Property X4.  For means in the range of binary32,
    [_mean_image_subtraction] keeps the shape of the image and subtracts,
    in binary32, from every element the binary32 value of the mean of its
    channel. *)
Theorem mean_image_subtraction_subtracts
    (image : tensor) (H W C : nat) (means : list float) :
  tensor_wf image -> shape image = [H; W; C] -> length means = C ->
  existsb float32_overflow means = false ->
  exists out,
    _mean_image_subtraction image means = Ok out
    /\ shape out = [H; W; C]
    /\ forall (i j k : nat) (m : float),
         (i < H)%nat -> (j < W)%nat -> nth_error means k = Some m ->
         get out [i; j; k] = sub binary32 (get image [i; j; k]) (convert binary32 m).
Proof.
  intros Hwf Hs Hlen Hin.
  destruct (mean_image_subtraction_values image H W C means
              (tensor_wf_length image Hwf) Hs Hlen Hin) as (out & Hout & Hso & _ & Hget).
  exists out. split; [exact Hout |]. split; [exact Hso |].
  intros i j k m Hi Hj Hk.
  assert (Hk' : (k < C)%nat).
  { rewrite <- Hlen. apply nth_error_Some. congruence. }
  rewrite Hget by assumption.
  rewrite (nth_error_nth (map (convert binary32) means) k (Finite 0)
             (x := convert binary32 m)); [reflexivity |].
  now rewrite nth_error_map, Hk.
Qed.

Lemma mean_image_subtraction_subtracts_witness :
  exists out,
    _mean_image_subtraction pixel_2_4_6 [py_float 1 1; py_float 1 2; py_float 8 1] = Ok out
    /\ shape out = [1; 1; 3]%nat
    /\ forall (i j k : nat) (m : float),
         (i < 1)%nat -> (j < 1)%nat ->
         nth_error [py_float 1 1; py_float 1 2; py_float 8 1] k = Some m ->
         get out [i; j; k] = sub binary32 (get pixel_2_4_6 [i; j; k]) (convert binary32 m).
Proof.
  apply (mean_image_subtraction_subtracts pixel_2_4_6 1 1 3
           [py_float 1 1; py_float 1 2; py_float 8 1]);
    reflexivity.
Defined.

(** ** Aspect-preserving resize *)

Section ResizeFacts.
Local Open Scope Q_scope.

Lemma round32_exact_Z (x : Q) (z : Z) :
  x == inject_Z z -> (0 < z < 2 ^ 24)%Z -> round binary32 x = Finite (inject_Z z).
Proof.
  intros Ex Hz.
  assert (Hz0 : 0 < inject_Z z) by (apply inject_Z_pos; lia).
  assert (Hx : 0 < x) by lra.
  assert (Hp : (1 <= prec binary32)%Z) by (cbn; lia).
  assert (Hz1 : x <= inject_Z z * 2 ^ 0) by (rewrite p2_0; lra).
  destruct (round32_finite x z 0 Hx ltac:(lia) ltac:(lia) Hz1) as (-> & _ & Hup).
  assert (Hlo : inject_Z z * 2 ^ 0 <= round_Q binary32 x).
  { apply round_Q_ge; try assumption; cbn [prec emin binary32]; try lia.
    rewrite p2_0; lra. }
  rewrite p2_0 in Hup, Hlo.
  assert (E : round_Q binary32 x == inject_Z z) by lra.
  f_equal. rewrite (Qred_complete _ _ E). apply Qred_inject_Z.
Qed.

Lemma tf_cast_int32_Z (z : Z) :
  in_int32 z = true -> tf_cast_int32 (Finite (inject_Z z)) = z.
Proof.
  intros Hz. unfold tf_cast_int32, Qtrunc. cbn [Qnum Qden inject_Z].
  rewrite Z.quot_1_r. cbv zeta. now rewrite Hz.
Qed.

End ResizeFacts.

(** When the smaller side already has the requested length the ratio is
    exactly one and both sides are kept. *)
Lemma smallest_size_at_least_fixed (height width : Z) :
  0 < height < 2 ^ 24 -> 0 < width < 2 ^ 24 ->
  _smallest_size_at_least height width (Z.min height width) = (height, width).
Proof.
  intros Hh Hw. set (m := Z.min height width).
  assert (Hm : 0 < m < 2 ^ 24) by (unfold m; lia).
  unfold _smallest_size_at_least, tf_cast_float32.
  rewrite (of_Z_exact height), (of_Z_exact width), (of_Z_exact m) by assumption.
  rewrite tf_minimum_exact. fold m.
  assert (Qm : (0 < inject_Z m)%Q) by (apply inject_Z_pos; lia).
  assert (Hdiv : div binary32 (Finite (inject_Z m)) (Finite (inject_Z m))
                 = Finite (inject_Z 1)).
  { unfold div, is_zero.
    destruct (Qeq_bool (inject_Z m) 0) eqn:E0; [apply Qeq_bool_eq in E0; lra |].
    apply round32_exact_Z; [| cbn; lia]. change (inject_Z 1) with 1%Q. field. lra. }
  rewrite Hdiv. unfold mul.
  rewrite (round32_exact_Z _ height), (round32_exact_Z _ width);
    try assumption; try (change (inject_Z 1) with 1%Q; ring).
  change (2 ^ 24) with 16777216 in *.
  rewrite !tf_cast_int32_Z by (apply in_int32_iff; lia). reflexivity.
Qed.

Lemma tf_image_resize_same (t : tensor) (h w c : nat) :
  shape t = [h; w; c] -> tf_image_resize t (Z.of_nat h) (Z.of_nat w) = Ok t.
Proof.
  intros Hs. unfold tf_image_resize. rewrite Hs.
  destruct (Z.ltb_spec (Z.of_nat h) (-1)); [lia |].
  destruct (Z.ltb_spec (Z.of_nat w) (-1)); [lia |].
  now rewrite !Z.eqb_refl.
Qed.

Lemma tf_image_resize_run (t : tensor) (h w c : nat) (new_height new_width : Z) :
  tensor_wf t -> shape t = [h; w; c] ->
  (0 < h)%nat -> (0 < w)%nat -> (0 < c)%nat ->
  0 < new_height < 2 ^ 31 -> 0 < new_width < 2 ^ 31 ->
  exists out,
    tf_image_resize t new_height new_width = Ok out
    /\ shape out = [Z.to_nat new_height; Z.to_nat new_width; c]
    /\ tensor_wf out.
Proof.
  intros Hwf Hs Hh Hw Hc Hnh Hnw.
  destruct (tensor_wf_dims3 t h w c Hwf Hs) as (Bh & Bw & Bc).
  change (2 ^ 31) with 2147483648 in *.
  unfold tf_image_resize. rewrite Hs.
  destruct (Z.ltb_spec new_height (-1)); [lia |].
  destruct (Z.ltb_spec new_width (-1)); [lia |].
  destruct ((Z.of_nat h =? new_height) && (Z.of_nat w =? new_width)) eqn:E.
  - apply andb_prop in E as [E1 E2]. apply Z.eqb_eq in E1, E2. subst.
    exists t. rewrite !Nat2Z.id. auto.
  - destruct (Z.ltb_spec 0 new_height); [| lia].
    destruct (Z.ltb_spec 0 new_width); [| lia].
    destruct (Nat.ltb_spec 0 c); [| lia]. destruct (Nat.ltb_spec 0 h); [| lia].
    destruct (Nat.ltb_spec 0 w); [| lia]. cbn [andb negb app].
    eexists; split; [reflexivity |]. split; [reflexivity |].
    eapply tensor_wf_intro3; [reflexivity | apply length_tensor_init | lia ..].
Qed.

Lemma aspect_preserving_resize_run (image : tensor) (H W C : nat) (smallest_side : Z) :
  tensor_wf image -> shape image = [H; W; C] -> (0 < C)%nat ->
  0 < Z.of_nat H < 2 ^ 24 -> 0 < Z.of_nat W < 2 ^ 24 ->
  2 <= smallest_side < 2 ^ 24 - 1 ->
  Z.max (Z.of_nat H) (Z.of_nat W) * smallest_side
    <= 2 ^ 30 * Z.min (Z.of_nat H) (Z.of_nat W) ->
  exists (resized : tensor) (new_height new_width : Z),
    _smallest_size_at_least (Z.of_nat H) (Z.of_nat W) smallest_side
    = (new_height, new_width)
    /\ _aspect_preserving_resize image smallest_side = Ok resized
    /\ shape resized = [Z.to_nat new_height; Z.to_nat new_width; C]
    /\ tensor_wf resized
    /\ smallest_side - 1 <= new_height /\ smallest_side - 1 <= new_width
    /\ Z.min new_height new_width <= smallest_side + 1.
Proof.
  intros Hwf Hs HC HH HW Hside Hfit.
  destruct (smallest_size_at_least_sides (Z.of_nat H) (Z.of_nat W) smallest_side
              HH HW ltac:(lia) Hfit) as (scale & _ & Hval & Lh & Lw & Uh & Uw).
  destruct (smallest_size_at_least_in_int32 (Z.of_nat H) (Z.of_nat W) smallest_side)
    as [Ih Iw].
  rewrite Hval in Ih, Iw. cbn [fst snd] in Ih, Iw.
  apply in_int32_iff in Ih, Iw.
  set (nh := Qfloor (round_Q binary32 (inject_Z (Z.of_nat H) * scale))) in *.
  set (nw := Qfloor (round_Q binary32 (inject_Z (Z.of_nat W) * scale))) in *.
  destruct (tf_image_resize_run image H W C nh nw Hwf Hs)
    as (resized & Hres & Hshape & Hwfr);
    try (change (2 ^ 31) with 2147483648); try lia.
  exists resized, nh, nw. split; [exact Hval |].
  split.
  { unfold _aspect_preserving_resize. rewrite (get_h_w_shape3 image H W C Hs).
    cbn [mbind result_bind]. now rewrite Hval. }
  repeat (split; [assumption |]).
  destruct (Z.le_ge_cases (Z.of_nat H) (Z.of_nat W)) as [Hc | Hc].
  - specialize (Uh Hc). lia.
  - specialize (Uw ltac:(lia)). lia.
Qed.

(** Property X7.  [_aspect_preserving_resize] of an image with sides
    below [2 ^ 24] to a smallest side of at least 2 succeeds; the result
    has the sides computed by [_smallest_size_at_least] and the channels
    of the input, and its smaller side is within 1 of [smallest_side]. *)
Theorem aspect_preserving_resize_shape (image : tensor) (H W C : nat) (smallest_side : Z) :
  tensor_wf image -> shape image = [H; W; C] -> (0 < C)%nat ->
  0 < Z.of_nat H < 2 ^ 24 -> 0 < Z.of_nat W < 2 ^ 24 ->
  2 <= smallest_side < 2 ^ 24 - 1 ->
  Z.max (Z.of_nat H) (Z.of_nat W) * smallest_side
    <= 2 ^ 30 * Z.min (Z.of_nat H) (Z.of_nat W) ->
  exists (resized : tensor) (new_height new_width : Z),
    _aspect_preserving_resize image smallest_side = Ok resized
    /\ _smallest_size_at_least (Z.of_nat H) (Z.of_nat W) smallest_side
       = (new_height, new_width)
    /\ tf_shape resized = [new_height; new_width; Z.of_nat C]
    /\ smallest_side - 1 <= Z.min new_height new_width <= smallest_side + 1.
Proof.
  intros Hwf Hs HC HH HW Hside Hfit.
  destruct (aspect_preserving_resize_run image H W C smallest_side Hwf Hs HC HH HW Hside Hfit)
    as (resized & nh & nw & Hval & Hres & Hshape & _ & Lh & Lw & Hmin).
  exists resized, nh, nw. split; [exact Hres |]. split; [exact Hval |].
  split; [| lia].
  unfold tf_shape. rewrite Hshape. cbn [map]. rewrite !Z2Nat.id by lia. reflexivity.
Qed.

Lemma aspect_preserving_resize_shape_witness :
  exists (resized : tensor) (new_height new_width : Z),
    _aspect_preserving_resize (example_image 2 3 3) 3 = Ok resized
    /\ _smallest_size_at_least (Z.of_nat 2) (Z.of_nat 3) 3 = (new_height, new_width)
    /\ tf_shape resized = [new_height; new_width; Z.of_nat 3]
    /\ 3 - 1 <= Z.min new_height new_width <= 3 + 1.
Proof.
  apply (aspect_preserving_resize_shape (example_image 2 3 3) 2 3 3 3);
    [reflexivity | reflexivity | lia | cbn; lia | cbn; lia | cbn; lia | cbn; lia].
Defined.

(** Property X8.  An image whose smaller side already has the requested
    length is returned unchanged by [_aspect_preserving_resize]: the ratio
    is exactly one in binary32, so both sides are kept and nothing is
    resampled. *)
Theorem aspect_preserving_resize_fixed (image : tensor) (H W C : nat) :
  shape image = [H; W; C] ->
  0 < Z.of_nat H < 2 ^ 24 -> 0 < Z.of_nat W < 2 ^ 24 ->
  _aspect_preserving_resize image (Z.min (Z.of_nat H) (Z.of_nat W)) = Ok image.
Proof.
  intros Hs HH HW. unfold _aspect_preserving_resize.
  rewrite (get_h_w_shape3 image H W C Hs). cbn [mbind result_bind].
  rewrite smallest_size_at_least_fixed by assumption.
  now apply (tf_image_resize_same image H W C).
Qed.

Lemma aspect_preserving_resize_fixed_witness :
  _aspect_preserving_resize (example_image 4 5 2) (Z.min (Z.of_nat 4) (Z.of_nat 5))
  = Ok (example_image 4 5 2).
Proof.
  apply (aspect_preserving_resize_fixed (example_image 4 5 2) 4 5 2);
    [reflexivity | cbn; lia | cbn; lia].
Defined.

(* ===================================================================== *)
(** * The orchestrator, run to the end *)
(* ===================================================================== *)

Lemma set_shape_same (t : tensor) (s : list Z) : tf_shape t = s -> set_shape t s = Ok t.
Proof. intros H. unfold set_shape. now destruct (decide (tf_shape t = s)). Qed.

Lemma tf_shape_of_nat3 (t : tensor) (h w : Z) (c : nat) :
  shape t = [Z.to_nat h; Z.to_nat w; c] -> 0 <= h -> 0 <= w ->
  tf_shape t = [h; w; Z.of_nat c].
Proof.
  intros Hs Hh Hw. unfold tf_shape. rewrite Hs. cbn [map].
  now rewrite !Z2Nat.id by assumption.
Qed.

Lemma nth_channel (k : nat) (a b c : float) :
  (k < 3)%nat ->
  nth k (map (convert binary32) [a; b; c]) (Finite 0)
  = convert binary32 (nth k [a; b; c] (Finite 0)).
Proof.
  intros Hk. destruct k as [| [| [| k]]]; try reflexivity. lia.
Qed.

(** Mean subtraction followed by scaling, on an image with three
    channels. *)
Lemma normalisation_run (cropped : tensor) (h w : nat) :
  shape cropped = [h; w; 3%nat] -> length (data cropped) = numel (shape cropped) ->
  exists centered out,
    _mean_image_subtraction cropped [_R_MEAN; _G_MEAN; _B_MEAN] = Ok centered
    /\ _scale_normalization centered [_R_STD; _G_STD; _B_STD] = Ok out
    /\ shape out = [h; w; 3%nat]
    /\ forall i j k : nat, (i < h)%nat -> (j < w)%nat -> (k < 3)%nat ->
         get out [i; j; k]
         = div binary32
             (sub binary32 (get cropped [i; j; k])
                (convert binary32 (nth k [_R_MEAN; _G_MEAN; _B_MEAN] (Finite 0))))
             (convert binary32 (nth k [_R_STD; _G_STD; _B_STD] (Finite 0))).
Proof.
  intros Hs Hl.
  destruct (mean_image_subtraction_values cropped h w 3 [_R_MEAN; _G_MEAN; _B_MEAN]
              Hl Hs eq_refl eq_refl) as (centered & Hmean & Hsc & Hlc & Hgc).
  destruct (scale_normalization_values centered h w 3 [_R_STD; _G_STD; _B_STD]
              Hlc Hsc eq_refl eq_refl) as (out & Hscale & Hso & Hgo).
  exists centered, out. repeat (split; [assumption |]).
  intros i j k Hi Hj Hk.
  rewrite Hgo, Hgc by assumption. now rewrite !nth_channel by assumption.
Qed.

Lemma as_list_last3 (t : tensor) (h w c : nat) :
  shape t = [h; w; c] -> as_list_last (get_shape t) = Ok (Z.of_nat c).
Proof. intros Hs. unfold as_list_last, get_shape. now rewrite Hs. Qed.

Lemma preprocess_image_evaluation_run (image : tensor) (H W : nat)
    (output_height output_width resize_side_min resize_side_max : Z) (g : rng) :
  tensor_wf image -> shape image = [H; W; 3%nat] ->
  0 < Z.of_nat H < 2 ^ 24 -> 0 < Z.of_nat W < 2 ^ 24 ->
  2 <= resize_side_min < 2 ^ 24 - 1 ->
  Z.max (Z.of_nat H) (Z.of_nat W) * resize_side_min
    <= 2 ^ 30 * Z.min (Z.of_nat H) (Z.of_nat W) ->
  0 <= output_height <= resize_side_min - 1 ->
  0 <= output_width <= resize_side_min - 1 ->
  exists (resized out : tensor) (new_height new_width : Z),
    _aspect_preserving_resize image resize_side_min = Ok resized
    /\ tf_shape resized = [new_height; new_width; 3]
    /\ output_height <= new_height /\ output_width <= new_width
    /\ preprocess_image image output_height output_width false
         resize_side_min resize_side_max g = (Ok out, g)
    /\ tf_shape out = [output_height; output_width; 3]
    /\ forall i j k : nat,
         Z.of_nat i < output_height -> Z.of_nat j < output_width -> (k < 3)%nat ->
         get out [i; j; k]
         = div binary32
             (sub binary32
                (get resized [(Z.to_nat ((new_height - output_height) / 2) + i)%nat;
                              (Z.to_nat ((new_width - output_width) / 2) + j)%nat; k])
                (convert binary32 (nth k [_R_MEAN; _G_MEAN; _B_MEAN] (Finite 0))))
             (convert binary32 (nth k [_R_STD; _G_STD; _B_STD] (Finite 0))).
Proof.
  intros Hwf Hs HH HW Hside Hfit Hoh How.
  destruct (aspect_preserving_resize_run image H W 3 resize_side_min Hwf Hs
              ltac:(lia) HH HW Hside Hfit)
    as (resized & nh & nw & _ & Hres & Hshape & Hwfr & Lh & Lw & _).
  assert (Hnh : Z.of_nat (Z.to_nat nh) = nh) by (apply Z2Nat.id; lia).
  assert (Hnw : Z.of_nat (Z.to_nat nw) = nw) by (apply Z2Nat.id; lia).
  destruct (central_crop_slice resized _ _ _ output_height output_width Hwfr Hshape)
    as (Hcrop & Dh & Dw); try lia.
  rewrite Hnh, Hnw in Hcrop. rewrite Hnh in Dh. rewrite Hnw in Dw.
  destruct (tensor_wf_dims3 resized _ _ _ Hwfr Hshape) as (BH & BW & _).
  destruct (tf_slice_window resized _ _ _ ((nh - output_height) / 2)
              ((nw - output_width) / 2) output_height output_width Hshape)
    as (cropped & Hslice & Hsc & Hwin); try lia.
  pose proof (length_slice _ _ _ _ Hslice) as Hlc.
  destruct (normalisation_run cropped _ _ Hsc Hlc)
    as (centered & out & Hmean & Hscale & Hso & Hget).
  exists resized, out, nh, nw.
  split; [exact Hres |].
  split; [apply (tf_shape_of_nat3 resized nh nw 3 Hshape); lia |].
  split; [lia |]. split; [lia |].
  split.
  { unfold preprocess_image.
    unfold mbind at 1, rand_bind at 1, mret, rand_ret. cbv beta iota.
    rewrite (as_list_last3 image H W 3 Hs). rand_ok.
    rewrite Hres. rand_ok.
    rewrite Hcrop, Hslice. rand_ok.
    rewrite (set_shape_same cropped)
      by (apply (tf_shape_of_nat3 cropped output_height output_width 3 Hsc); lia).
    rand_ok. unfold tf_cast_image. rewrite Hmean. rand_ok.
    rewrite Hscale. reflexivity. }
  split; [apply (tf_shape_of_nat3 out output_height output_width 3 Hso); lia |].
  intros i j k Hi Hj Hk.
  rewrite Hget by lia. rewrite Hwin; [reflexivity |].
  rewrite Hsc. apply index3_in_range; lia.
Qed.

Lemma preprocess_image_training_run (image : tensor) (H W : nat)
    (output_height output_width resize_side_min resize_side_max : Z) (g : rng) :
  tensor_wf image -> shape image = [H; W; 3%nat] ->
  0 < Z.of_nat H < 2 ^ 24 -> 0 < Z.of_nat W < 2 ^ 24 ->
  2 <= resize_side_min <= resize_side_max -> resize_side_max < 2 ^ 24 - 1 ->
  Z.max (Z.of_nat H) (Z.of_nat W) * resize_side_max
    <= 2 ^ 30 * Z.min (Z.of_nat H) (Z.of_nat W) ->
  0 < output_height <= resize_side_min - 1 ->
  0 < output_width <= resize_side_min - 1 ->
  let resize_side :=
    resize_side_min
    + (bits g (pos g) mod 2 ^ 32) mod (resize_side_max + 1 - resize_side_min) in
  exists resized cropped out : tensor,
    resize_side_min <= resize_side <= resize_side_max
    /\ _aspect_preserving_resize image resize_side = Ok resized
    /\ _random_crop_and_flip resized output_height output_width (Rng (bits g) (1 + pos g))
       = (Ok cropped, Rng (bits g) (4 + pos g))
    /\ preprocess_image image output_height output_width true
         resize_side_min resize_side_max g = (Ok out, Rng (bits g) (4 + pos g))
    /\ tf_shape out = [output_height; output_width; 3]
    /\ forall i j k : nat,
         Z.of_nat i < output_height -> Z.of_nat j < output_width -> (k < 3)%nat ->
         get out [i; j; k]
         = div binary32
             (sub binary32 (get cropped [i; j; k])
                (convert binary32 (nth k [_R_MEAN; _G_MEAN; _B_MEAN] (Finite 0))))
             (convert binary32 (nth k [_R_STD; _G_STD; _B_STD] (Finite 0))).
Proof.
  intros Hwf Hs HH HW Hside Hmax Hfit Hoh How resize_side.
  change (2 ^ 24) with 16777216 in *. change (2 ^ 30) with 1073741824 in *.
  assert (Hrange : resize_side_min <= resize_side <= resize_side_max).
  { pose proof (Z.mod_pos_bound (bits g (pos g) mod 2 ^ 32)
                  (resize_side_max + 1 - resize_side_min) ltac:(lia)).
    unfold resize_side. lia. }
  pose proof (tf_random_uniform_range resize_side_min (resize_side_max + 1) g
                ltac:(apply in_int32_iff; lia) ltac:(apply in_int32_iff; lia)
                ltac:(lia)) as Hdraw.
  fold resize_side in Hdraw.
  destruct (aspect_preserving_resize_run image H W 3 resize_side Hwf Hs
              ltac:(lia) ltac:(cbn; lia) ltac:(cbn; lia) ltac:(cbn; lia))
    as (resized & nh & nw & _ & Hres & Hshape & Hwfr & Lh & Lw & _).
  { change (2 ^ 30) with 1073741824. nia. }
  assert (Hnh : Z.of_nat (Z.to_nat nh) = nh) by (apply Z2Nat.id; lia).
  assert (Hnw : Z.of_nat (Z.to_nat nw) = nw) by (apply Z2Nat.id; lia).
  destruct (random_crop_and_flip_run resized _ _ _ output_height output_width
              (Rng (bits g) (S (pos g))) Hwfr Hshape)
    as (window & Hslice & Hsw & _ & _ & _ & Hrun); try lia.
  cbn [bits pos] in Hrun.
  set (cropped := if Z.land _ _ <? _ then tf_reverse_width window else window) in Hrun.
  pose proof (length_slice _ _ _ _ Hslice) as Hlw.
  assert (Hsc : shape cropped = [Z.to_nat output_height; Z.to_nat output_width; 3%nat]).
  { unfold cropped. destruct (_ <? _); [now rewrite shape_reverse_width | assumption]. }
  assert (Hlc : length (data cropped) = numel (shape cropped)).
  { unfold cropped. destruct (_ <? _); [now apply length_reverse_width | assumption]. }
  destruct (normalisation_run cropped _ _ Hsc Hlc)
    as (centered & out & Hmean & Hscale & Hso & Hget).
  exists resized, cropped, out.
  split; [exact Hrange |]. split; [exact Hres |]. split; [exact Hrun |].
  split.
  { unfold preprocess_image.
    rewrite (rand_bind_ok _ _ g (Rng (bits g) (S (pos g)))
               (resize_side, _random_crop_and_flip))
      by (now rewrite (rand_bind_ok _ _ _ _ _ Hdraw)).
    rewrite (as_list_last3 image H W 3 Hs). rand_ok.
    rewrite Hres. rand_ok.
    rewrite (rand_bind_ok _ _ _ _ _ Hrun).
    rewrite (set_shape_same cropped)
      by (apply (tf_shape_of_nat3 cropped output_height output_width 3 Hsc); lia).
    rand_ok. unfold tf_cast_image. rewrite Hmean. rand_ok.
    rewrite Hscale. reflexivity. }
  split; [apply (tf_shape_of_nat3 out output_height output_width 3 Hso); lia |].
  intros i j k Hi Hj Hk. apply Hget; lia.
Qed.

(** Property X9.  In evaluation mode [preprocess_image] succeeds on every
    RGB image with sides below [2 ^ 24] when the output size is at most
    [resize_side_min - 1] in each direction: the result has shape
    [(output_height, output_width, 3)], the random source is untouched,
    and the value at [(i, j, k)] is the value of the resized image at the
    centred window, minus the mean of channel [k], divided by its standard
    deviation, both operations in binary32. *)
Theorem preprocess_image_evaluation_result (image : tensor) (H W : nat)
    (output_height output_width resize_side_min : Z) :
  tensor_wf image -> shape image = [H; W; 3%nat] ->
  0 < Z.of_nat H < 2 ^ 24 -> 0 < Z.of_nat W < 2 ^ 24 ->
  2 <= resize_side_min < 2 ^ 24 - 1 ->
  Z.max (Z.of_nat H) (Z.of_nat W) * resize_side_min
    <= 2 ^ 30 * Z.min (Z.of_nat H) (Z.of_nat W) ->
  0 <= output_height <= resize_side_min - 1 ->
  0 <= output_width <= resize_side_min - 1 ->
  forall (resize_side_max : Z) (g : rng),
    exists (resized out : tensor) (new_height new_width : Z),
      _aspect_preserving_resize image resize_side_min = Ok resized
      /\ tf_shape resized = [new_height; new_width; 3]
      /\ preprocess_image image output_height output_width false
           resize_side_min resize_side_max g = (Ok out, g)
      /\ tf_shape out = [output_height; output_width; 3]
      /\ forall i j k : nat,
           Z.of_nat i < output_height -> Z.of_nat j < output_width -> (k < 3)%nat ->
           get out [i; j; k]
           = div binary32
               (sub binary32
                  (get resized [(Z.to_nat ((new_height - output_height) / 2) + i)%nat;
                                (Z.to_nat ((new_width - output_width) / 2) + j)%nat; k])
                  (convert binary32 (nth k [_R_MEAN; _G_MEAN; _B_MEAN] (Finite 0))))
               (convert binary32 (nth k [_R_STD; _G_STD; _B_STD] (Finite 0))).
Proof.
  intros Hwf Hs HH HW Hside Hfit Hoh How resize_side_max g.
  destruct (preprocess_image_evaluation_run image H W output_height output_width
              resize_side_min resize_side_max g Hwf Hs HH HW Hside Hfit Hoh How)
    as (resized & out & nh & nw & Hres & Hsr & _ & _ & Hrun & Hso & Hget).
  exists resized, out, nh, nw. auto.
Qed.

Lemma preprocess_image_evaluation_result_witness :
  exists (resized out : tensor) (new_height new_width : Z),
    _aspect_preserving_resize (example_image 2 3 3) 3 = Ok resized
    /\ tf_shape resized = [new_height; new_width; 3]
    /\ preprocess_image (example_image 2 3 3) 2 2 false 3 5 example_rng
       = (Ok out, example_rng)
    /\ tf_shape out = [2; 2; 3]
    /\ forall i j k : nat,
         Z.of_nat i < 2 -> Z.of_nat j < 2 -> (k < 3)%nat ->
         get out [i; j; k]
         = div binary32
             (sub binary32
                (get resized [(Z.to_nat ((new_height - 2) / 2) + i)%nat;
                              (Z.to_nat ((new_width - 2) / 2) + j)%nat; k])
                (convert binary32 (nth k [_R_MEAN; _G_MEAN; _B_MEAN] (Finite 0))))
             (convert binary32 (nth k [_R_STD; _G_STD; _B_STD] (Finite 0))).
Proof.
  apply (preprocess_image_evaluation_result (example_image 2 3 3) 2 3 2 2 3
           eq_refl eq_refl ltac:(cbn; lia) ltac:(cbn; lia) ltac:(cbn; lia)
           ltac:(cbn; lia) ltac:(lia) ltac:(lia) 5 example_rng).
Defined.

(** Property X10.  In training mode, under the same bounds with
    [resize_side_min <= resize_side_max], [preprocess_image] succeeds for
    every state of the random source and consumes exactly four words: the
    resize side, which lies in [[resize_side_min, resize_side_max]], then
    the three words of the random crop and flip; the result is the
    normalised crop. *)
Theorem preprocess_image_training_result (image : tensor) (H W : nat)
    (output_height output_width resize_side_min resize_side_max : Z) :
  tensor_wf image -> shape image = [H; W; 3%nat] ->
  0 < Z.of_nat H < 2 ^ 24 -> 0 < Z.of_nat W < 2 ^ 24 ->
  2 <= resize_side_min <= resize_side_max -> resize_side_max < 2 ^ 24 - 1 ->
  Z.max (Z.of_nat H) (Z.of_nat W) * resize_side_max
    <= 2 ^ 30 * Z.min (Z.of_nat H) (Z.of_nat W) ->
  0 < output_height <= resize_side_min - 1 ->
  0 < output_width <= resize_side_min - 1 ->
  forall g : rng,
    exists (resize_side : Z) (resized cropped out : tensor),
      resize_side_min <= resize_side <= resize_side_max
      /\ _aspect_preserving_resize image resize_side = Ok resized
      /\ _random_crop_and_flip resized output_height output_width
           (Rng (bits g) (1 + pos g))
         = (Ok cropped, Rng (bits g) (4 + pos g))
      /\ preprocess_image image output_height output_width true
           resize_side_min resize_side_max g = (Ok out, Rng (bits g) (4 + pos g))
      /\ tf_shape out = [output_height; output_width; 3]
      /\ forall i j k : nat,
           Z.of_nat i < output_height -> Z.of_nat j < output_width -> (k < 3)%nat ->
           get out [i; j; k]
           = div binary32
               (sub binary32 (get cropped [i; j; k])
                  (convert binary32 (nth k [_R_MEAN; _G_MEAN; _B_MEAN] (Finite 0))))
               (convert binary32 (nth k [_R_STD; _G_STD; _B_STD] (Finite 0))).
Proof.
  intros Hwf Hs HH HW Hside Hmax Hfit Hoh How g.
  destruct (preprocess_image_training_run image H W output_height output_width
              resize_side_min resize_side_max g Hwf Hs HH HW Hside Hmax Hfit Hoh How)
    as (resized & cropped & out & Hrange & Hres & Hcrop & Hrun & Hso & Hget).
  eexists _, resized, cropped, out. eauto 7.
Qed.

Lemma preprocess_image_training_result_witness :
  exists (resize_side : Z) (resized cropped out : tensor),
    3 <= resize_side <= 5
    /\ _aspect_preserving_resize (example_image 2 3 3) resize_side = Ok resized
    /\ _random_crop_and_flip resized 2 2 (Rng (bits example_rng) (1 + pos example_rng))
       = (Ok cropped, Rng (bits example_rng) (4 + pos example_rng))
    /\ preprocess_image (example_image 2 3 3) 2 2 true 3 5 example_rng
       = (Ok out, Rng (bits example_rng) (4 + pos example_rng))
    /\ tf_shape out = [2; 2; 3]
    /\ forall i j k : nat,
         Z.of_nat i < 2 -> Z.of_nat j < 2 -> (k < 3)%nat ->
         get out [i; j; k]
         = div binary32
             (sub binary32 (get cropped [i; j; k])
                (convert binary32 (nth k [_R_MEAN; _G_MEAN; _B_MEAN] (Finite 0))))
             (convert binary32 (nth k [_R_STD; _G_STD; _B_STD] (Finite 0))).
Proof.
  apply (preprocess_image_training_result (example_image 2 3 3) 2 3 2 2 3 5
           eq_refl eq_refl ltac:(cbn; lia) ltac:(cbn; lia) ltac:(lia) ltac:(cbn; lia)
           ltac:(cbn; lia) ltac:(lia) ltac:(lia) example_rng).
Defined.

(** ** What the orchestrator rejects *)

Lemma tf_slice_rank (t out : tensor) (begin size : list Z) :
  tf_slice t begin size = Ok out -> length (shape t) = length begin.
Proof.
  unfold tf_slice.
  destruct (mapM convert_int32 begin) as [b | e] eqn:Hb; cbn [mbind result_bind];
    [| discriminate].
  destruct (mapM convert_int32 size) as [z | e]; cbn [mbind result_bind]; [| discriminate].
  apply length_mapM_convert_int32 in Hb. rewrite <- Hb.
  unfold slice_kernel. cbv zeta.
  destruct (Nat.eqb_spec (length b) (length (shape t))) as [E | E];
    [now rewrite E | discriminate].
Qed.

Lemma central_crop_rank (t out : tensor) (h w : Z) :
  _central_crop t h w = Ok out -> length (shape t) = 3%nat.
Proof.
  unfold _central_crop.
  destruct (_get_h_w t) as [[hh ww] | e]; cbn [mbind result_bind]; [| discriminate].
  destruct (tf_sub hh h) as [a | e]; cbn [mbind result_bind]; [| discriminate].
  destruct (tf_floordiv a 2) as [b | e]; cbn [mbind result_bind]; [| discriminate].
  destruct (tf_sub ww w) as [c | e]; cbn [mbind result_bind]; [| discriminate].
  destruct (tf_floordiv c 2) as [d | e]; cbn [mbind result_bind]; [| discriminate].
  apply tf_slice_rank.
Qed.

Lemma random_crop_and_flip_rank (t out : tensor) (h w : Z) (g g' : rng) :
  _random_crop_and_flip t h w g = (Ok out, g') -> length (shape t) = 3%nat.
Proof.
  unfold _random_crop_and_flip. intros Hrun.
  apply rand_bind_inv in Hrun as ([hh ww] & g0 & _ & Hrun).
  do 6 (apply rand_bind_inv in Hrun as (? & ? & _ & Hrun)).
  apply rand_bind_inv in Hrun as (cropped & g1 & Hslice & _).
  apply lift_inv in Hslice as [Hslice _].
  now apply tf_slice_rank in Hslice.
Qed.

Lemma tf_image_resize_rank (t out : tensor) (new_height new_width : Z) :
  tf_image_resize t new_height new_width = Ok out ->
  length (shape out) = length (shape t).
Proof.
  unfold tf_image_resize.
  destruct (shape t) as [| a [| b [| c [| d [| ? ?]]]]] eqn:Hs; try discriminate.
  - destruct (_ <? _); [discriminate |]. destruct (_ <? _); [discriminate |].
    destruct (_ && _); [intros [= <-]; now rewrite Hs |].
    destruct (negb _); [discriminate |]. now intros [= <-].
  - destruct (_ <? _); [discriminate |]. destruct (_ <? _); [discriminate |].
    destruct (_ && _); [intros [= <-]; now rewrite Hs |].
    destruct (negb _); [discriminate |]. now intros [= <-].
Qed.

Lemma aspect_preserving_resize_rank (t out : tensor) (smallest_side : Z) :
  _aspect_preserving_resize t smallest_side = Ok out ->
  length (shape out) = length (shape t).
Proof.
  unfold _aspect_preserving_resize.
  destruct (_get_h_w t) as [[h w] | e]; cbn [mbind result_bind]; [| discriminate].
  destruct (_smallest_size_at_least h w smallest_side) as [nh nw].
  apply tf_image_resize_rank.
Qed.

Lemma mean_image_subtraction_inv (image out : tensor) (means : list float) :
  _mean_image_subtraction image means = Ok out ->
  exists H W : nat, shape image = [H; W; length means].
Proof.
  unfold _mean_image_subtraction, get_shape, ndims. intros Hout.
  destruct (shape image) as [| H [| W [| C [| ? ?]]]] eqn:Hs;
    cbn [length Nat.eqb negb] in Hout; try discriminate.
  exists H, W.
  unfold as_list_last in Hout. cbn [rev app mbind result_bind] in Hout.
  destruct (Z.eqb_spec (Z.of_nat (length means)) (Z.of_nat C)) as [E | E];
    [| discriminate].
  apply Nat2Z.inj in E. now rewrite E.
Qed.

(** Property X11.  [preprocess_image] returns a result only for images of
    rank 3 with exactly three channels: the crop takes a three-component
    window and the mean subtraction is called with three means. *)
Theorem preprocess_image_only_rgb
    (image : tensor) (output_height output_width : Z) (is_training : bool)
    (resize_side_min resize_side_max : Z) (g g' : rng) (out : tensor) :
  preprocess_image image output_height output_width is_training
    resize_side_min resize_side_max g = (Ok out, g') ->
  exists H W : nat, shape image = [H; W; 3%nat].
Proof.
  intros Hrun. unfold preprocess_image in Hrun.
  apply rand_bind_inv in Hrun as ([side crop_fn] & g0 & Hfn & Hrun).
  apply rand_bind_inv in Hrun as (channels & g1 & Hch & Hrun).
  apply lift_inv in Hch as [Hch ->].
  apply rand_bind_inv in Hrun as (resized & g2 & Hres & Hrun).
  apply lift_inv in Hres as [Hres ->].
  apply rand_bind_inv in Hrun as (cropped & g3 & Hcrop & Hrun).
  apply rand_bind_inv in Hrun as (shaped & g4 & Hset & Hrun).
  apply lift_inv in Hset as [Hset ->].
  apply set_shape_inv in Hset as [-> Hshape].
  apply rand_bind_inv in Hrun as (centered & g5 & Hmean & _).
  apply lift_inv in Hmean as [Hmean ->].
  unfold tf_cast_image in Hmean.
  apply mean_image_subtraction_inv in Hmean as (H' & W' & Hsc).
  unfold tf_shape in Hshape. rewrite Hsc in Hshape.
  injection Hshape as _ _ Hc. cbn [length] in Hc.
  assert (Hrank : length (shape resized) = 3%nat).
  { destruct is_training.
    - apply rand_bind_inv in Hfn as (s & g6 & _ & Hfn).
      injection Hfn as _ <- _. now apply random_crop_and_flip_rank in Hcrop.
    - injection Hfn as _ <- _. apply lift_inv in Hcrop as [Hcrop _].
      now apply central_crop_rank in Hcrop. }
  apply aspect_preserving_resize_rank in Hres. rewrite Hrank in Hres.
  unfold as_list_last, get_shape in Hch.
  destruct (shape image) as [| H [| W [| C [| ? ?]]]]; try discriminate.
  cbn [rev app] in Hch. injection Hch as Hch.
  exists H, W. repeat f_equal. lia.
Qed.

Lemma preprocess_image_only_rgb_witness :
  exists H W : nat, shape (example_image 2 3 3) = [H; W; 3%nat].
Proof.
  apply (preprocess_image_only_rgb (example_image 2 3 3) 2 2 false 3 5
           example_rng example_rng example_output).
  reflexivity.
Defined.

(** Property X12.  In training mode with
    [resize_side_max < resize_side_min] the range of the resize side is
    empty and [preprocess_image] fails in [tf.random.uniform], before the
    image is looked at and without consuming a random word. *)
Theorem preprocess_image_training_empty_range
    (image : tensor) (output_height output_width resize_side_min resize_side_max : Z)
    (g : rng) :
  in_int32 resize_side_min = true -> in_int32 (resize_side_max + 1) = true ->
  resize_side_max < resize_side_min ->
  preprocess_image image output_height output_width true
    resize_side_min resize_side_max g
  = (Raise (InvalidArgumentError "RandomUniformInt"), g).
Proof.
  intros Hlo Hhi Hlt. unfold preprocess_image.
  apply rand_bind_raise. apply rand_bind_raise.
  apply tf_random_uniform_no_range; [assumption | assumption | lia].
Qed.

Lemma preprocess_image_training_empty_range_witness :
  preprocess_image (example_image 2 3 3) 2 2 true 5 3 example_rng
  = (Raise (InvalidArgumentError "RandomUniformInt"), example_rng).
Proof.
  apply (preprocess_image_training_empty_range (example_image 2 3 3) 2 2 5 3 example_rng);
    [reflexivity | reflexivity | lia].
Defined.

(** Property X13.  The registered entry point [default] succeeds on every
    RGB image with sides below [2 ^ 24] and an aspect ratio of at most
    [2 ^ 21], in both modes, and returns an image of the registered shape
    [(224, 224, 3)]; it consumes four random words in training and none in
    evaluation. *)
Theorem default_result (image : tensor) (H W : nat) :
  tensor_wf image -> shape image = [H; W; 3%nat] ->
  0 < Z.of_nat H < 2 ^ 24 -> 0 < Z.of_nat W < 2 ^ 24 ->
  Z.max (Z.of_nat H) (Z.of_nat W) * 512 <= 2 ^ 30 * Z.min (Z.of_nat H) (Z.of_nat W) ->
  forall (training : bool) (g : rng),
    exists out : tensor,
      default image training g
      = (Ok out, if training then Rng (bits g) (4 + pos g) else g)
      /\ tf_shape out = [224; 224; 3].
Proof.
  intros Hwf Hs HH HW Hfit training g. unfold default, _RESIZE_SIDE_MIN, _RESIZE_SIDE_MAX.
  change (2 ^ 24) with 16777216 in *. change (2 ^ 30) with 1073741824 in *.
  destruct training.
  - destruct (preprocess_image_training_run image H W 224 224 256 512 g Hwf Hs)
      as (_ & _ & out & _ & _ & _ & Hrun & Hso & _); try (cbn; lia).
    exists out. auto.
  - destruct (preprocess_image_evaluation_run image H W 224 224 256 512 g Hwf Hs)
      as (_ & out & _ & _ & _ & _ & _ & _ & Hrun & Hso & _); try (cbn; lia).
    exists out. auto.
Qed.

Lemma default_result_witness :
  exists out : tensor,
    default (example_image 2 3 3) true example_rng
    = (Ok out, Rng (bits example_rng) (4 + pos example_rng))
    /\ tf_shape out = [224; 224; 3].
Proof.
  apply (default_result (example_image 2 3 3) 2 3
           eq_refl eq_refl ltac:(cbn; lia) ltac:(cbn; lia) ltac:(cbn; lia)
           true example_rng).
Defined.

(* ===================================================================== *)
(** * Output sizes that do not fit *)
(* ===================================================================== *)

Lemma central_crop_too_large (image : tensor) (H W C : nat) (h w : Z) :
  tensor_wf image -> shape image = [H; W; C] ->
  in_int32 h = true -> in_int32 w = true ->
  Z.of_nat H < h \/ Z.of_nat W < w ->
  _central_crop image h w = Raise (InvalidArgumentError "Slice").
Proof.
  intros Hwf Hs Ih Iw Hlarge.
  unfold _central_crop. rewrite (get_h_w_shape3 image H W C Hs). cbn [mbind result_bind].
  rewrite (tf_sub_int32 _ _ Ih). cbn [mbind result_bind].
  rewrite tf_floordiv_2 by apply wrap32_in_int32. cbn [mbind result_bind].
  rewrite (tf_sub_int32 _ _ Iw). cbn [mbind result_bind].
  rewrite tf_floordiv_2 by apply wrap32_in_int32. cbn [mbind result_bind].
  apply (tf_slice_too_large image H W C); try assumption;
    apply in_int32_half, wrap32_in_int32.
Qed.

(** Property X17.  [preprocess_image] does not compare the output size with
    the resize side.  In evaluation mode, when both output sides exceed
    [resize_side_min + 1], the central crop does not fit the resized image
    and the call fails in the bounds check of [tf.slice]. *)
Theorem preprocess_image_evaluation_output_too_large (image : tensor) (H W C : nat)
    (output_height output_width resize_side_min resize_side_max : Z) (g : rng) :
  tensor_wf image -> shape image = [H; W; C] -> (0 < C)%nat ->
  0 < Z.of_nat H < 2 ^ 24 -> 0 < Z.of_nat W < 2 ^ 24 ->
  2 <= resize_side_min < 2 ^ 24 - 1 ->
  Z.max (Z.of_nat H) (Z.of_nat W) * resize_side_min
    <= 2 ^ 30 * Z.min (Z.of_nat H) (Z.of_nat W) ->
  in_int32 output_height = true -> in_int32 output_width = true ->
  resize_side_min + 1 < Z.min output_height output_width ->
  preprocess_image image output_height output_width false
    resize_side_min resize_side_max g
  = (Raise (InvalidArgumentError "Slice"), g).
Proof.
  intros Hwf Hs HC HH HW Hside Hfit Ioh Iow Hlarge.
  destruct (aspect_preserving_resize_run image H W C resize_side_min Hwf Hs HC HH HW
              Hside Hfit)
    as (resized & nh & nw & _ & Hres & Hshape & Hwfr & Lh & Lw & Hmin).
  assert (Hcrop : _central_crop resized output_height output_width
                  = Raise (InvalidArgumentError "Slice")).
  { apply (central_crop_too_large resized _ _ _ _ _ Hwfr Hshape Ioh Iow).
    rewrite !Z2Nat.id by lia. lia. }
  unfold preprocess_image.
  unfold mbind at 1, rand_bind at 1, mret, rand_ret. cbv beta iota.
  rewrite (as_list_last3 image H W C Hs). rand_ok.
  rewrite Hres. rand_ok.
  rewrite Hcrop. reflexivity.
Qed.

Lemma preprocess_image_evaluation_output_too_large_witness :
  preprocess_image (example_image 2 3 3) 5 6 false 3 5 example_rng
  = (Raise (InvalidArgumentError "Slice"), example_rng).
Proof.
  apply (preprocess_image_evaluation_output_too_large (example_image 2 3 3) 2 3 3 5 6 3 5
           example_rng);
    [reflexivity | reflexivity | lia | cbn; lia | cbn; lia | cbn; lia | cbn; lia
    | reflexivity | reflexivity | lia].
Defined.

(* ===================================================================== *)
(** * Paths and the epoch file *)
(* ===================================================================== *)

Section PathFacts.
Local Open Scope string_scope.

Lemma eqb_empty_false (c : ascii) (s : string) : (String c s =? EmptyString) = false.
Proof. reflexivity. Qed.

Lemma append_eqb_empty (s t : string) :
  (t =? EmptyString) = false -> (s ++ t =? EmptyString) = false.
Proof. intros H. destruct s; [now rewrite append_nil | now rewrite append_cons]. Qed.

Lemma upto_last_sep_app_sep (d b : string) :
  (upto_last_sep b =? EmptyString) = false ->
  upto_last_sep (d ++ b) = d ++ upto_last_sep b.
Proof.
  intros Hb. induction d as [| c d IH]; [now rewrite !append_nil |].
  rewrite !append_cons. cbn [upto_last_sep]. rewrite IH.
  rewrite (append_eqb_empty d _ Hb). cbn [negb]. now rewrite orb_true_r.
Qed.

Lemma upto_last_sep_app_nosep (d b : string) :
  upto_last_sep b = EmptyString -> upto_last_sep (d ++ b) = upto_last_sep d.
Proof.
  intros Hb. induction d as [| c d IH]; [now rewrite append_nil |].
  rewrite append_cons. cbn [upto_last_sep]. now rewrite IH.
Qed.

Lemma upto_last_sep_endswith (d : string) :
  endswith_sep d = true -> upto_last_sep d = d.
Proof.
  induction d as [| c d IH]; [discriminate |].
  destruct d as [| c' d'].
  - cbn. now intros ->.
  - intros H. change (endswith_sep (String c' d') = true) in H.
    specialize (IH H). cbn [upto_last_sep] in *. rewrite IH.
    rewrite eqb_empty_false. cbn [negb]. now rewrite orb_true_r.
Qed.

Lemma rstrip_sep_app_sep (d : string) :
  rstrip_sep (d ++ String sep EmptyString) = rstrip_sep d.
Proof.
  induction d as [| c d IH]; [reflexivity |].
  rewrite append_cons. cbn [rstrip_sep]. now rewrite IH.
Qed.

Lemma rstrip_sep_id (d : string) : endswith_sep d = false -> rstrip_sep d = d.
Proof.
  induction d as [| c d IH]; [reflexivity |].
  destruct d as [| c' d'].
  - cbn. now intros ->.
  - intros H. change (endswith_sep (String c' d') = false) in H.
    specialize (IH H). cbn [rstrip_sep] in *. rewrite IH.
    rewrite eqb_empty_false. now rewrite andb_false_r.
Qed.

Lemma endswith_rstrip_sep (d : string) : endswith_sep (rstrip_sep d) = false.
Proof.
  induction d as [| c d IH]; [reflexivity |].
  cbn [rstrip_sep]. destruct (rstrip_sep d) as [| c' d'] eqn:E.
  - destruct (Ascii.eqb c sep) eqn:Ec; cbn; [reflexivity | exact Ec].
  - rewrite eqb_empty_false, andb_false_r. exact IH.
Qed.

Lemma rstrip_sep_empty (d : string) : rstrip_sep d = EmptyString -> all_sep d = true.
Proof.
  induction d as [| c d IH]; [reflexivity |].
  cbn [rstrip_sep all_sep]. destruct (rstrip_sep d) as [| c' d'] eqn:E.
  - destruct (Ascii.eqb c sep); [intros _; now apply IH | discriminate].
  - rewrite eqb_empty_false, andb_false_r. discriminate.
Qed.

Lemma all_sep_endswith (c : ascii) (d : string) :
  all_sep (String c d) = true -> endswith_sep (String c d) = true.
Proof.
  revert c. induction d as [| c' d IH]; intros c H.
  - cbn in *. now rewrite andb_true_r in H.
  - cbn [all_sep] in H. apply andb_prop in H as [_ H].
    change (endswith_sep (String c' d) = true). now apply IH.
Qed.

Lemma all_sep_app_sep (d : string) :
  all_sep (d ++ String sep EmptyString) = all_sep d.
Proof.
  induction d as [| c d IH]; [reflexivity |].
  rewrite append_cons. cbn [all_sep]. now rewrite IH.
Qed.

Lemma endswith_sep_app_sep (d : string) :
  endswith_sep (d ++ String sep EmptyString) = true.
Proof.
  induction d as [| c d IH]; [reflexivity |].
  rewrite append_cons. destruct d as [| c' d'].
  - reflexivity.
  - rewrite append_cons in *. exact IH.
Qed.

Lemma append_assoc_sep (d b : string) :
  (d ++ String sep EmptyString) ++ b = d ++ String sep b.
Proof.
  induction d as [| c d IH]; [reflexivity |].
  rewrite !append_cons. now rewrite IH.
Qed.

(** The directory part of a path is empty, all separators, or free of a
    trailing separator. *)
Lemma os_path_dirname_form (p : string) :
  all_sep (os_path_dirname p) = true
  \/ ((os_path_dirname p =? EmptyString) = false
      /\ endswith_sep (os_path_dirname p) = false).
Proof.
  unfold os_path_dirname. cbv zeta.
  destruct (upto_last_sep p) as [| c h] eqn:E; [now left |].
  rewrite eqb_empty_false. cbn [negb andb].
  destruct (all_sep (String c h)) eqn:A; cbn [negb]; [now left |].
  right. split; [| apply endswith_rstrip_sep].
  destruct (rstrip_sep (String c h)) eqn:R; [| reflexivity].
  apply rstrip_sep_empty in R. congruence.
Qed.

(** A file name joined to a directory part has that directory part. *)
Lemma os_path_dirname_join (p b : string) :
  upto_last_sep b = EmptyString -> startswith_sep b = false ->
  os_path_dirname (os_path_join (os_path_dirname p) b) = os_path_dirname p.
Proof.
  intros Hb Hsb. set (d := os_path_dirname p).
  destruct (os_path_dirname_form p) as [A | [N E]]; fold d in A || fold d in N, E.
  - destruct d as [| c r].
    + unfold os_path_join. rewrite Hsb. cbn [String.eqb orb]. rewrite append_nil.
      unfold os_path_dirname. now rewrite Hb.
    + pose proof (all_sep_endswith c r A) as E.
      unfold os_path_join. rewrite Hsb, E, orb_true_r.
      unfold os_path_dirname. cbv zeta.
      rewrite (upto_last_sep_app_nosep _ _ Hb), (upto_last_sep_endswith _ E).
      now rewrite A, andb_false_r.
  - unfold os_path_join. rewrite Hsb, N, E. cbn [orb].
    unfold os_path_dirname at 1. cbv zeta.
    assert (Hu : upto_last_sep (String sep b) = String sep EmptyString).
    { cbn [upto_last_sep]. rewrite Hb. reflexivity. }
    rewrite upto_last_sep_app_sep by (now rewrite Hu). rewrite Hu.
    rewrite (append_eqb_empty d (String sep EmptyString) eq_refl). cbn [negb andb].
    rewrite all_sep_app_sep, rstrip_sep_app_sep.
    destruct (all_sep d) eqn:A.
    + destruct d as [| c r]; [discriminate |].
      apply all_sep_endswith in A. congruence.
    + cbn [negb]. now apply rstrip_sep_id.
Qed.

Lemma os_path_join_trailing_sep (d b : string) :
  (d =? EmptyString) = false -> endswith_sep d = false -> startswith_sep b = false ->
  os_path_join (d ++ String sep EmptyString) b = os_path_join d b.
Proof.
  intros N E Hsb. unfold os_path_join. rewrite Hsb, N, E, endswith_sep_app_sep.
  rewrite orb_true_r. cbn [orb]. apply append_assoc_sep.
Qed.

End PathFacts.

(** ** The epoch file *)

(** Property X14.  When [epoch + 1] has at most 4300 decimal digits (the
    longest integer that [json.dump] prints), [on_epoch_end] returns
    exactly when the method of the parent class returns, the directory of
    [filepath] exists (or is the working directory) and [stats.json] in it
    is not a directory; the store is then the one the parent left, with
    [stats.json] holding the document for [epoch + 1] and nothing else
    changed.  An exception of the parent is passed on. *)
Theorem on_epoch_end_succeeds_iff
    (super_on_epoch_end : ModelCheckpoint -> Z -> filesystem -> result filesystem)
    (self : ModelCheckpoint) (epoch : Z) (fs : filesystem) :
  (Json.decimal_digits (epoch + 1) <= Json.max_str_digits)%nat ->
  let directory := os_path_dirname (filepath self) in
  let stats := os_path_join directory "stats.json" in
  (forall fs' : filesystem,
     on_epoch_end super_on_epoch_end self epoch fs = Ok fs'
     <-> exists fs1 : filesystem,
           super_on_epoch_end self epoch fs = Ok fs1
           /\ (stats ∉ dirs fs1)
           /\ (directory = EmptyString \/ directory ∈ dirs fs1)
           /\ fs' = Filesystem
                      (<[stats := epoch_document (epoch + 1)]> (files fs1)) (dirs fs1))
  /\ (forall e : exn,
        super_on_epoch_end self epoch fs = Raise e ->
        on_epoch_end super_on_epoch_end self epoch fs = Raise e).
Proof.
  intros Hlen directory stats.
  assert (Hdir : os_path_dirname stats = directory)
    by (apply os_path_dirname_join; reflexivity).
  split.
  - intros fs'. split.
    + intros Hrun. apply on_epoch_end_inv in Hrun as (fs1 & Hsuper & Hd & Hp & _ & ->).
      fold directory stats in Hd, Hp |- *. rewrite Hdir in Hp. exists fs1. auto.
    + intros (fs1 & Hsuper & Hd & Hp & ->). unfold on_epoch_end.
      fold directory stats. rewrite Hsuper. cbn [mbind result_bind].
      rewrite (open_write_ok fs1 stats Hd) by (now rewrite Hdir).
      cbn [mbind result_bind]. rewrite (dumps_epoch_small _ Hlen).
      cbn [mbind result_bind]. now rewrite write_text_opened.
  - intros e He. unfold on_epoch_end. now rewrite He.
Qed.

Lemma on_epoch_end_succeeds_iff_witness :
  let directory := os_path_dirname (filepath example_checkpoint) in
  let stats := os_path_join directory "stats.json" in
  (forall fs' : filesystem,
     on_epoch_end save_weights example_checkpoint 4 empty_out = Ok fs'
     <-> exists fs1 : filesystem,
           save_weights example_checkpoint 4 empty_out = Ok fs1
           /\ (stats ∉ dirs fs1)
           /\ (directory = EmptyString \/ directory ∈ dirs fs1)
           /\ fs' = Filesystem
                      (<[stats := epoch_document (4 + 1)]> (files fs1)) (dirs fs1))
  /\ (forall e : exn,
        save_weights example_checkpoint 4 empty_out = Raise e ->
        on_epoch_end save_weights example_checkpoint 4 empty_out = Raise e).
Proof.
  apply (on_epoch_end_succeeds_iff save_weights example_checkpoint 4 empty_out).
  apply Nat.leb_le. reflexivity.
Defined.

(** Property X15.  [get_current_epoch] looks at [stats.json] in
    [output_dir] and at nothing else: two stores that agree on that path
    give the same epoch. *)
Theorem get_current_epoch_reads_only_stats (fs fs' : filesystem) (output_dir : string) :
  let stats := os_path_join output_dir "stats.json" in
  files fs !! stats = files fs' !! stats ->
  (stats ∈ dirs fs <-> stats ∈ dirs fs') ->
  get_current_epoch fs output_dir = get_current_epoch fs' output_dir.
Proof.
  intros stats Hfile Hdir. unfold get_current_epoch, read_file. fold stats.
  rewrite Hfile. now rewrite (bool_decide_ext _ _ Hdir).
Qed.

Lemma get_current_epoch_reads_only_stats_witness :
  get_current_epoch stats_without_epoch "out"
  = get_current_epoch
      (Filesystem (<["out/weights.h5"%string := "weights"%string]> (files stats_without_epoch))
         (dirs stats_without_epoch))
      "out".
Proof.
  apply (get_current_epoch_reads_only_stats stats_without_epoch
           (Filesystem
              (<["out/weights.h5"%string := "weights"%string]> (files stats_without_epoch))
              (dirs stats_without_epoch))
           "out");
    reflexivity.
Defined.

(** Property X16.  A trailing separator on [output_dir] makes no
    difference to [get_current_epoch]. *)
Theorem get_current_epoch_trailing_separator (fs : filesystem) (output_dir : string) :
  output_dir <> EmptyString -> endswith_sep output_dir = false ->
  get_current_epoch fs (output_dir ++ String sep EmptyString)
  = get_current_epoch fs output_dir.
Proof.
  intros N E. unfold get_current_epoch.
  rewrite os_path_join_trailing_sep; [reflexivity | | assumption | reflexivity].
  now apply String.eqb_neq.
Qed.

Lemma get_current_epoch_trailing_separator_witness :
  get_current_epoch store_after_epoch_4 ("out" ++ String sep EmptyString)
  = get_current_epoch store_after_epoch_4 "out".
Proof.
  apply (get_current_epoch_trailing_separator store_after_epoch_4 "out");
    [discriminate | reflexivity].
Defined.
